(** * eduid-scimapi: the optimistic save protocol and the group reconciler

    A shallow embedding of the document-store side of the SCIM API
    (basedb.py, groupdb.py, db/invitedb.py, resources/users.py) together
    with the properties its design document states about it.

    Python objects that are mutated in place (the record handed to [save],
    the [db_group] handed to [update_group]) live in the state of a small
    state-and-exception monad, next to the world: the Mongo collection, the
    graph store, the sources of fresh ObjectIds and UUIDs, the clock, and a
    journal of every call that reached a store. *)

From Stdlib Require Import ZArith NArith String List Lia.
From stdpp Require Import base decidable option list gmap strings pretty.

#[local] Set Warnings "-register-all".
Open Scope string_scope.
Open Scope list_scope.

(** ** Python strings: [sub in s] *)

Fixpoint startswith (p s : string) : bool :=
  match p, s with
  | EmptyString, _ => true
  | String a p', String b s' => bool_decide (a = b) && startswith p' s'
  | String _ _, EmptyString => false
  end.

(** [contains sub s] is Python's [sub in s] on strings. *)
Fixpoint contains (sub s : string) : bool :=
  startswith sub s ||
  match s with
  | EmptyString => false
  | String _ s' => contains sub s'
  end.

(** ** Identifiers and time *)

(** A bson ObjectId, read as the 96-bit number it encodes. *)
Definition ObjectId := N.
(** A datetime, as microseconds since the epoch. *)
Definition datetime := Z.
(** A UUID in its canonical text form; [str(uuid)] is the identity on it. *)
Definition UUID := string.

(** ** The graph store's objects (eduid_groupdb) *)

Record GraphUser := {
  user_identifier : string;
  user_display_name : string;
}.

(** A graph group and its members, each a user or a group
    ([List[Union[User, Group]]]).  A Python list can also hold [None]; the
    member lists are lists of options so that what [update_group] builds can
    be written down as it is. *)
Inductive GraphGroup :=
  MkGraphGroup (identifier : string) (display_name : string)
               (members : list (option (GraphUser + GraphGroup))).

Abbreviation Member := (GraphUser + GraphGroup)%type.

Definition identifier (g : GraphGroup) : string :=
  match g with MkGraphGroup i _ _ => i end.
Definition display_name (g : GraphGroup) : string :=
  match g with MkGraphGroup _ d _ => d end.
Definition members (g : GraphGroup) : list (option Member) :=
  match g with MkGraphGroup _ _ ms => ms end.

Definition set_display_name (d : string) (g : GraphGroup) : GraphGroup :=
  MkGraphGroup (identifier g) d (members g).
Definition set_members (ms : list (option Member)) (g : GraphGroup) : GraphGroup :=
  MkGraphGroup (identifier g) (display_name g) ms.

Definition member_identifier (m : Member) : string :=
  match m with inl u => user_identifier u | inr g => identifier g end.
Definition member_display_name (m : Member) : string :=
  match m with inl u => user_display_name u | inr g => display_name g end.
Definition member_set_display_name (d : string) (m : Member) : Member :=
  match m with
  | inl u => inl {| user_identifier := user_identifier u; user_display_name := d |}
  | inr g => inr (set_display_name d g)
  end.

(** ** Exceptions and the monad *)

Inductive Exn :=
| RuntimeError (msg : string)
| ValueError (msg : string)
| KeyError (key : string)
| AttributeError
| DocumentDoesNotExist
| DuplicateKeyError (errmsg : string)
| TypeError
| BadRequest (detail : string).

Inductive Res (A : Type) :=
| Ok (a : A)
| Raise (e : Exn).
Arguments Ok {A} a.
Arguments Raise {A} e.

(** A computation over a state [S]: it returns or raises, and the state it
    leaves behind is there in both cases (what was written before an
    exception stays written). *)
Definition M (S A : Type) : Type := S -> Res A * S.

Definition ret {S A} (a : A) : M S A := fun s => (Ok a, s).
Definition raise {S A} (e : Exn) : M S A := fun s => (Raise e, s).
Definition bind {S A B} (m : M S A) (k : A -> M S B) : M S B :=
  fun s => match m s with
           | (Ok a, s') => k a s'
           | (Raise e, s') => (Raise e, s')
           end.
Definition gets {S A} (f : S -> A) : M S A := fun s => (Ok (f s), s).
Definition modify {S} (f : S -> S) : M S unit := fun s => (Ok tt, f s).

Notation "'let!' x ':=' c 'in' k" := (bind c (fun x => k))
  (at level 10, x pattern, c at level 100, k at level 200,
   format "'[v' 'let!'  x  ':='  c  'in' '/' k ']'").

(** [try_except m h]: Python's [try: m except E: h], with [h] choosing the
    exceptions it handles. *)
Definition try_except {S A} (m : M S A) (h : Exn -> option (M S A)) : M S A :=
  fun s => match m s with
           | (Ok a, s') => (Ok a, s')
           | (Raise e, s') =>
               match h e with
               | Some k => k s'
               | None => (Raise e, s')
               end
           end.

(** Monadic map over a list, left to right (a list comprehension whose
    element expression can raise). *)
Fixpoint mapM {S A B} (f : A -> M S B) (l : list A) : M S (list B) :=
  match l with
  | [] => ret []
  | x :: l' => let! y := f x in let! ys := mapM f l' in ret (y :: ys)
  end.

Section Model.

(** Nested payload the protocol never looks into (names, e-mail addresses,
    profiles, third-party extension data): any type with Python's [==]. *)
Context {Data : Type} `{!EqDecision Data}.

(** ** BSON values and documents *)

Inductive value :=
| VNone
| VOid (o : ObjectId)
| VTime (t : datetime)
| VStr (s : string)
| VData (d : Data)
| VList (l : list Data)
| VSub (k : string) (d : Data).   (* the one-key sub-document {k: d} *)

#[export] Instance value_eq_dec : EqDecision value.
Proof. solve_decision. Defined.

(** A document is a Python dict with string keys. *)
Abbreviation Doc := (gmap string value).

(** ** Filters *)

(** The value a filter document gives a field: a literal (equality) or a
    one-operator document such as [{'$gt': v}]. *)
Inductive cond :=
| CEq (v : value)
| COp (op : string) (v : value).

Abbreviation Spec := (gmap string cond).

(** Ordering is needed for datetimes only. *)
Definition value_lt (a b : value) : bool :=
  match a, b with
  | VTime x, VTime y => bool_decide (x < y)%Z
  | _, _ => false
  end.

Definition cond_holds (c : cond) (field : option value) : bool :=
  match c with
  | CEq v =>
      bool_decide (field = Some v)
      || (bool_decide (v = VNone) && bool_decide (field = None))
  | COp op v =>
      match field with
      | None => false
      | Some x =>
          if bool_decide (op = "$gt") then value_lt v x
          else if bool_decide (op = "$gte") then value_lt v x || bool_decide (x = v)
          else false
      end
  end.

(** A document matches a filter when every key of the filter holds of it.
    A key is looked up as the name of a field of the document: a path
    with dots into a sub-document is not followed. *)
Definition matches (spec : Spec) (d : Doc) : bool :=
  bool_decide (map_Forall (fun k c => cond_holds c (d !! k) = true) spec).


(** ** The collection and its indexes *)

Record Index := {
  ix_name : string;
  ix_key : string;
  ix_unique : bool;
  ix_sparse : bool;
}.

(** The index Mongo keeps on [_id] in every collection. *)
Definition id_index : Index :=
  {| ix_name := "_id_"; ix_key := "_id"; ix_unique := true; ix_sparse := false |}.

(** The key under which an index holds a document.  A sparse index holds no
    entry for a document that lacks the field; a field that is present with
    the value null is indexed, under null, sparse or not; an index that is
    not sparse files a document that lacks the field under null. *)
Definition index_entry (ix : Index) (d : Doc) : option value :=
  match d !! ix_key ix with
  | Some v => Some v
  | None => if ix_sparse ix then None else Some VNone
  end.

Definition collides (ix : Index) (d : Doc) (others : list Doc) : bool :=
  ix_unique ix &&
  match index_entry ix d with
  | Some v => existsb (fun d' => bool_decide (index_entry ix d' = Some v)) others
  | None => false
  end.

Record Collection := {
  coll_name : string;
  indexes : list Index;
  docs : list Doc;            (* in natural (insertion) order *)
}.

Definition set_docs (ds : list Doc) (c : Collection) : Collection :=
  {| coll_name := coll_name c; indexes := indexes c; docs := ds |}.
Definition set_indexes (ixs : list Index) (c : Collection) : Collection :=
  {| coll_name := coll_name c; indexes := ixs; docs := docs c |}.

(** The first unique index that refuses [d] next to [others]. *)
Definition violated_index (c : Collection) (others : list Doc) (d : Doc)
  : option Index :=
  List.find (fun ix => collides ix d others) (id_index :: indexes c).

(** The server's message for a refused write; it names the collection and
    the index (the offending value is left out of the rendering). *)
Definition duplicate_key_errmsg (c : Collection) (ix : Index) : string :=
  "E11000 duplicate key error collection: " +:+ coll_name c +:+
  " index: " +:+ ix_name ix +:+ " dup key: { " +:+ ix_key ix +:+ " }".

(** pymongo's UpdateResult.  The collection is used with the driver's
    default write concern, under which every result is acknowledged. *)
Record UpdateResult := {
  acknowledged : bool;
  matched_count : nat;
  modified_count : nat;
}.

(** ** The world *)

(** One entry per call that reaches a store. *)
Inductive Event :=
| EvCount (spec : Spec)
| EvFind (spec : Spec)
| EvFindOne (spec : Spec)
| EvReplaceOne (replacement : Doc) (modified : nat)
| EvInsertOne (d : Doc)
| EvRejected (d : Doc) (index : string)
| EvGraphSave (g : GraphGroup).

Record World := {
  coll : Collection;                 (* self._coll *)
  graphdb : gmap string GraphGroup;  (* self.graphdb, by group identifier *)
  next_oid : N;                      (* source of ObjectId() *)
  next_uuid : N;                     (* source of uuid4() *)
  clock : datetime;                  (* datetime.utcnow() *)
  journal : list Event;
}.

Definition set_coll (c : Collection) (w : World) : World :=
  {| coll := c; graphdb := graphdb w; next_oid := next_oid w;
     next_uuid := next_uuid w; clock := clock w; journal := journal w |}.
Definition set_graphdb (g : gmap string GraphGroup) (w : World) : World :=
  {| coll := coll w; graphdb := g; next_oid := next_oid w;
     next_uuid := next_uuid w; clock := clock w; journal := journal w |}.
Definition set_next_oid (n : N) (w : World) : World :=
  {| coll := coll w; graphdb := graphdb w; next_oid := n;
     next_uuid := next_uuid w; clock := clock w; journal := journal w |}.
Definition set_next_uuid (n : N) (w : World) : World :=
  {| coll := coll w; graphdb := graphdb w; next_oid := next_oid w;
     next_uuid := n; clock := clock w; journal := journal w |}.
Definition record_call (e : Event) (w : World) : World :=
  {| coll := coll w; graphdb := graphdb w; next_oid := next_oid w;
     next_uuid := next_uuid w; clock := clock w; journal := journal w ++ [e] |}.

(** Operations on the world, used from code that also holds a Python
    object [R] in its state. *)
Definition lift {R A} (m : M World A) : M (R * World) A :=
  fun s => let '(res, w') := m (snd s) in (res, (fst s, w')).
Definition self {R} : M (R * World) R := gets fst.
Definition assign {R} (f : R -> R) : M (R * World) unit :=
  modify (fun s => (f (fst s), snd s)).
(** Run a method on an object that the caller holds in a local variable. *)
Definition with_object {R A} (r : R) (m : M (R * World) A) : M World (A * R) :=
  fun w => match m (r, w) with
           | (Ok a, s') => (Ok (a, fst s'), snd s')
           | (Raise e, s') => (Raise e, snd s')
           end.

(** ** Fresh values and the clock *)

(** [ObjectId()]: no two calls return the same id. *)
Definition ObjectId_new : M World ObjectId :=
  fun w => (Ok (next_oid w), set_next_oid (N.succ (next_oid w)) w).

(** [uuid.uuid4()] *)
Definition uuid4 : M World UUID :=
  fun w => (Ok (pretty (next_uuid w)), set_next_uuid (N.succ (next_uuid w)) w).

(** [datetime.utcnow()] *)
Definition utcnow : M World datetime := gets clock.

(** ** pymongo: the calls made on [self._coll]

    The collection keeps a document as it was handed to the driver, the
    datetimes at the precision of the clock. *)

Definition find_one (spec : Spec) : M World (option Doc) :=
  fun w => (Ok (List.find (matches spec) (docs (coll w))),
            record_call (EvFindOne spec) w).

(** [replace_one(filter, replacement, upsert=False)]: the first document
    that matches is replaced.  [modified_count] counts the documents the
    call changed: none when nothing matched, and none when the replacement
    equals what was stored.  The callers' replacement carries the [_id] the
    filter selects. *)
Definition replace_one (test_doc : Spec) (replacement : Doc) : M World UpdateResult :=
  fun w =>
    let c := coll w in
    match list_find (fun d => matches test_doc d = true) (docs c) with
    | None =>
        (Ok {| acknowledged := true; matched_count := 0; modified_count := 0 |},
         record_call (EvReplaceOne replacement 0) w)
    | Some (i, old) =>
        match violated_index c (delete i (docs c)) replacement with
        | Some ix =>
            (Raise (DuplicateKeyError (duplicate_key_errmsg c ix)),
             record_call (EvRejected replacement (ix_name ix)) w)
        | None =>
            if decide (old = replacement) then
              (Ok {| acknowledged := true; matched_count := 1; modified_count := 0 |},
               record_call (EvReplaceOne replacement 0) w)
            else
              (Ok {| acknowledged := true; matched_count := 1; modified_count := 1 |},
               record_call (EvReplaceOne replacement 1)
                 (set_coll (set_docs (<[i := replacement]> (docs c)) c) w))
        end
    end.

(** [insert_one(doc)]; the documents handed to it here always carry an
    [_id]. *)
Definition insert_one (d : Doc) : M World unit :=
  fun w =>
    let c := coll w in
    match violated_index c (docs c) d with
    | Some ix =>
        (Raise (DuplicateKeyError (duplicate_key_errmsg c ix)),
         record_call (EvRejected d (ix_name ix)) w)
    | None =>
        (Ok tt, record_call (EvInsertOne d) (set_coll (set_docs (docs c ++ [d]) c) w))
    end.

(** ** eduid_userdb.BaseDB: what ScimApiBaseDB inherits *)

(** [setup_indexes(indexes)] *)
Definition setup_indexes (ixs : list Index) : M World unit :=
  modify (fun w => set_coll (set_indexes ixs (coll w)) w).

(** [db_count(spec)] *)
Definition db_count (spec : Spec) : M World Z :=
  fun w => (Ok (Z.of_nat (length (List.filter (matches spec) (docs (coll w))))),
            record_call (EvCount spec) w).

(** A projection keeps the listed fields and [_id]. *)
Definition project (fields : option (list string)) (d : Doc) : Doc :=
  match fields with
  | None => d
  | Some fs => filter (fun kv => kv.1 = "_id" \/ kv.1 ∈ fs) d
  end.

(** Cursor.skip and Cursor.limit: a limit of 0 is no limit, a negative
    limit is its absolute value. *)
Definition page (skip limit : option Z) (l : list Doc) : list Doc :=
  let l := match skip with Some s => drop (Z.to_nat s) l | None => l end in
  match limit with
  | Some n => if (n =? 0)%Z then l else take (Z.to_nat (Z.abs n)) l
  | None => l
  end.

(** Modelled from the spec: [BaseDB._get_documents_by_filter] lives in
    eduid_userdb.  Its contract is the one ScimApiBaseDB's docstring repeats
    ([raise_on_missing]: "If True, raise exception if no matching user
    object can be found"; "raise DocumentDoesNotExist: No document matching
    the search criteria") and section 4.1 of the design document: an empty
    page when nothing matches, unless the flag asks for an exception.  A
    negative [skip] is refused by the driver. *)
Definition _get_documents_by_filter (spec : Spec) (fields : option (list string))
    (limit skip : option Z) (raise_on_missing : bool) : M World (list Doc) :=
  fun w =>
    let w' := record_call (EvFind spec) w in
    let found := List.filter (matches spec) (docs (coll w)) in
    match found with
    | [] =>
        if raise_on_missing then (Raise DocumentDoesNotExist, w') else (Ok [], w')
    | _ :: _ =>
        match skip with
        | Some s =>
            if (s <? 0)%Z then (Raise (ValueError "skip must be >= 0"), w')
            else (Ok (page skip limit (project fields <$> found)), w')
        | None => (Ok (page skip limit (project fields <$> found)), w')
        end
    end.

(** Modelled from the spec: the graph store client's [save(group)]
    (eduid_groupdb.GroupDB), "individually atomic": the group is stored
    under its identifier and handed back. *)
Definition graphdb_save (g : GraphGroup) : M World GraphGroup :=
  fun w => (Ok g, record_call (EvGraphSave g)
                    (set_graphdb (<[identifier g := g]> (graphdb w)) w)).

(** ** schemas/scimbase.py *)

Record SubResource := {
  value_ : UUID;       (* value *)
  ref : string;        (* $ref *)
  display : string;
}.

(** ** basedb.py *)

Definition _get_documents_and_count_by_filter (spec : Spec)
    (fields : option (list string)) (limit skip : option Z)
    (raise_on_missing : bool) : M World (list Doc * Z) :=
  let! total_count := db_count spec in
  let! docs := _get_documents_by_filter spec fields limit skip raise_on_missing in
  (* Correct total_count if it is obviously wrong due to being made before
     actual data query *)
  let num_docs := Z.of_nat (length docs) in
  let total_count :=
    if match limit with None => true | Some l => (num_docs <? l)%Z end then
      let total_count := num_docs in
      match skip with
      | Some s => (total_count + s)%Z
      | None => total_count
      end
    else total_count in
  ret (docs, total_count).

(** ** groupdb.py *)

Record GroupExtensions := {
  data : Data;     (* arbitrary third party data *)
}.

#[export] Instance GroupExtensions_eq_dec : EqDecision GroupExtensions.
Proof. solve_decision. Defined.

Record ScimApiGroup := {
  group_display_name : string;
  group_id : ObjectId;
  group_scim_id : UUID;
  group_version : ObjectId;
  group_created : datetime;
  group_last_modified : datetime;
  group_extensions : GroupExtensions;
  group_graph : option GraphGroup;
}.

Definition group_set_version (v : ObjectId) (g : ScimApiGroup) : ScimApiGroup :=
  {| group_display_name := group_display_name g; group_id := group_id g;
     group_scim_id := group_scim_id g; group_version := v;
     group_created := group_created g;
     group_last_modified := group_last_modified g;
     group_extensions := group_extensions g; group_graph := group_graph g |}.
Definition group_set_last_modified (t : datetime) (g : ScimApiGroup) : ScimApiGroup :=
  {| group_display_name := group_display_name g; group_id := group_id g;
     group_scim_id := group_scim_id g; group_version := group_version g;
     group_created := group_created g; group_last_modified := t;
     group_extensions := group_extensions g; group_graph := group_graph g |}.
Definition group_set_extensions (e : GroupExtensions) (g : ScimApiGroup) : ScimApiGroup :=
  {| group_display_name := group_display_name g; group_id := group_id g;
     group_scim_id := group_scim_id g; group_version := group_version g;
     group_created := group_created g;
     group_last_modified := group_last_modified g;
     group_extensions := e; group_graph := group_graph g |}.
Definition group_set_graph (gr : option GraphGroup) (g : ScimApiGroup) : ScimApiGroup :=
  {| group_display_name := group_display_name g; group_id := group_id g;
     group_scim_id := group_scim_id g; group_version := group_version g;
     group_created := group_created g;
     group_last_modified := group_last_modified g;
     group_extensions := group_extensions g; group_graph := gr |}.

(** [ScimApiGroup.to_dict]: [asdict] with [scim_id] as text, [group_id]
    under [_id], and no [graph]. *)
Definition ScimApiGroup_to_dict (g : ScimApiGroup) : Doc :=
  <["display_name" := VStr (group_display_name g)]>
  (<["_id" := VOid (group_id g)]>
  (<["scim_id" := VStr (group_scim_id g)]>
  (<["version" := VOid (group_version g)]>
  (<["created" := VTime (group_created g)]>
  (<["last_modified" := VTime (group_last_modified g)]>
  (<["extensions" := VSub "data" (data (group_extensions g))]> ∅)))))).

(** Python's truth value of what [find_one] returned: [None] and the empty
    dict are false. *)
Definition truthy (o : option Doc) : bool :=
  match o with
  | Some d => negb (bool_decide (d = ∅))
  | None => false
  end.

(** [ScimApiGroupDB.save(group)]; [group] is the object in the state. *)
Definition ScimApiGroupDB_save : M (ScimApiGroup * World) bool :=
  let! group := self in
  let group_dict := ScimApiGroup_to_dict group in
  let test_doc : Spec :=
    <["_id" := CEq (VOid (group_id group))]>
    (<["version" := CEq (VOid (group_version group))]> ∅) in
  (* update the version number and last_modified timestamp *)
  let! oid := lift ObjectId_new in
  let group_dict := <["version" := VOid oid]> group_dict in
  let! now := lift utcnow in
  let group_dict := <["last_modified" := VTime now]> group_dict in
  let! result := lift (replace_one test_doc group_dict) in
  let! _ :=
    if (modified_count result =? 0)%nat then
      let! db_group := lift (find_one (<["_id" := CEq (VOid (group_id group))]> ∅)) in
      if truthy db_group then
        raise (RuntimeError "User out of sync, please retry")
      else lift (insert_one group_dict)
    else ret tt in
  (* put the new version number and last_modified in the group object after
     a successful update *)
  let! _ := assign (group_set_version oid) in
  let! _ := assign (group_set_last_modified now) in
  ret (acknowledged result).

(** Modelled from the spec: the request object [eduid_scimapi.group.Group]
    is not among the sources; these are the attributes groupdb.py reads. *)
Record SCIMGroup := {
  scim_display_name : string;            (* display_name *)
  scim_members : list SubResource;       (* members *)
  scim_nutid_group_v1_data : Data;       (* nutid_group_v1.data *)
}.

(** [ScimApiGroupDB.create_group(scim_group)] *)
Definition create_group (scim_group : SCIMGroup) : M World ScimApiGroup :=
  (* ScimApiGroup(extensions=..., display_name=...): the other fields come
     from their default factories, in field order *)
  let! new_id := ObjectId_new in
  let! new_scim_id := uuid4 in
  let! new_version := ObjectId_new in
  let! new_created := utcnow in
  let! new_last_modified := utcnow in
  let group :=
    {| group_display_name := scim_display_name scim_group;
       group_id := new_id; group_scim_id := new_scim_id;
       group_version := new_version; group_created := new_created;
       group_last_modified := new_last_modified;
       group_extensions := {| data := scim_nutid_group_v1_data scim_group |};
       group_graph := None |} in
  let graph := MkGraphGroup (group_scim_id group) (scim_display_name scim_group) [] in
  let group := group_set_graph (Some graph) group in
  let! _ := graphdb_save graph in
  let! (ok, group) := with_object group ScimApiGroupDB_save in
  (* if not ok: logger.warning *)
  ret group.

(** Modelled from the spec: [Group.get_member_user] and
    [Group.get_member_group] of eduid_groupdb look a member up by its
    identifier among the users, respectively the groups, of [members].
    The result is the object in the list: its position and what it holds. *)
Definition is_member_user (ident : string) (m : option Member) : bool :=
  match m with
  | Some (inl u) => bool_decide (user_identifier u = ident)
  | _ => false
  end.
Definition is_member_group (ident : string) (m : option Member) : bool :=
  match m with
  | Some (inr g) => bool_decide (identifier g = ident)
  | _ => false
  end.
Definition lookup_member (p : option Member -> bool) (g : GraphGroup)
  : option (nat * Member) :=
  match list_find (fun m => p m = true) (members g) with
  | Some (i, Some m) => Some (i, m)
  | _ => None
  end.
Definition get_member_user (g : GraphGroup) (ident : string) :=
  lookup_member (is_member_user ident) g.
Definition get_member_group (g : GraphGroup) (ident : string) :=
  lookup_member (is_member_group ident) g.

(** What the local list [members] of [update_group] holds: an object that
    is also in [db_group.graph.members] (at a position), an object made in
    the loop, or [None]. *)
Inductive MemberRef :=
| Stored (i : nat)
| Fresh (m : Member)
| NoMember.

Definition deref (g : GraphGroup) (r : MemberRef) : option Member :=
  match r with
  | Stored i => mjoin (members g !! i)
  | Fresh m => Some m
  | NoMember => None
  end.

(** Modelled from the spec: [set(a) != set(b)] on graph members is "set
    equality over identifiers". *)
Definition member_key (m : option Member) : option string :=
  member_identifier <$> m.
Definition member_sets_differ (a b : list (option Member)) : bool :=
  bool_decide ((list_to_set (member_key <$> a) : gset (option string))
               ≠ list_to_set (member_key <$> b)).

(** One turn of the loop over [scim_group.members]; the state is
    [(member_changed, members, db_group.graph)]. *)
Definition update_group_step (st : bool * list MemberRef * GraphGroup)
    (member : SubResource) : bool * list MemberRef * GraphGroup :=
  let '(member_changed, members_, graph) := st in
  let '(user_updated, group_updated, update_member) :=
    if contains "Users" (ref member) then
      (true, false, get_member_user graph (value_ member))
    else if contains "Groups" (ref member) then
      (false, true, get_member_group graph (value_ member))
    else (false, false, None) in
  match update_member with
  | None =>
      (* Add a new member *)
      let update_member :=
        if user_updated then
          Fresh (inl {| user_identifier := value_ member;
                        user_display_name := display member |})
        else if group_updated then
          match get_member_group graph (value_ member) with
          | Some (i, _) => Stored i
          | None => NoMember
          end
        else NoMember in
      (true, members_ ++ [update_member], graph)
  | Some (i, m) =>
      (* Update member attributes if they changed *)
      if bool_decide (member_display_name m ≠ display member) then
        (true, members_ ++ [Stored i],
         set_members
           (<[i := Some (member_set_display_name (display member) m)]> (members graph))
           graph)
      else (member_changed, members_ ++ [Stored i], graph)
  end.

(** [ScimApiGroupDB.update_group(scim_group, db_group)]; [db_group] is the
    object in the state, and the object returned.  Without a graph the
    first attribute access on [db_group.graph] raises before anything is
    changed. *)
Definition update_group (scim_group : SCIMGroup)
  : M (ScimApiGroup * World) ScimApiGroup :=
  let! db_group := self in
  match group_graph db_group with
  | None => raise AttributeError
  | Some graph =>
      let changed := false in
      let '(member_changed, members_, graph) :=
        foldl update_group_step (false, [], graph) (scim_members scim_group) in
      let '(changed, graph) :=
        if bool_decide (display_name graph ≠ scim_display_name scim_group) then
          (true, set_display_name (scim_display_name scim_group) graph)
        else (changed, graph) in
      (* Check if there where new, changed or removed members *)
      let new_members := deref graph <$> members_ in
      let '(changed, graph) :=
        if member_changed || member_sets_differ (members graph) new_members then
          (true, set_members new_members graph)
        else (changed, graph) in
      let _sg_ext := {| data := scim_nutid_group_v1_data scim_group |} in
      let '(changed, extensions) :=
        if bool_decide (group_extensions db_group ≠ _sg_ext) then (true, _sg_ext)
        else (changed, group_extensions db_group) in
      let! _ := assign (fun r => group_set_graph (Some graph)
                                   (group_set_extensions extensions r)) in
      let! _ :=
        if changed then
          let! ok := ScimApiGroupDB_save in
          if ok then
            let! saved := lift (graphdb_save graph) in
            assign (group_set_graph (Some saved))
          else ret tt   (* logger.warning *)
        else ret tt in
      self
  end.

(** ** db/invitedb.py *)

Record ScimApiInvite := {
  invite_id : ObjectId;
  invite_scim_id : UUID;
  invite_external_id : option string;
  invite_name : option Data;               (* ScimApiName *)
  invite_emails : list Data;               (* List[ScimApiEmail] *)
  invite_phone_numbers : list Data;        (* List[ScimApiPhoneNumber] *)
  invite_nin : option string;
  invite_preferred_language : option string;
  invite_completed : option datetime;
  invite_profiles : Data;                  (* Dict[str, ScimApiProfile] *)
  invite_version : ObjectId;
  invite_created : datetime;
  invite_last_modified : datetime;
}.

Definition invite_set_version (v : ObjectId) (i : ScimApiInvite) : ScimApiInvite :=
  {| invite_id := invite_id i; invite_scim_id := invite_scim_id i;
     invite_external_id := invite_external_id i; invite_name := invite_name i;
     invite_emails := invite_emails i;
     invite_phone_numbers := invite_phone_numbers i; invite_nin := invite_nin i;
     invite_preferred_language := invite_preferred_language i;
     invite_completed := invite_completed i;
     invite_profiles := invite_profiles i; invite_version := v;
     invite_created := invite_created i;
     invite_last_modified := invite_last_modified i |}.
Definition invite_set_last_modified (t : datetime) (i : ScimApiInvite) : ScimApiInvite :=
  {| invite_id := invite_id i; invite_scim_id := invite_scim_id i;
     invite_external_id := invite_external_id i; invite_name := invite_name i;
     invite_emails := invite_emails i;
     invite_phone_numbers := invite_phone_numbers i; invite_nin := invite_nin i;
     invite_preferred_language := invite_preferred_language i;
     invite_completed := invite_completed i;
     invite_profiles := invite_profiles i; invite_version := invite_version i;
     invite_created := invite_created i; invite_last_modified := t |}.

(** An optional field as a BSON value: [None] is stored as null. *)
Definition opt_value {A} (f : A -> value) (o : option A) : value :=
  match o with
  | Some a => f a
  | None => VNone
  end.

(** [ScimApiInvite.to_dict]: [asdict] keeps every field, also those that
    are [None]. *)
Definition ScimApiInvite_to_dict (i : ScimApiInvite) : Doc :=
  <["_id" := VOid (invite_id i)]>
  (<["scim_id" := VStr (invite_scim_id i)]>
  (<["external_id" := opt_value VStr (invite_external_id i)]>
  (<["name" := opt_value VData (invite_name i)]>
  (<["emails" := VList (invite_emails i)]>
  (<["phone_numbers" := VList (invite_phone_numbers i)]>
  (<["nin" := opt_value VStr (invite_nin i)]>
  (<["preferred_language" := opt_value VStr (invite_preferred_language i)]>
  (<["completed" := opt_value VTime (invite_completed i)]>
  (<["profiles" := VData (invite_profiles i)]>
  (<["version" := VOid (invite_version i)]>
  (<["created" := VTime (invite_created i)]>
  (<["last_modified" := VTime (invite_last_modified i)]> ∅)))))))))))).

(** The keys of a document that end up as keyword arguments the dataclass
    accepts: its fields, with [_id] popped into [invite_id]; a key
    [invite_id] of the document itself is overwritten by that. *)
Definition invite_fields : gset string :=
  list_to_set ["_id"; "invite_id"; "scim_id"; "external_id"; "name"; "emails";
               "phone_numbers"; "nin"; "preferred_language"; "completed";
               "profiles"; "version"; "created"; "last_modified"].

(** Readers of one field of a document.  The dataclass does not check the
    types of its arguments; a value whose shape its annotations exclude has
    no counterpart in [ScimApiInvite] and is refused with [TypeError]. *)
Definition required {S A} (k : string) (rd : value -> option A) (d : Doc) : M S A :=
  match d !! k with
  | None => raise (KeyError k)
  | Some v => match rd v with Some a => ret a | None => raise TypeError end
  end.
Definition with_default {S A} (k : string) (rd : value -> option A)
    (default : M S A) (d : Doc) : M S A :=
  match d !! k with
  | None => default
  | Some v => match rd v with Some a => ret a | None => raise TypeError end
  end.

Definition as_oid (v : value) : option ObjectId :=
  match v with VOid o => Some o | _ => None end.
Definition as_time (v : value) : option datetime :=
  match v with VTime t => Some t | _ => None end.
Definition as_str (v : value) : option string :=
  match v with VStr s => Some s | _ => None end.
Definition as_data (v : value) : option Data :=
  match v with VData d => Some d | _ => None end.
Definition as_list (v : value) : option (list Data) :=
  match v with VList l => Some l | _ => None end.
Definition nullable {A} (rd : value -> option A) (v : value) : option (option A) :=
  match v with
  | VNone => Some None
  | _ => Some <$> rd v
  end.

(** The value of [ScimApiName()], the default of the [name] field. *)
Context (ScimApiName_default : Data).

(** [ScimApiInvite.from_dict(data)].  The nested [from_dict]s of
    db/common.py rebuild the payload and are the identity on [Data]. *)
Definition ScimApiInvite_from_dict (d : Doc) : M World ScimApiInvite :=
  let! the_scim_id := required "scim_id" as_str d in
  let! the_id := required "_id" as_oid d in
  let! the_name :=
    with_default "name" (nullable as_data) (ret (Some ScimApiName_default)) d in
  let! the_emails := with_default "emails" as_list (ret []) d in
  let! the_phone_numbers := with_default "phone_numbers" as_list (ret []) d in
  let! the_profiles := required "profiles" as_data d in
  (* the constructor call, with the fields as keyword arguments *)
  if bool_decide (dom d ⊆ invite_fields) then
    let! the_external_id := with_default "external_id" (nullable as_str) (ret None) d in
    let! the_nin := with_default "nin" (nullable as_str) (ret None) d in
    let! the_language :=
      with_default "preferred_language" (nullable as_str) (ret None) d in
    let! the_completed := with_default "completed" (nullable as_time) (ret None) d in
    let! the_version := with_default "version" as_oid ObjectId_new d in
    let! the_created := with_default "created" as_time utcnow d in
    let! the_last_modified := with_default "last_modified" as_time utcnow d in
    ret {| invite_id := the_id; invite_scim_id := the_scim_id;
           invite_external_id := the_external_id; invite_name := the_name;
           invite_emails := the_emails;
           invite_phone_numbers := the_phone_numbers; invite_nin := the_nin;
           invite_preferred_language := the_language;
           invite_completed := the_completed;
           invite_profiles := the_profiles; invite_version := the_version;
           invite_created := the_created;
           invite_last_modified := the_last_modified |}
  else raise TypeError.

(** The indexes [ScimApiInviteDB.__init__] sets up. *)
Definition invite_indexes : list Index :=
  [ {| ix_name := "unique-scimid"; ix_key := "scim_id";
       ix_unique := true; ix_sparse := false |};
    {| ix_name := "unique-external-id"; ix_key := "external_id";
       ix_unique := true; ix_sparse := true |} ].

(** [ScimApiInviteDB.__init__] *)
Definition ScimApiInviteDB_init : M World unit :=
  (* Create an index so that scim_id is unique per data owner *)
  setup_indexes invite_indexes.

(** [ScimApiInviteDB.save(invite)]; [invite] is the object in the state. *)
Definition ScimApiInviteDB_save : M (ScimApiInvite * World) bool :=
  let! invite := self in
  let invite_dict := ScimApiInvite_to_dict invite in
  let test_doc : Spec :=
    <["_id" := CEq (VOid (invite_id invite))]>
    (<["version" := CEq (VOid (invite_version invite))]> ∅) in
  (* update the version number and last_modified timestamp *)
  let! oid := lift ObjectId_new in
  let invite_dict := <["version" := VOid oid]> invite_dict in
  let! now := lift utcnow in
  let invite_dict := <["last_modified" := VTime now]> invite_dict in
  let! result := lift (replace_one test_doc invite_dict) in
  let! _ :=
    if (modified_count result =? 0)%nat then
      let! db_invite := lift (find_one (<["_id" := CEq (VOid (invite_id invite))]> ∅)) in
      if truthy db_invite then
        raise (RuntimeError "Invite out of sync, please retry")
      else lift (insert_one invite_dict)
    else ret tt in
  (* put the new version number and last_modified in the invite object
     after a successful update *)
  let! _ := assign (invite_set_version oid) in
  let! _ := assign (invite_set_last_modified now) in
  ret (acknowledged result).

(** [ScimApiInviteDB.get_invites_by_last_modified] *)
Definition get_invites_by_last_modified (operator : string) (value : datetime)
    (limit skip : option Z) : M World (list ScimApiInvite * Z) :=
  (* map SCIM filter operators to mongodb filter *)
  let mongo_operator :=
    (<["gt" := "$gt"]> (<["ge" := "$gte"]> ∅) : gmap string string) !! operator in
  match mongo_operator with
  | None => raise (ValueError "Invalid filter operator")
  | Some mongo_operator =>
      let spec : Spec := <["last_modified" := COp mongo_operator (VTime value)]> ∅ in
      let! (docs, total_count) :=
        _get_documents_and_count_by_filter spec None limit skip true in
      let! invites := mapM ScimApiInvite_from_dict docs in
      ret (invites, total_count)
  end.

(** ** resources/users.py *)

(** Modelled from the spec: [ScimApiUser] and [ScimApiUserDB.save] live in
    db/userdb.py, which is not among the sources.  The record has the
    shape section 3 of the design document gives every versioned record
    and the attributes users.py reads; [save] is the algorithm of section
    4.2, "applied identically for User, Group, Invite"; the collection has
    the indexes section 6 lists ([external_id] unique and sparse). *)
Record ScimApiUser := {
  user_id : ObjectId;
  user_scim_id : UUID;
  user_external_id : option string;
  user_payload : Data;     (* name, emails, phone numbers, language, profiles *)
  user_version : ObjectId;
  user_created : datetime;
  user_last_modified : datetime;
}.

Definition user_set_version (v : ObjectId) (u : ScimApiUser) : ScimApiUser :=
  {| user_id := user_id u; user_scim_id := user_scim_id u;
     user_external_id := user_external_id u; user_payload := user_payload u;
     user_version := v; user_created := user_created u;
     user_last_modified := user_last_modified u |}.
Definition user_set_last_modified (t : datetime) (u : ScimApiUser) : ScimApiUser :=
  {| user_id := user_id u; user_scim_id := user_scim_id u;
     user_external_id := user_external_id u; user_payload := user_payload u;
     user_version := user_version u; user_created := user_created u;
     user_last_modified := t |}.

(** Modelled from the spec: see [ScimApiUser]. *)
Definition ScimApiUser_to_dict (u : ScimApiUser) : Doc :=
  <["_id" := VOid (user_id u)]>
  (<["scim_id" := VStr (user_scim_id u)]>
  (<["external_id" := opt_value VStr (user_external_id u)]>
  (<["payload" := VData (user_payload u)]>
  (<["version" := VOid (user_version u)]>
  (<["created" := VTime (user_created u)]>
  (<["last_modified" := VTime (user_last_modified u)]> ∅)))))).

(** Modelled from the spec: see [ScimApiUser]. *)
Definition ScimApiUserDB_save : M (ScimApiUser * World) bool :=
  let! user := self in
  let user_dict := ScimApiUser_to_dict user in
  let test_doc : Spec :=
    <["_id" := CEq (VOid (user_id user))]>
    (<["version" := CEq (VOid (user_version user))]> ∅) in
  let! oid := lift ObjectId_new in
  let user_dict := <["version" := VOid oid]> user_dict in
  let! now := lift utcnow in
  let user_dict := <["last_modified" := VTime now]> user_dict in
  let! result := lift (replace_one test_doc user_dict) in
  let! _ :=
    if (modified_count result =? 0)%nat then
      let! db_user := lift (find_one (<["_id" := CEq (VOid (user_id user))]> ∅)) in
      if truthy db_user then
        raise (RuntimeError "User out of sync, please retry")
      else lift (insert_one user_dict)
    else ret tt in
  let! _ := assign (user_set_version oid) in
  let! _ := assign (user_set_last_modified now) in
  ret (acknowledged result).

(** [UsersResource._save_user(req, db_user)]; [ctx_userdb(req)] is the
    collection of the world, [db_user] the object in the state. *)
Definition _save_user : M (ScimApiUser * World) unit :=
  try_except
    (let! _ := ScimApiUserDB_save in ret tt)
    (fun e =>
       match e with
       | DuplicateKeyError errmsg =>
           Some (if contains "external-id" errmsg then
                   raise (BadRequest "externalID must be unique")
                 else raise (BadRequest "Duplicated key error"))
       | _ => None
       end).

(** ** The protocol the three [save]s share *)

(** What [save] needs of a record class: its document, its key, its
    version, and the two assignments made after a write. *)
Class Versioned (R : Type) := {
  to_dict : R -> Doc;
  rec_id : R -> ObjectId;
  rec_version : R -> ObjectId;
  set_version : ObjectId -> R -> R;
  set_last_modified : datetime -> R -> R;
  out_of_sync : string;
}.

Class VersionedLaws (R : Type) `{Versioned R} := {
  to_dict_id : forall r, to_dict r !! "_id" = Some (VOid (rec_id r));
  to_dict_version : forall r, to_dict r !! "version" = Some (VOid (rec_version r));
  to_dict_stamp : forall r v t,
    to_dict (set_last_modified t (set_version v r))
    = <["last_modified" := VTime t]> (<["version" := VOid v]> (to_dict r));
  rec_version_stamp : forall r v t,
    rec_version (set_last_modified t (set_version v r)) = v;
}.

Definition test_doc_of {R} `{Versioned R} (r : R) : Spec :=
  <["_id" := CEq (VOid (rec_id r))]>
  (<["version" := CEq (VOid (rec_version r))]> ∅).
Definition id_spec_of {R} `{Versioned R} (r : R) : Spec :=
  <["_id" := CEq (VOid (rec_id r))]> ∅.

Definition optimistic_save {R} `{Versioned R} : M (R * World) bool :=
  let! rec := self in
  let rec_dict := to_dict rec in
  let! oid := lift ObjectId_new in
  let rec_dict := <["version" := VOid oid]> rec_dict in
  let! now := lift utcnow in
  let rec_dict := <["last_modified" := VTime now]> rec_dict in
  let! result := lift (replace_one (test_doc_of rec) rec_dict) in
  let! _ :=
    if (modified_count result =? 0)%nat then
      let! db_rec := lift (find_one (id_spec_of rec)) in
      if truthy db_rec then raise (RuntimeError out_of_sync)
      else lift (insert_one rec_dict)
    else ret tt in
  let! _ := assign (set_version oid) in
  let! _ := assign (set_last_modified now) in
  ret (acknowledged result).

#[export] Instance group_versioned : Versioned ScimApiGroup := {|
  to_dict := ScimApiGroup_to_dict;
  rec_id := group_id;
  rec_version := group_version;
  set_version := group_set_version;
  set_last_modified := group_set_last_modified;
  out_of_sync := "User out of sync, please retry";
|}.

#[export] Instance invite_versioned : Versioned ScimApiInvite := {|
  to_dict := ScimApiInvite_to_dict;
  rec_id := invite_id;
  rec_version := invite_version;
  set_version := invite_set_version;
  set_last_modified := invite_set_last_modified;
  out_of_sync := "Invite out of sync, please retry";
|}.

#[export] Instance user_versioned : Versioned ScimApiUser := {|
  to_dict := ScimApiUser_to_dict;
  rec_id := user_id;
  rec_version := user_version;
  set_version := user_set_version;
  set_last_modified := user_set_last_modified;
  out_of_sync := "User out of sync, please retry";
|}.

(** The document [save] writes for [r] in the world [w], the record it
    leaves in the caller's hands after a write, and the world after
    [save] made the calls [evs] and left the documents [ds]. *)
Definition new_doc {R} `{Versioned R} (r : R) (w : World) : Doc :=
  <["last_modified" := VTime (clock w)]>
  (<["version" := VOid (next_oid w)]> (to_dict r)).
Definition stamped {R} `{Versioned R} (r : R) (w : World) : R :=
  set_last_modified (clock w) (set_version (next_oid w) r).
Definition after_save (w : World) (ds : list Doc) (evs : list Event) : World :=
  {| coll := set_docs ds (coll w); graphdb := graphdb w;
     next_oid := N.succ (next_oid w); next_uuid := next_uuid w;
     clock := clock w; journal := journal w ++ evs |}.

Definition has_id (i : ObjectId) (d : Doc) : Prop := d !! "_id" = Some (VOid i).

(** The five ways a [save] can go. *)
Inductive SaveOutcome {R} `{Versioned R} (r : R) (w : World)
  : Res bool * (R * World) -> Prop :=
| Replaced i old :
    docs (coll w) !! i = Some old ->
    matches (test_doc_of r) old = true ->
    old <> new_doc r w ->
    violated_index (coll w) (delete i (docs (coll w))) (new_doc r w) = None ->
    SaveOutcome r w
      (Ok true,
       (stamped r w,
        after_save w (<[i := new_doc r w]> (docs (coll w)))
          [EvReplaceOne (new_doc r w) 1]))
| Inserted :
    Forall (fun d => ~ has_id (rec_id r) d) (docs (coll w)) ->
    violated_index (coll w) (docs (coll w)) (new_doc r w) = None ->
    SaveOutcome r w
      (Ok true,
       (stamped r w,
        after_save w (docs (coll w) ++ [new_doc r w])
          [EvReplaceOne (new_doc r w) 0; EvFindOne (id_spec_of r);
           EvInsertOne (new_doc r w)]))
| Conflict d :
    d ∈ docs (coll w) ->
    has_id (rec_id r) d ->
    (forall i old,
        list_find (fun d => matches (test_doc_of r) d = true) (docs (coll w))
        = Some (i, old) -> old = new_doc r w) ->
    SaveOutcome r w
      (Raise (RuntimeError out_of_sync),
       (r, after_save w (docs (coll w))
             [EvReplaceOne (new_doc r w) 0; EvFindOne (id_spec_of r)]))
| RejectedReplace i old ix :
    docs (coll w) !! i = Some old ->
    matches (test_doc_of r) old = true ->
    violated_index (coll w) (delete i (docs (coll w))) (new_doc r w) = Some ix ->
    SaveOutcome r w
      (Raise (DuplicateKeyError (duplicate_key_errmsg (coll w) ix)),
       (r, after_save w (docs (coll w)) [EvRejected (new_doc r w) (ix_name ix)]))
| RejectedInsert ix :
    Forall (fun d => ~ has_id (rec_id r) d) (docs (coll w)) ->
    violated_index (coll w) (docs (coll w)) (new_doc r w) = Some ix ->
    SaveOutcome r w
      (Raise (DuplicateKeyError (duplicate_key_errmsg (coll w) ix)),
       (r, after_save w (docs (coll w))
             [EvReplaceOne (new_doc r w) 0; EvFindOne (id_spec_of r);
              EvRejected (new_doc r w) (ix_name ix)])).

(** ** Strings *)

Lemma startswith_app (p s : string) : startswith p (p +:+ s) = true.
Proof.
  induction p as [|a p IH]; simpl; [done|].
  rewrite IH, bool_decide_eq_true_2; done.
Qed.

Lemma contains_startswith (sub s : string) :
  startswith sub s = true -> contains sub s = true.
Proof. intros Hp. destruct s; simpl; rewrite Hp; done. Qed.

Lemma contains_app_l (sub p s : string) :
  contains sub s = true -> contains sub (p +:+ s) = true.
Proof.
  intros Hs. induction p as [|a p IH]; simpl; [done|].
  rewrite IH. apply orb_true_r.
Qed.

Lemma contains_infix (sub p s : string) : contains sub (p +:+ sub +:+ s) = true.
Proof. apply contains_app_l, contains_startswith, startswith_app. Qed.

(** ** Filters *)

Lemma matches_spec (spec : Spec) (d : Doc) :
  matches spec d = true
  <-> forall k c, spec !! k = Some c -> cond_holds c (d !! k) = true.
Proof. unfold matches. rewrite bool_decide_eq_true. reflexivity. Qed.

Lemma cond_holds_eq_oid (o : ObjectId) (field : option value) :
  cond_holds (CEq (VOid o)) field = true <-> field = Some (VOid o).
Proof.
  unfold cond_holds.
  rewrite (bool_decide_eq_false_2 (VOid o = VNone)) by discriminate.
  rewrite andb_false_l, orb_false_r. apply bool_decide_eq_true.
Qed.

Lemma matches_id (i : ObjectId) (d : Doc) :
  matches (<["_id" := CEq (VOid i)]> ∅) d = true <-> has_id i d.
Proof.
  rewrite matches_spec. unfold has_id. split.
  - intros Hm. apply cond_holds_eq_oid, (Hm "_id"). by rewrite lookup_insert_eq.
  - intros Hd k c [[<- <-]|[_ Hk]]%lookup_insert_Some.
    + by apply cond_holds_eq_oid.
    + by rewrite lookup_empty in Hk.
Qed.

Lemma matches_id_version (i v : ObjectId) (d : Doc) :
  matches (<["_id" := CEq (VOid i)]> (<["version" := CEq (VOid v)]> ∅)) d = true
  <-> has_id i d /\ d !! "version" = Some (VOid v).
Proof.
  rewrite matches_spec. unfold has_id. split.
  - intros Hm. split; apply cond_holds_eq_oid.
    + apply (Hm "_id"). by rewrite lookup_insert_eq.
    + apply (Hm "version"). rewrite lookup_insert_ne by done.
      by rewrite lookup_insert_eq.
  - intros [Hi Hv] k c [[<- <-]|[_ Hk]]%lookup_insert_Some.
    + by apply cond_holds_eq_oid.
    + apply lookup_insert_Some in Hk as [[<- <-]|[_ Hk]].
      * by apply cond_holds_eq_oid.
      * by rewrite lookup_empty in Hk.
Qed.

Lemma matches_op (k op : string) (v : value) (d : Doc) :
  matches (<[k := COp op v]> ∅) d = true <-> cond_holds (COp op v) (d !! k) = true.
Proof.
  rewrite matches_spec. split.
  - intros Hm. apply Hm. by rewrite lookup_insert_eq.
  - intros Hd k' c [[<- <-]|[_ Hk]]%lookup_insert_Some; [done|].
    by rewrite lookup_empty in Hk.
Qed.

Lemma find_matches_None (spec : Spec) (l : list Doc) :
  List.find (matches spec) l = None <-> Forall (fun d => matches spec d <> true) l.
Proof.
  induction l as [|d l IH]; simpl.
  - split; [constructor|done].
  - destruct (matches spec d) eqn:Hd.
    + split; [done|]. intros Hf. inversion Hf; subst. congruence.
    + rewrite IH. split.
      * intros Hf. constructor; [congruence|done].
      * intros Hf. by inversion Hf.
Qed.

Lemma find_matches_Some (spec : Spec) (l : list Doc) (d : Doc) :
  List.find (matches spec) l = Some d -> d ∈ l /\ matches spec d = true.
Proof.
  intros [Hin Hm]%List.find_some. split; [|done]. by apply list_elem_of_In.
Qed.

Lemma truthy_has_id (i : ObjectId) (d : Doc) : has_id i d -> truthy (Some d) = true.
Proof.
  unfold has_id, truthy. intros Hd.
  rewrite bool_decide_eq_false_2; [done|].
  intros ->. by rewrite lookup_empty in Hd.
Qed.

(** ** The outcome of [save] *)

Lemma after_save_begin (w : World) :
  set_next_oid (N.succ (next_oid w)) w = after_save w (docs (coll w)) [].
Proof.
  destruct w as [[n ixs ds] g o u c j]. unfold after_save, set_next_oid; simpl.
  rewrite app_nil_r. reflexivity.
Qed.

Lemma after_save_call (w : World) (ds : list Doc) (evs : list Event) (e : Event) :
  record_call e (after_save w ds evs) = after_save w ds (evs ++ [e]).
Proof. unfold record_call, after_save; simpl. by rewrite app_assoc. Qed.

Lemma after_save_docs (w : World) (ds ds' : list Doc) (evs : list Event) :
  set_coll (set_docs ds' (coll w)) (after_save w ds evs) = after_save w ds' evs.
Proof. reflexivity. Qed.

Lemma set_docs_id (c : Collection) : set_docs (docs c) c = c.
Proof. by destruct c. Qed.

Lemma optimistic_save_outcome {R} `{Versioned R} (r : R) (w : World) :
  SaveOutcome r w (optimistic_save (r, w)).
Proof.
  unfold optimistic_save, bind, self, gets, lift, assign, modify, ret,
    ObjectId_new, utcnow, replace_one, find_one, insert_one, raise; simpl.
  fold (new_doc r w). rewrite after_save_begin.
  destruct (list_find _ _) as [[i old]|] eqn:Hfind.
  - pose proof Hfind as (Hi & Hold & _)%list_find_Some.
    destruct (violated_index _ _ _) as [ix|] eqn:Hix.
    + rewrite after_save_call. by eapply RejectedReplace.
    + destruct (decide (old = new_doc r w)) as [Heq|Hne]; simpl.
      * assert (has_id (rec_id r) old) as Hid
          by (by apply matches_id_version in Hold as [? _]).
        destruct (find _ _) as [d|] eqn:Hd.
        -- apply find_matches_Some in Hd as [Hin Hm].
           apply matches_id in Hm. rewrite (truthy_has_id _ _ Hm).
           rewrite !after_save_call; simpl.
           eapply Conflict; [done..|].
           intros j old' Hj. congruence.
        -- apply find_matches_None in Hd.
           apply list_elem_of_lookup_2 in Hi.
           rewrite Forall_forall in Hd. apply Hd in Hi.
           destruct Hi. by apply matches_id.
      * rewrite after_save_docs, after_save_call. by eapply Replaced.
  - simpl. apply list_find_None in Hfind.
    destruct (find _ _) as [d|] eqn:Hd.
    + apply find_matches_Some in Hd as [Hin Hm].
      apply matches_id in Hm. rewrite (truthy_has_id _ _ Hm).
      rewrite !after_save_call; simpl.
      eapply Conflict; [done..|].
      intros j old' Hj. apply list_find_Some in Hj as (Hj & Hm' & _).
      apply list_elem_of_lookup_2 in Hj.
      rewrite Forall_forall in Hfind. by destruct (Hfind _ Hj).
    + apply find_matches_None in Hd. simpl.
      assert (Forall (fun d => ~ has_id (rec_id r) d) (docs (coll w))) as Hno.
      { eapply Forall_impl; [exact Hd|]. intros d Hm Hid.
        by apply Hm, matches_id. }
      rewrite !after_save_call; simpl. rewrite set_docs_id.
      destruct (violated_index _ _ _) as [ix|] eqn:Hix.
      * rewrite after_save_call; simpl. by eapply RejectedInsert.
      * rewrite after_save_docs, after_save_call; simpl. by eapply Inserted.
Qed.

(** ** The three [save]s are the protocol *)

Lemma ScimApiGroupDB_save_protocol : ScimApiGroupDB_save = optimistic_save.
Proof. reflexivity. Qed.

Lemma ScimApiInviteDB_save_protocol : ScimApiInviteDB_save = optimistic_save.
Proof. reflexivity. Qed.

Lemma ScimApiUserDB_save_protocol : ScimApiUserDB_save = optimistic_save.
Proof. reflexivity. Qed.

Ltac lookup_chain :=
  repeat (rewrite lookup_insert; case_decide; simplify_eq; try done).

#[export] Instance group_versioned_laws : VersionedLaws ScimApiGroup.
Proof.
  split; intros; simpl; unfold ScimApiGroup_to_dict; simpl.
  - lookup_chain.
  - lookup_chain.
  - apply map_eq; intros k. lookup_chain.
  - done.
Qed.

#[export] Instance invite_versioned_laws : VersionedLaws ScimApiInvite.
Proof.
  split; intros; simpl; unfold ScimApiInvite_to_dict; simpl.
  - lookup_chain.
  - lookup_chain.
  - apply map_eq; intros k. lookup_chain.
  - done.
Qed.

#[export] Instance user_versioned_laws : VersionedLaws ScimApiUser.
Proof.
  split; intros; simpl; unfold ScimApiUser_to_dict; simpl.
  - lookup_chain.
  - lookup_chain.
  - apply map_eq; intros k. lookup_chain.
  - done.
Qed.

(** ** Consequences of the outcome, for any record class *)

(** Mongo keeps [_id] unique in a collection. *)
Definition unique_ids (l : list Doc) : Prop :=
  forall i j d d' o,
    l !! i = Some d -> l !! j = Some d' -> has_id o d -> has_id o d' -> i = j.

Lemma new_doc_id {R} `{VersionedLaws R} (r : R) (w : World) :
  has_id (rec_id r) (new_doc r w).
Proof.
  unfold has_id, new_doc. rewrite !lookup_insert_ne by done. apply to_dict_id.
Qed.

Lemma new_doc_stamped {R} `{VersionedLaws R} (r : R) (w : World) :
  to_dict (stamped r w) = new_doc r w.
Proof. apply to_dict_stamp. Qed.

Lemma id_index_free (c : Collection) (ds : list Doc) (d : Doc) (i : ObjectId) :
  has_id i d -> Forall (fun d' => ~ has_id i d') ds ->
  collides id_index d ds = false.
Proof.
  unfold collides, index_entry, has_id; simpl. intros -> Hds.
  induction Hds as [|d' ds Hd' _ IH]; simpl; [done|].
  rewrite IH, orb_false_r. apply bool_decide_eq_false_2.
  destruct (d' !! "_id") eqn:E; [|done]. intros [= ->]. by apply Hd'.
Qed.

Lemma violated_index_plain (c : Collection) (ds : list Doc) (d : Doc) (i : ObjectId) :
  indexes c = [] -> has_id i d -> Forall (fun d' => ~ has_id i d') ds ->
  violated_index c ds d = None.
Proof.
  intros Hc Hd Hds. unfold violated_index. rewrite Hc; simpl.
  by rewrite (id_index_free c ds d i).
Qed.

Lemma after_save_coll (w : World) (evs : list Event) :
  coll (after_save w (docs (coll w)) evs) = coll w.
Proof. simpl. apply set_docs_id. Qed.

Lemma save_absent {R} `{Versioned R} (r : R) (w : World) :
  Forall (fun d => ~ has_id (rec_id r) d) (docs (coll w)) ->
  match violated_index (coll w) (docs (coll w)) (new_doc r w) with
  | None =>
      optimistic_save (r, w)
      = (Ok true,
         (stamped r w,
          after_save w (docs (coll w) ++ [new_doc r w])
            [EvReplaceOne (new_doc r w) 0; EvFindOne (id_spec_of r);
             EvInsertOne (new_doc r w)]))
  | Some ix =>
      optimistic_save (r, w)
      = (Raise (DuplicateKeyError (duplicate_key_errmsg (coll w) ix)),
         (r, after_save w (docs (coll w))
               [EvReplaceOne (new_doc r w) 0; EvFindOne (id_spec_of r);
                EvRejected (new_doc r w) (ix_name ix)]))
  end.
Proof.
  intros Hno. rewrite Forall_forall in Hno.
  assert (forall i old, docs (coll w) !! i = Some old ->
                        matches (test_doc_of r) old = true -> False) as Hnomatch.
  { intros i old Hi [Hid _]%matches_id_version.
    by eapply Hno; [eapply list_elem_of_lookup_2|]. }
  pose proof (optimistic_save_outcome r w) as Ho.
  remember (optimistic_save (r, w)) as res eqn:Hres. clear Hres.
  destruct Ho as [i old Hi Hm _ _| _ Hix |d Hd Hid _|i old ix Hi Hm _|ix _ Hix].
  - by destruct (Hnomatch i old).
  - by rewrite Hix.
  - by destruct (Hno d).
  - by destruct (Hnomatch i old).
  - by rewrite Hix.
Qed.

Lemma save_conflict {R} `{Versioned R} (r : R) (w : World) (d : Doc) :
  unique_ids (docs (coll w)) ->
  d ∈ docs (coll w) -> has_id (rec_id r) d ->
  d !! "version" <> Some (VOid (rec_version r)) ->
  optimistic_save (r, w)
  = (Raise (RuntimeError out_of_sync),
     (r, after_save w (docs (coll w))
           [EvReplaceOne (new_doc r w) 0; EvFindOne (id_spec_of r)])).
Proof.
  intros Huniq Hd Hid Hver.
  apply list_elem_of_lookup_1 in Hd as [j Hj].
  assert (forall i old, docs (coll w) !! i = Some old ->
                        matches (test_doc_of r) old = true -> False) as Hnomatch.
  { intros i old Hi [Hid' Hv]%matches_id_version.
    assert (i = j) as -> by (by eapply Huniq).
    congruence. }
  pose proof (optimistic_save_outcome r w) as Ho.
  remember (optimistic_save (r, w)) as res eqn:Hres. clear Hres.
  destruct Ho as [i old Hi Hm _ _|Hno _|d' _ _ _|i old ix Hi Hm _|ix Hno _].
  - by destruct (Hnomatch i old).
  - rewrite Forall_forall in Hno.
    by destruct (Hno d); [eapply list_elem_of_lookup_2|].
  - done.
  - by destruct (Hnomatch i old).
  - rewrite Forall_forall in Hno.
    by destruct (Hno d); [eapply list_elem_of_lookup_2|].
Qed.

Lemma save_raises_conflict {R} `{Versioned R} (r r' : R) (w w' : World) (msg : string) :
  optimistic_save (r, w) = (Raise (RuntimeError msg), (r', w')) ->
  r' = r /\ coll w' = coll w /\ graphdb w' = graphdb w
  /\ exists d, d ∈ docs (coll w) /\ has_id (rec_id r) d.
Proof.
  intros Hrun.
  pose proof (optimistic_save_outcome r w) as Ho. rewrite Hrun in Ho.
  inversion Ho; subst.
  split_and!; [done|apply after_save_coll|done|eauto].
Qed.

Lemma save_commits {R} `{VersionedLaws R} (r r' : R) (w w' : World) (b : bool) :
  optimistic_save (r, w) = (Ok b, (r', w')) ->
  b = true /\ r' = stamped r w
  /\ to_dict r' ∈ docs (coll w')
  /\ (last (journal w') = Some (EvReplaceOne (to_dict r') 1)
      \/ last (journal w') = Some (EvInsertOne (to_dict r'))).
Proof.
  intros Hrun.
  pose proof (optimistic_save_outcome r w) as Ho. rewrite Hrun in Ho.
  inversion Ho as [i old Hi _ _ _| _ _ | | | ]; subst;
    rewrite new_doc_stamped; simpl.
  - split_and!; [done..| |].
    + apply list_elem_of_lookup_2 with i.
      apply list_lookup_insert_eq. by eapply lookup_lt_Some.
    + left. apply last_snoc.
  - split_and!; [done..| |].
    + apply elem_of_app. right. by apply list_elem_of_singleton.
    + right.
      change [EvReplaceOne (new_doc r w) 0; EvFindOne (id_spec_of r);
              EvInsertOne (new_doc r w)]
        with ([EvReplaceOne (new_doc r w) 0; EvFindOne (id_spec_of r)]
              ++ [EvInsertOne (new_doc r w)]).
      rewrite app_assoc. apply last_snoc.
Qed.

(** ** The adapter and the range query *)

Definition or_zero (skip : option Z) : Z :=
  match skip with
  | Some s => s
  | None => 0%Z
  end.

Lemma filter_matches_nil (spec : Spec) (l : list Doc) :
  Forall (fun d => matches spec d <> true) l -> List.filter (matches spec) l = [].
Proof.
  induction 1 as [|d l Hd _ IH]; simpl; [done|].
  by destruct (matches spec d).
Qed.

Lemma cond_holds_gt (v : datetime) (field : option value) :
  cond_holds (COp "$gt" (VTime v)) field = true
  <-> exists t, field = Some (VTime t) /\ (v < t)%Z.
Proof.
  unfold cond_holds. rewrite bool_decide_eq_true_2 by done.
  destruct field as [x|]; [|split; [done|by intros (? & ? & ?)]].
  destruct x; simpl; try (split; [done|by intros (? & ? & ?)]).
  rewrite bool_decide_eq_true. split; [by eauto|].
  by intros (t' & [= ->] & ?).
Qed.

Lemma cond_holds_gte (v : datetime) (field : option value) :
  cond_holds (COp "$gte" (VTime v)) field = true
  <-> exists t, field = Some (VTime t) /\ (v <= t)%Z.
Proof.
  unfold cond_holds. rewrite bool_decide_eq_false_2 by done.
  rewrite bool_decide_eq_true_2 by done.
  destruct field as [x|]; [|split; [done|by intros (? & ? & ?)]].
  destruct x; simpl; try (split; [done|by intros (? & ? & ?)]).
  rewrite orb_true_iff, !bool_decide_eq_true. split.
  - intros [Hlt|[= ->]]; eexists; (split; [done|lia]).
  - intros (t' & [= ->] & Hle).
    destruct (decide (v = t')) as [->|]; [by right|left; lia].
Qed.

(** ** The reconciler's loop *)

(** A desired entry that describes a stored member, in the loop's reading:
    its test on the reference ('Users' in ref, else 'Groups' in ref) picks
    the member's kind, and identifier and label are the member's. *)
Definition same_member (s : SubResource) (m : option Member) : Prop :=
  match m with
  | Some (inl u) =>
      contains "Users" (ref s) = true
      /\ value_ s = user_identifier u /\ display s = user_display_name u
  | Some (inr g) =>
      contains "Users" (ref s) = false /\ contains "Groups" (ref s) = true
      /\ value_ s = identifier g /\ display s = display_name g
  | None => False
  end.

(** Kind and identifier of a member: what the graph keeps unique. *)
Definition member_tag (m : option Member) : option (bool * string) :=
  match m with
  | Some (inl u) => Some (true, user_identifier u)
  | Some (inr g) => Some (false, identifier g)
  | None => None
  end.

(** The desired state is the stored one, in the loop's reading: same
    display name, same extension data, and the desired entries describe
    the stored members, one for one, in any order. *)
Definition same_state (scim_group : SCIMGroup) (db_group : ScimApiGroup)
    (graph : GraphGroup) : Prop :=
  group_graph db_group = Some graph
  /\ scim_display_name scim_group = display_name graph
  /\ scim_nutid_group_v1_data scim_group = data (group_extensions db_group)
  /\ NoDup (member_tag <$> members graph)
  /\ exists l, l ≡ₚ members graph /\ Forall2 same_member (scim_members scim_group) l.

Lemma lookup_member_found (p : option Member -> bool) (g : GraphGroup)
    (m : Member) :
  NoDup (member_tag <$> members g) ->
  Some m ∈ members g -> p (Some m) = true ->
  (forall x, p x = true -> member_tag x = member_tag (Some m)) ->
  exists i, lookup_member p g = Some (i, m) /\ members g !! i = Some (Some m).
Proof.
  intros Hnd Hin Hp Htag. unfold lookup_member.
  destruct (list_find_elem_of (fun x => p x = true) (members g) (Some m) Hin Hp)
    as [[j x] Hfind].
  rewrite Hfind. apply list_find_Some in Hfind as (Hj & Hx & _).
  apply list_elem_of_lookup_1 in Hin as [i Hi].
  assert (j = i) as ->.
  { apply (NoDup_lookup (member_tag <$> members g) j i (member_tag (Some m)));
      [exact Hnd| |].
    - rewrite list_lookup_fmap, Hj. simpl. f_equal. by apply Htag.
    - by rewrite list_lookup_fmap, Hi. }
  assert (x = Some m) as -> by congruence.
  by exists i.
Qed.

Lemma update_group_step_same (g : GraphGroup) (s : SubResource)
    (m : option Member) (member_changed : bool) (acc : list MemberRef) :
  NoDup (member_tag <$> members g) ->
  m ∈ members g -> same_member s m ->
  exists i, update_group_step (member_changed, acc, g) s
            = (member_changed, acc ++ [Stored i], g)
            /\ members g !! i = Some m.
Proof.
  intros Hnd Hin Hsame. unfold update_group_step.
  destruct m as [[u|gg]|]; simpl in Hsame; [| |done].
  - destruct Hsame as (Hu & Hv & Hd). rewrite Hu.
    assert (exists i, lookup_member (is_member_user (value_ s)) g = Some (i, inl u)
                      /\ members g !! i = Some (Some (inl u))) as (i & Hl & Hi).
    { apply lookup_member_found; try done.
      - simpl. by apply bool_decide_eq_true_2.
      - intros [[u'|?]|]; simpl; try done.
        rewrite bool_decide_eq_true. by intros ->; rewrite Hv. }
    unfold get_member_user. rewrite Hl; simpl.
    rewrite bool_decide_eq_false_2 by (intros Hne; by apply Hne).
    by exists i.
  - destruct Hsame as (Hu & Hg & Hv & Hd). rewrite Hu, Hg.
    assert (exists i, lookup_member (is_member_group (value_ s)) g = Some (i, inr gg)
                      /\ members g !! i = Some (Some (inr gg))) as (i & Hl & Hi).
    { apply lookup_member_found; try done.
      - simpl. by apply bool_decide_eq_true_2.
      - intros [[?|g']|]; simpl; try done.
        rewrite bool_decide_eq_true. by intros ->; rewrite Hv. }
    unfold get_member_group. rewrite Hl; simpl.
    rewrite bool_decide_eq_false_2 by (intros Hne; by apply Hne).
    by exists i.
Qed.

Lemma update_group_loop_same (g : GraphGroup) (ss : list SubResource)
    (l : list (option Member)) :
  NoDup (member_tag <$> members g) ->
  Forall (fun m => m ∈ members g) l ->
  Forall2 same_member ss l ->
  forall (member_changed : bool) (acc : list MemberRef),
  exists refs,
    foldl update_group_step (member_changed, acc, g) ss
    = (member_changed, acc ++ refs, g)
    /\ deref g <$> refs = l.
Proof.
  intros Hnd Hin Hsame. induction Hsame as [|s m ss l Hsm _ IH]; intros mc acc.
  - exists []. by rewrite app_nil_r.
  - inversion Hin as [|? ? Hm Hl]; subst.
    destruct (update_group_step_same g s m mc acc Hnd Hm Hsm) as (i & Hstep & Hi).
    destruct (IH Hl mc (acc ++ [Stored i])) as (refs & Hfold & Hderef).
    exists (Stored i :: refs). cbn [foldl]. rewrite Hstep, Hfold, <- app_assoc.
    split; [done|]. rewrite fmap_cons, Hderef. simpl. by rewrite Hi.
Qed.

Lemma member_sets_same (a b : list (option Member)) :
  a ≡ₚ b -> member_sets_differ b a = false.
Proof.
  intros Hp. unfold member_sets_differ. apply bool_decide_eq_false_2.
  intros Hne. apply Hne. apply list_to_set_perm_L. by rewrite Hp.
Qed.

Lemma group_set_same (db_group : ScimApiGroup) (graph : GraphGroup) :
  group_graph db_group = Some graph ->
  group_set_graph (Some graph)
    (group_set_extensions (group_extensions db_group) db_group) = db_group.
Proof. destruct db_group; simpl. by intros ->. Qed.

Lemma update_group_same (scim_group : SCIMGroup) (db_group : ScimApiGroup)
    (graph : GraphGroup) (w : World) :
  same_state scim_group db_group graph ->
  update_group scim_group (db_group, w) = (Ok db_group, (db_group, w)).
Proof.
  intros (Hgraph & Hname & Hdata & Hnd & l & Hperm & Hsame).
  assert (Forall (fun m => m ∈ members graph) l) as Hin.
  { apply Forall_forall. intros m Hm. by rewrite <- Hperm. }
  destruct (update_group_loop_same graph _ l Hnd Hin Hsame false [])
    as (refs & Hfold & Hderef).
  unfold update_group, bind, self, gets; simpl. rewrite Hgraph, Hfold.
  rewrite bool_decide_eq_false_2 by (intros Hne; by apply Hne).
  simpl. rewrite Hderef, (member_sets_same _ _ Hperm); simpl.
  rewrite bool_decide_eq_false_2.
  - unfold assign, modify, ret; simpl. by rewrite group_set_same.
  - intros Hne. apply Hne. destruct (group_extensions db_group); simpl in *.
    by rewrite Hdata.
Qed.

(** ** The order of the two commits *)

(** In the calls [evs] made for the group with key [i], a write to the
    graph store is the last call, and the call before it is a write of the
    group's document that went through. *)
Definition graph_after_commit (i : ObjectId) (evs : list Event) : Prop :=
  forall pre g post,
    evs = pre ++ EvGraphSave g :: post ->
    post = []
    /\ exists d, has_id i d
                 /\ (last pre = Some (EvReplaceOne d 1)
                     \/ last pre = Some (EvInsertOne d)).

Definition is_graph_save (e : Event) : bool :=
  match e with
  | EvGraphSave _ => true
  | _ => false
  end.

Lemma graph_after_commit_none (i : ObjectId) (evs : list Event) :
  forallb (fun e => negb (is_graph_save e)) evs = true ->
  graph_after_commit i evs.
Proof.
  intros Hall pre g post ->. rewrite forallb_app in Hall.
  apply andb_true_iff in Hall as [_ Hall]. done.
Qed.

Lemma graph_after_commit_last (i : ObjectId) (evs : list Event) (d : Doc)
    (g : GraphGroup) :
  forallb (fun e => negb (is_graph_save e)) evs = true ->
  has_id i d ->
  last evs = Some (EvReplaceOne d 1) \/ last evs = Some (EvInsertOne d) ->
  graph_after_commit i (evs ++ [EvGraphSave g]).
Proof.
  intros Hall Hid Hlast pre g' post Heq.
  destruct post as [|e post _] using rev_ind.
  - apply app_inj_tail in Heq as [-> _]. eauto.
  - rewrite app_comm_cons, app_assoc in Heq.
    apply app_inj_tail in Heq as [-> _].
    rewrite forallb_app in Hall. apply andb_true_iff in Hall as [_ Hall]. done.
Qed.

(** What [save] adds to the journal: calls on the document store only,
    and when it returns, the last of them is the write that went through. *)
Lemma save_journal {R} `{Versioned R} (r : R) (w : World) :
  exists evs,
    journal (optimistic_save (r, w)).2.2 = journal w ++ evs
    /\ evs <> []
    /\ forallb (fun e => negb (is_graph_save e)) evs = true
    /\ forall b, (optimistic_save (r, w)).1 = Ok b ->
         b = true
         /\ (last evs = Some (EvReplaceOne (new_doc r w) 1)
             \/ last evs = Some (EvInsertOne (new_doc r w))).
Proof.
  pose proof (optimistic_save_outcome r w) as Ho.
  remember (optimistic_save (r, w)) as res eqn:Hres. clear Hres.
  destruct Ho; cbn [fst snd journal after_save];
    (eexists; split; [reflexivity|split; [done|split; [reflexivity|]]]);
    intros b Hb; inversion Hb; subst; split; auto.
Qed.

(** [update_group] keeps the order: a write to the graph store, when there
    is one, is its last call, and the call before it is the replace or the
    insert of the group's document that went through. *)
Lemma update_group_journal (scim_group : SCIMGroup) (db_group : ScimApiGroup)
    (w : World) :
  exists evs,
    journal (update_group scim_group (db_group, w)).2.2 = journal w ++ evs
    /\ graph_after_commit (group_id db_group) evs.
Proof.
  unfold update_group, bind, self, gets; simpl.
  destruct (group_graph db_group) as [graph|]; simpl.
  2:{ exists []. split; [by rewrite app_nil_r|by apply graph_after_commit_none]. }
  destruct (foldl _ _ _) as [[member_changed members_] graph1].
  destruct (bool_decide (display_name graph1 <> _));
    destruct (member_changed || _);
    destruct (bool_decide (group_extensions db_group <> _)); simpl.
  8:{ exists []. split; [by rewrite app_nil_r|by apply graph_after_commit_none]. }
  all: match goal with
       | |- context [ScimApiGroupDB_save (?r, ?w0)] =>
           change (ScimApiGroupDB_save (r, w0)) with (optimistic_save (r, w0));
           destruct (save_journal r w0) as (evs & Hj & _ & Hdoc & Hok);
           pose proof (new_doc_id r w0) as Hid;
           destruct (optimistic_save (r, w0)) as [[b|e] [r' w']]
       end.
  all: cbn [fst snd] in Hj, Hok.
  all: try (exists evs; split; [exact Hj|by apply graph_after_commit_none]).
  all: destruct (Hok b eq_refl) as [-> Hlast].
  all: eexists (evs ++ [EvGraphSave _]); split;
       [ unfold assign, modify, ret; simpl; rewrite Hj; by rewrite app_assoc
       | eapply graph_after_commit_last; [exact Hdoc|exact Hid|exact Hlast] ].
Qed.

(** [create_group] starts with the write to the graph store; the calls on
    the document store follow it. *)
Lemma create_group_journal (scim_group : SCIMGroup) (w : World) :
  exists g evs,
    journal (create_group scim_group w).2 = journal w ++ EvGraphSave g :: evs
    /\ identifier g = pretty (next_uuid w)
    /\ evs <> []
    /\ forallb (fun e => negb (is_graph_save e)) evs = true.
Proof.
  unfold create_group, bind, ObjectId_new, uuid4, utcnow, gets, graphdb_save,
    with_object, ret; simpl.
  match goal with
  | |- context [ScimApiGroupDB_save (?r, ?w0)] =>
      change (ScimApiGroupDB_save (r, w0)) with (optimistic_save (r, w0));
      destruct (save_journal r w0) as (evs & Hj & Hne & Hdoc & _);
      destruct (optimistic_save (r, w0)) as [[b|e] [r' w']]
  end; cbn [fst snd] in Hj |- *; rewrite Hj; simpl; rewrite <- app_assoc;
    eexists _, evs; split_and!; done.
Qed.

(** ** New members *)

Lemma update_group_step_new_user (g : GraphGroup) (s : SubResource)
    (member_changed : bool) (acc : list MemberRef) :
  contains "Users" (ref s) = true ->
  get_member_user g (value_ s) = None ->
  update_group_step (member_changed, acc, g) s
  = (true,
     acc ++ [Fresh (inl {| user_identifier := value_ s;
                           user_display_name := display s |})],
     g).
Proof. intros Hu Hl. unfold update_group_step. by rewrite Hu, Hl. Qed.

Lemma update_group_step_new_group (g : GraphGroup) (s : SubResource)
    (member_changed : bool) (acc : list MemberRef) :
  contains "Users" (ref s) = false ->
  contains "Groups" (ref s) = true ->
  get_member_group g (value_ s) = None ->
  update_group_step (member_changed, acc, g) s = (true, acc ++ [NoMember], g).
Proof. intros Hu Hg Hl. unfold update_group_step. by rewrite Hu, Hg, Hl. Qed.

Lemma unique_ids_singleton (d : Doc) : unique_ids [d].
Proof.
  intros i j d1 d2 o Hi Hj _ _.
  apply lookup_lt_Some in Hi, Hj. simpl in Hi, Hj. lia.
Qed.

(** ** A refused insert, as the user resource reports it *)

Lemma duplicate_external_id_errmsg (c : Collection) (ix : Index) :
  ix_name ix = "unique-external-id" ->
  contains "external-id" (duplicate_key_errmsg c ix) = true.
Proof.
  intros Hname. unfold duplicate_key_errmsg. rewrite Hname.
  do 3 apply contains_app_l.
  change ("unique-external-id" +:+ " dup key: { " +:+ ix_key ix +:+ " }")
    with ("unique-" +:+ "external-id" +:+ " dup key: { " +:+ ix_key ix +:+ " }").
  apply contains_infix.
Qed.

Lemma _save_user_duplicate_external_id (user : ScimApiUser) (w : World) (ix : Index) :
  Forall (fun d => ~ has_id (user_id user) d) (docs (coll w)) ->
  violated_index (coll w) (docs (coll w)) (new_doc user w) = Some ix ->
  ix_name ix = "unique-external-id" ->
  _save_user (user, w)
  = (Raise (BadRequest "externalID must be unique"),
     (user, after_save w (docs (coll w))
              [EvReplaceOne (new_doc user w) 0; EvFindOne (id_spec_of user);
               EvRejected (new_doc user w) "unique-external-id"])).
Proof.
  intros Hno Hix Hname. pose proof (save_absent user w Hno) as Hrun.
  rewrite Hix in Hrun. unfold _save_user, try_except, bind.
  change ScimApiUserDB_save with (optimistic_save (R := ScimApiUser)).
  rewrite Hrun, duplicate_external_id_errmsg by done.
  unfold raise. by rewrite Hname.
Qed.

(** * The claims *)

(** C1, as amended.  [save] on a record whose [_id] no stored document has
    never reports the conflict: in the group collection, which has no index
    besides the one on [_id], it inserts the new document; in the invite
    collection it inserts the new document unless a unique index refuses
    it, and then it raises DuplicateKeyError and the documents are as
    before.  [save] on a record whose [_id] a stored document has under
    another version raises the out-of-sync RuntimeError, and the documents
    are as before: the replace changed none and no insert was made. *)
Theorem save_inserts_or_conflicts :
  (forall (group : ScimApiGroup) (w : World),
      indexes (coll w) = [] ->
      Forall (fun d => ~ has_id (group_id group) d) (docs (coll w)) ->
      ScimApiGroupDB_save (group, w)
      = (Ok true,
         (stamped group w,
          after_save w (docs (coll w) ++ [new_doc group w])
            [EvReplaceOne (new_doc group w) 0; EvFindOne (id_spec_of group);
             EvInsertOne (new_doc group w)])))
  /\ (forall (invite : ScimApiInvite) (w : World),
      Forall (fun d => ~ has_id (invite_id invite) d) (docs (coll w)) ->
      match violated_index (coll w) (docs (coll w)) (new_doc invite w) with
      | None =>
          ScimApiInviteDB_save (invite, w)
          = (Ok true,
             (stamped invite w,
              after_save w (docs (coll w) ++ [new_doc invite w])
                [EvReplaceOne (new_doc invite w) 0;
                 EvFindOne (id_spec_of invite);
                 EvInsertOne (new_doc invite w)]))
      | Some ix =>
          ScimApiInviteDB_save (invite, w)
          = (Raise (DuplicateKeyError (duplicate_key_errmsg (coll w) ix)),
             (invite,
              after_save w (docs (coll w))
                [EvReplaceOne (new_doc invite w) 0;
                 EvFindOne (id_spec_of invite);
                 EvRejected (new_doc invite w) (ix_name ix)]))
      end)
  /\ (forall (group : ScimApiGroup) (w : World) (d : Doc),
      unique_ids (docs (coll w)) ->
      d ∈ docs (coll w) -> has_id (group_id group) d ->
      d !! "version" <> Some (VOid (group_version group)) ->
      ScimApiGroupDB_save (group, w)
      = (Raise (RuntimeError "User out of sync, please retry"),
         (group,
          after_save w (docs (coll w))
            [EvReplaceOne (new_doc group w) 0; EvFindOne (id_spec_of group)])))
  /\ (forall (invite : ScimApiInvite) (w : World) (d : Doc),
      unique_ids (docs (coll w)) ->
      d ∈ docs (coll w) -> has_id (invite_id invite) d ->
      d !! "version" <> Some (VOid (invite_version invite)) ->
      ScimApiInviteDB_save (invite, w)
      = (Raise (RuntimeError "Invite out of sync, please retry"),
         (invite,
          after_save w (docs (coll w))
            [EvReplaceOne (new_doc invite w) 0; EvFindOne (id_spec_of invite)]))).
Proof.
  split_and!.
  - intros group w Hix Hno.
    pose proof (save_absent group w Hno) as Hrun.
    pose proof (new_doc_id group w) as Hid.
    by rewrite (violated_index_plain _ _ _ (group_id group) Hix Hid Hno) in Hrun.
  - intros invite w Hno. exact (save_absent invite w Hno).
  - intros group w d. exact (save_conflict group w d).
  - intros invite w d. exact (save_conflict invite w d).
Qed.

(** C10.  When [save] ends in the out-of-sync RuntimeError, the caller's
    record is the one it passed in, version and last_modified included,
    and the collection and the graph store are what they were; a stored
    document has the record's [_id]. *)
Theorem conflict_changes_nothing :
  (forall (group group' : ScimApiGroup) (w w' : World) (msg : string),
      ScimApiGroupDB_save (group, w) = (Raise (RuntimeError msg), (group', w')) ->
      group' = group
      /\ group_version group' = group_version group
      /\ group_last_modified group' = group_last_modified group
      /\ coll w' = coll w /\ graphdb w' = graphdb w
      /\ exists d, d ∈ docs (coll w) /\ has_id (group_id group) d)
  /\ (forall (invite invite' : ScimApiInvite) (w w' : World) (msg : string),
      ScimApiInviteDB_save (invite, w) = (Raise (RuntimeError msg), (invite', w')) ->
      invite' = invite
      /\ invite_version invite' = invite_version invite
      /\ invite_last_modified invite' = invite_last_modified invite
      /\ coll w' = coll w /\ graphdb w' = graphdb w
      /\ exists d, d ∈ docs (coll w) /\ has_id (invite_id invite) d).
Proof.
  split.
  - intros group group' w w' msg Hrun.
    rewrite ScimApiGroupDB_save_protocol in Hrun.
    destruct (save_raises_conflict _ _ _ _ _ Hrun)
      as (-> & Hc & Hg & Hd).
    by split_and!.
  - intros invite invite' w w' msg Hrun.
    rewrite ScimApiInviteDB_save_protocol in Hrun.
    destruct (save_raises_conflict _ _ _ _ _ Hrun)
      as (-> & Hc & Hg & Hd).
    by split_and!.
Qed.

(** C6.  A [save] that returns reports the write as acknowledged; the
    caller's record then carries the ObjectId minted by this call as its
    version, which differs from the version it had (one minted earlier),
    and the time read by this call as last_modified, and is otherwise as
    before; the document of that record is in the collection, and the last
    call on the store was the replace or the insert that wrote it. *)
Theorem save_commit_stamps :
  (forall (group group' : ScimApiGroup) (w w' : World) (committed : bool),
      (group_version group < next_oid w)%N ->
      ScimApiGroupDB_save (group, w) = (Ok committed, (group', w')) ->
      committed = true
      /\ group' = group_set_last_modified (clock w)
                    (group_set_version (next_oid w) group)
      /\ group_version group' = next_oid w
      /\ group_version group' <> group_version group
      /\ group_last_modified group' = clock w
      /\ ScimApiGroup_to_dict group' !! "version" = Some (VOid (next_oid w))
      /\ ScimApiGroup_to_dict group' !! "last_modified" = Some (VTime (clock w))
      /\ ScimApiGroup_to_dict group' ∈ docs (coll w')
      /\ (last (journal w') = Some (EvReplaceOne (ScimApiGroup_to_dict group') 1)
          \/ last (journal w') = Some (EvInsertOne (ScimApiGroup_to_dict group'))))
  /\ (forall (invite invite' : ScimApiInvite) (w w' : World) (committed : bool),
      (invite_version invite < next_oid w)%N ->
      ScimApiInviteDB_save (invite, w) = (Ok committed, (invite', w')) ->
      committed = true
      /\ invite' = invite_set_last_modified (clock w)
                     (invite_set_version (next_oid w) invite)
      /\ invite_version invite' = next_oid w
      /\ invite_version invite' <> invite_version invite
      /\ invite_last_modified invite' = clock w
      /\ ScimApiInvite_to_dict invite' !! "version" = Some (VOid (next_oid w))
      /\ ScimApiInvite_to_dict invite' !! "last_modified" = Some (VTime (clock w))
      /\ ScimApiInvite_to_dict invite' ∈ docs (coll w')
      /\ (last (journal w') = Some (EvReplaceOne (ScimApiInvite_to_dict invite') 1)
          \/ last (journal w') = Some (EvInsertOne (ScimApiInvite_to_dict invite')))).
Proof.
  split.
  - intros group group' w w' committed Hfresh Hrun.
    rewrite ScimApiGroupDB_save_protocol in Hrun.
    destruct (save_commits _ _ _ _ _ Hrun)
      as (-> & -> & Hin & Hlast).
    refine (conj eq_refl (conj eq_refl (conj eq_refl (conj _ (conj eq_refl
             (conj _ (conj _ (conj Hin Hlast)))))))).
    + cbn. lia.
    + unfold ScimApiGroup_to_dict. lookup_chain.
    + unfold ScimApiGroup_to_dict. lookup_chain.
  - intros invite invite' w w' committed Hfresh Hrun.
    rewrite ScimApiInviteDB_save_protocol in Hrun.
    destruct (save_commits _ _ _ _ _ Hrun)
      as (-> & -> & Hin & Hlast).
    refine (conj eq_refl (conj eq_refl (conj eq_refl (conj _ (conj eq_refl
             (conj _ (conj _ (conj Hin Hlast)))))))).
    + cbn. lia.
    + unfold ScimApiInvite_to_dict. lookup_chain.
    + unfold ScimApiInvite_to_dict. lookup_chain.
Qed.

(** C3.  When the find-and-count returns a page and a total: if no limit
    was given, or the page holds fewer documents than the limit, the total
    is skip (0 when no skip was given) plus the number of documents in the
    page; if the page holds exactly limit documents, the total is the count
    taken first. *)
Theorem total_count_correction (spec : Spec) (fields : option (list string))
    (limit skip : option Z) (raise_on_missing : bool) (w w' : World)
    (page_ : list Doc) (total : Z) :
  _get_documents_and_count_by_filter spec fields limit skip raise_on_missing w
  = (Ok (page_, total), w') ->
  (limit = None \/ (exists l, limit = Some l /\ (Z.of_nat (length page_) < l)%Z) ->
   total = (or_zero skip + Z.of_nat (length page_))%Z)
  /\ (limit = Some (Z.of_nat (length page_)) ->
      exists w1, db_count spec w = (Ok total, w1)).
Proof.
  unfold _get_documents_and_count_by_filter, bind, ret, db_count.
  destruct (_get_documents_by_filter spec fields limit skip raise_on_missing _)
    as [[found|e] w2]; [|discriminate].
  intros [= <- <- <-]. split.
  - intros [->|(l & -> & Hl)].
    + destruct skip; simpl; lia.
    + apply Z.ltb_lt in Hl. rewrite Hl. destruct skip; simpl; lia.
  - intros ->. rewrite Z.ltb_irrefl. eauto.
Qed.

(** C7.  Any operator other than gt and ge makes the last-modified query
    raise ValueError('Invalid filter operator') with the world as it was:
    no call reached the store.  For gt the query is the find-and-count with
    the filter last_modified $gt value, which a document matches exactly
    when its last_modified is a later time; for ge it is the filter
    last_modified $gte value, matched exactly by the same or a later
    time. *)
Theorem last_modified_operators :
  (forall (operator : string) (value : datetime) (limit skip : option Z) (w : World),
      operator <> "gt" -> operator <> "ge" ->
      get_invites_by_last_modified operator value limit skip w
      = (Raise (ValueError "Invalid filter operator"), w))
  /\ (forall (value : datetime) (limit skip : option Z),
      get_invites_by_last_modified "gt" value limit skip
      = (let! (docs, total_count) :=
           _get_documents_and_count_by_filter
             (<["last_modified" := COp "$gt" (VTime value)]> ∅) None limit skip true in
         let! invites := mapM ScimApiInvite_from_dict docs in
         ret (invites, total_count)))
  /\ (forall (value : datetime) (d : Doc),
      matches (<["last_modified" := COp "$gt" (VTime value)]> ∅) d = true
      <-> exists t, d !! "last_modified" = Some (VTime t) /\ (value < t)%Z)
  /\ (forall (value : datetime) (limit skip : option Z),
      get_invites_by_last_modified "ge" value limit skip
      = (let! (docs, total_count) :=
           _get_documents_and_count_by_filter
             (<["last_modified" := COp "$gte" (VTime value)]> ∅) None limit skip true in
         let! invites := mapM ScimApiInvite_from_dict docs in
         ret (invites, total_count)))
  /\ (forall (value : datetime) (d : Doc),
      matches (<["last_modified" := COp "$gte" (VTime value)]> ∅) d = true
      <-> exists t, d !! "last_modified" = Some (VTime t) /\ (value <= t)%Z).
Proof.
  split_and!.
  - intros operator value limit skip w Hgt Hge.
    unfold get_invites_by_last_modified.
    rewrite lookup_insert_ne by done. rewrite lookup_insert_ne by done.
    by rewrite lookup_empty.
  - intros value limit skip. unfold get_invites_by_last_modified.
    by rewrite lookup_insert_eq.
  - intros value d. rewrite matches_op. apply cond_holds_gt.
  - intros value limit skip. unfold get_invites_by_last_modified.
    rewrite lookup_insert_ne by done. by rewrite lookup_insert_eq.
  - intros value d. rewrite matches_op. apply cond_holds_gte.
Qed.

(** C8, as amended.  When no stored document matches the filter: with the
    raise-on-missing flag false, the find-and-count returns the empty page,
    and its total is skip when a skip was given and the limit is absent or
    positive, and 0 otherwise; with the flag true, which is its default, it
    raises DocumentDoesNotExist.  Neither changes the collection. *)
Theorem no_match_page (spec : Spec) (fields : option (list string))
    (limit skip : option Z) (w : World) :
  Forall (fun d => matches spec d <> true) (docs (coll w)) ->
  (_get_documents_and_count_by_filter spec fields limit skip false w).1
  = Ok ([],
        if match limit with None => true | Some l => (0 <? l)%Z end
        then or_zero skip else 0%Z)
  /\ (_get_documents_and_count_by_filter spec fields limit skip true w).1
     = Raise DocumentDoesNotExist
  /\ (forall raise_on_missing,
        coll (_get_documents_and_count_by_filter
                spec fields limit skip raise_on_missing w).2 = coll w).
Proof.
  intros Hno. apply filter_matches_nil in Hno.
  unfold _get_documents_and_count_by_filter, bind, ret, db_count,
    _get_documents_by_filter.
  cbn [coll record_call]. rewrite Hno. split_and!.
  - cbn [fst length]. change (Z.of_nat 0) with 0%Z.
    destruct limit as [l|], skip as [s|]; try destruct (0 <? l)%Z; done.
  - done.
  - by intros [].
Qed.

(** C2.  [create_group] does not keep the order of the two commits.
    Whatever the request and the store, the first call it makes is the
    write of the new group's graph; the calls on the document store (the
    replace that matches nothing, the lookup, the insert) come after it.
    No write of the group's document precedes the graph write, so the
    calls of [create_group] never satisfy [graph_after_commit], which
    those of [update_group] always do ([update_group_journal]). *)
Theorem create_group_graph_precedes_document :
  forall (scim_group : SCIMGroup) (w : World),
    exists g evs,
      journal (create_group scim_group w).2 = journal w ++ EvGraphSave g :: evs
      /\ identifier g = pretty (next_uuid w)
      /\ evs <> []
      /\ forallb (fun e => negb (is_graph_save e)) evs = true
      /\ forall i : ObjectId, ~ graph_after_commit i (EvGraphSave g :: evs).
Proof.
  intros scim_group w.
  destruct (create_group_journal scim_group w) as (g & evs & Hj & Hid & Hne & Hall).
  exists g, evs. split_and!; try done.
  intros i Horder. destruct (Horder [] g evs eq_refl) as [Hpost _]. done.
Qed.

End Model.

(** * The claims on concrete stores

    Payload is text here.  The group collection of a data owner, empty and
    without secondary indexes; the invite collection as
    [ScimApiInviteDB.__init__] leaves it. *)

Definition group_store : @World string :=
  {| coll := {| coll_name := "eduid_scimapi.eduid_se__groups";
                indexes := []; docs := [] |};
     graphdb := ∅; next_oid := 100%N; next_uuid := 7%N; clock := 5000%Z;
     journal := [] |}.

Definition invite_store : @World string :=
  (ScimApiInviteDB_init
     (set_coll {| coll_name := "eduid_scimapi.eduid_se__invites";
                  indexes := []; docs := [] |} group_store)).2.

Definition with_docs (ds : list (gmap string (@value string)))
    (w : @World string) : @World string :=
  set_coll (set_docs ds (coll w)) w.

Definition sample_group (version : ObjectId) : @ScimApiGroup string :=
  {| group_display_name := "Staff"; group_id := 1%N; group_scim_id := "3";
     group_version := version; group_created := 4000%Z;
     group_last_modified := 4000%Z; group_extensions := {| data := "{}" |};
     group_graph := Some (MkGraphGroup "3" "Staff" []) |}.

Definition sample_invite (id : ObjectId) (scim_id : UUID)
    (external_id : option string) (version : ObjectId) : @ScimApiInvite string :=
  {| invite_id := id; invite_scim_id := scim_id;
     invite_external_id := external_id; invite_name := None;
     invite_emails := []; invite_phone_numbers := []; invite_nin := None;
     invite_preferred_language := None; invite_completed := None;
     invite_profiles := "{}"; invite_version := version;
     invite_created := 4000%Z; invite_last_modified := 4000%Z |}.

(** A group request: one member, whose reference is that of a group. *)
Definition group_request (ms : list SubResource) : @SCIMGroup string :=
  {| scim_display_name := "Staff"; scim_members := ms;
     scim_nutid_group_v1_data := "{}" |}.

(** C1 on stores with one document or none: an insert into each collection,
    and a conflict in each. *)
Lemma save_inserts_or_conflicts_witness :
  (ScimApiGroupDB_save (sample_group 9%N, group_store)).1 = Ok true
  /\ (ScimApiInviteDB_save (sample_invite 1%N "a" (Some "x") 9%N, invite_store)).1
     = Ok true
  /\ (ScimApiGroupDB_save
        (sample_group 9%N,
         with_docs [ScimApiGroup_to_dict (sample_group 8%N)] group_store)).1
     = Raise (RuntimeError "User out of sync, please retry")
  /\ (ScimApiInviteDB_save
        (sample_invite 1%N "a" None 9%N,
         with_docs [ScimApiInvite_to_dict (sample_invite 1%N "a" None 8%N)]
           invite_store)).1
     = Raise (RuntimeError "Invite out of sync, please retry").
Proof.
  destruct (@save_inserts_or_conflicts string _) as (Hg & Hi & Hcg & Hci).
  split_and!.
  - rewrite Hg; [reflexivity|reflexivity|constructor].
  - specialize (Hi (sample_invite 1%N "a" (Some "x") 9%N) invite_store ltac:(constructor)).
    assert (violated_index (coll invite_store) (docs (coll invite_store))
              (new_doc (sample_invite 1%N "a" (Some "x") 9%N) invite_store) = None)
      as E by reflexivity.
    rewrite E in Hi. by rewrite Hi.
  - rewrite (Hcg _ _ (ScimApiGroup_to_dict (sample_group 8%N))); [reflexivity| | | |].
    + apply unique_ids_singleton.
    + apply list_elem_of_here.
    + reflexivity.
    + intros Hv. vm_compute in Hv. discriminate.
  - rewrite (Hci _ _ (ScimApiInvite_to_dict (sample_invite 1%N "a" None 8%N)));
      [reflexivity| | | |].
    + apply unique_ids_singleton.
    + apply list_elem_of_here.
    + reflexivity.
    + intros Hv. vm_compute in Hv. discriminate.
Defined.

(** C1, as stated, fails: no stored invite has the key 2, and the insert
    of the invite with that key is refused, because its external_id is
    taken.  [save] raises DuplicateKeyError and nothing is inserted. *)
Lemma save_insert_refused :
  let stored := sample_invite 1%N "a" (Some "x") 8%N in
  let invite := sample_invite 2%N "b" (Some "x") 9%N in
  let w := with_docs [ScimApiInvite_to_dict stored] invite_store in
  Forall (fun d => d !! "_id" = Some (VOid 1%N)) (docs (coll w))
  /\ (ScimApiInviteDB_save (invite, w)).1
     = Raise (DuplicateKeyError
                "E11000 duplicate key error collection: eduid_scimapi.eduid_se__invites index: unique-external-id dup key: { external_id }")
  /\ docs (coll (ScimApiInviteDB_save (invite, w)).2.2) = docs (coll w).
Proof.
  split_and!.
  - constructor; [reflexivity|constructor].
  - reflexivity.
  - reflexivity.
Qed.

(** C10 on a group stored under version 8 and saved from version 9. *)
Lemma conflict_changes_nothing_witness :
  let w := with_docs [ScimApiGroup_to_dict (sample_group 8%N)] group_store in
  let run := ScimApiGroupDB_save (sample_group 9%N, w) in
  run.1 = Raise (RuntimeError "User out of sync, please retry")
  /\ run.2.1 = sample_group 9%N
  /\ coll run.2.2 = coll w.
Proof.
  intros w run.
  assert (ScimApiGroup_to_dict (sample_group 8%N) !! "version"
          <> Some (VOid (group_version (sample_group 9%N)))) as Hne.
  { intros Hv. vm_compute in Hv. discriminate. }
  pose proof (save_conflict (H := group_versioned) (sample_group 9%N) w
                (ScimApiGroup_to_dict (sample_group 8%N))
                (unique_ids_singleton _) (list_elem_of_here _ _)
                eq_refl Hne) as Hrun.
  rewrite <- ScimApiGroupDB_save_protocol in Hrun.
  destruct (proj1 (@conflict_changes_nothing string _) _ _ _ _ _ Hrun)
    as (Hr & _ & _ & Hc & _).
  subst run. rewrite Hrun. cbn [fst snd].
  split_and!; [reflexivity|reflexivity|exact Hc].
Defined.

(** C6 on the first save of a group. *)
Lemma save_commit_stamps_witness :
  let run := ScimApiGroupDB_save (sample_group 9%N, group_store) in
  (group_version (sample_group 9%N) < next_oid group_store)%N
  /\ run.1 = Ok true
  /\ group_version run.2.1 = 100%N
  /\ group_last_modified run.2.1 = 5000%Z
  /\ ScimApiGroup_to_dict run.2.1 ∈ docs (coll run.2.2).
Proof.
  intros run.
  assert ((group_version (sample_group 9%N) < next_oid group_store)%N) as Hfresh
    by reflexivity.
  pose proof (save_absent (sample_group 9%N) group_store ltac:(constructor)) as Hrun.
  assert (violated_index (coll group_store) (docs (coll group_store))
            (new_doc (sample_group 9%N) group_store) = None) as E
    by reflexivity.
  rewrite E in Hrun. rewrite <- ScimApiGroupDB_save_protocol in Hrun.
  destruct (proj1 (@save_commit_stamps string _) _ _ _ _ _ Hfresh Hrun)
    as (_ & _ & Hv & _ & Hl & _ & _ & Hin & _).
  subst run. rewrite Hrun. cbn [fst snd].
  split_and!; [exact Hfresh|reflexivity|exact Hv|exact Hl|exact Hin].
Defined.

(** Three invites, all last modified at 4000. *)
Definition three_invites : @World string :=
  with_docs [ScimApiInvite_to_dict (sample_invite 1%N "a" None 8%N);
             ScimApiInvite_to_dict (sample_invite 2%N "b" (Some "x") 8%N);
             ScimApiInvite_to_dict (sample_invite 3%N "c" (Some "y") 8%N)]
    invite_store.

Definition modified_after (t : datetime) : gmap string (@cond string) :=
  <["last_modified" := COp "$gt" (VTime t)]> ∅.

(** C3 on the second page of three invites: two documents after a skip of
    one, fewer than the limit. *)
Lemma total_count_correction_witness :
  let run :=
    _get_documents_and_count_by_filter (modified_after 10%Z) None
      (Some 10%Z) (Some 1%Z) false three_invites in
  run.1 = Ok ([ScimApiInvite_to_dict (sample_invite 2%N "b" (Some "x") 8%N);
               ScimApiInvite_to_dict (sample_invite 3%N "c" (Some "y") 8%N)],
              3%Z)
  /\ 3%Z = (or_zero (Some 1%Z) + 2)%Z.
Proof.
  intros run.
  assert (run = (Ok ([ScimApiInvite_to_dict (sample_invite 2%N "b" (Some "x") 8%N);
                      ScimApiInvite_to_dict (sample_invite 3%N "c" (Some "y") 8%N)],
                     3%Z),
                 record_call (EvFind (modified_after 10%Z))
                   (record_call (EvCount (modified_after 10%Z)) three_invites)))
    as Hrun by reflexivity.
  split; [by rewrite Hrun|].
  apply (proj1 (total_count_correction _ _ _ _ _ _ _ _ _ Hrun)).
  right. exists 10%Z. split; [reflexivity|reflexivity].
Defined.

(** C7 on the operator lt. *)
Lemma last_modified_operators_witness :
  get_invites_by_last_modified "" "lt" 10%Z (Some 10%Z) None three_invites
  = (Raise (ValueError "Invalid filter operator"), three_invites).
Proof.
  apply (proj1 (@last_modified_operators string _ "")); discriminate.
Defined.

(** C8, as stated, fails: no invite was modified after 9000; with a skip of
    5 the find-and-count reports a total of 5, not 0, for the empty page,
    and the last-modified query, which leaves the flag at its default,
    raises DocumentDoesNotExist. *)
Lemma no_match_total_is_skip :
  List.filter (matches (modified_after 9000%Z)) (docs (coll three_invites)) = []
  /\ (_get_documents_and_count_by_filter (modified_after 9000%Z) None
        (Some 10%Z) (Some 5%Z) false three_invites).1
     = Ok ([], 5%Z)
  /\ (get_invites_by_last_modified "" "gt" 9000%Z (Some 10%Z) (Some 5%Z)
        three_invites).1
     = Raise DocumentDoesNotExist.
Proof. split_and!; reflexivity. Qed.

(** C8, as amended, on a threshold later than every invite. *)
Lemma no_match_page_witness :
  (_get_documents_and_count_by_filter (modified_after 9000%Z) None
     (Some 10%Z) (Some 5%Z) false three_invites).1
  = Ok ([], 5%Z)
  /\ (_get_documents_and_count_by_filter (modified_after 9000%Z) None
        (Some 10%Z) (Some 5%Z) true three_invites).1
     = Raise DocumentDoesNotExist.
Proof.
  assert (Forall (fun d => matches (modified_after 9000%Z) d <> true)
            (docs (coll three_invites))) as Hno.
  { repeat constructor; intros Hm; vm_compute in Hm; discriminate. }
  destruct (no_match_page (modified_after 9000%Z) None (Some 10%Z) (Some 5%Z)
              three_invites Hno) as (Hpage & Hraise & _).
  split; [exact Hpage|exact Hraise].
Defined.

(** [create_group] on the empty group collection: the graph store is
    written first; the replace, the lookup and the insert of the document
    follow. *)
Lemma create_group_writes_graph_first :
  let created :=
    {| group_display_name := "Staff"; group_id := 100%N; group_scim_id := "7";
       group_version := 102%N; group_created := 5000%Z;
       group_last_modified := 5000%Z; group_extensions := {| data := "{}" |};
       group_graph := Some (MkGraphGroup "7" "Staff" []) |} in
  create_group (group_request []) group_store
  = (Ok created,
     {| coll := set_docs [ScimApiGroup_to_dict created] (coll group_store);
        graphdb := <["7" := MkGraphGroup "7" "Staff" []]> ∅;
        next_oid := 103%N; next_uuid := 8%N; clock := 5000%Z;
        journal := [EvGraphSave (MkGraphGroup "7" "Staff" []);
                    EvReplaceOne (ScimApiGroup_to_dict created) 0;
                    EvFindOne (<["_id" := CEq (VOid 100%N)]> ∅);
                    EvInsertOne (ScimApiGroup_to_dict created)] |}).
Proof. reflexivity. Qed.

(** A stored group with a user and a group as members, and the request
    that describes it, members in another order. *)
Definition alice : GraphUser :=
  {| user_identifier := "11"; user_display_name := "Alice" |}.
Definition admins : GraphGroup := MkGraphGroup "12" "Admins" [].
Definition staff_graph : GraphGroup :=
  MkGraphGroup "3" "Staff" [Some (inl alice); Some (inr admins)].
Definition staff_group : @ScimApiGroup string :=
  group_set_graph (Some staff_graph) (sample_group 9%N).
Definition admins_entry : SubResource :=
  {| value_ := "12"; ref := "http://localhost:8000/Groups/12";
     display := "Admins" |}.
Definition alice_entry : SubResource :=
  {| value_ := "11"; ref := "http://localhost:8000/Users/11";
     display := "Alice" |}.

(** C5.  A desired member whose reference is that of a group and whose
    identifier no stored member has: the loop marks the membership as
    changed, and what it puts into the new member list is None, not a
    member with the desired identifier and label.  The list is assigned to
    the graph, the document is saved, and the graph store is handed the
    group with None as its member. *)
Theorem new_group_member_is_none :
  let db_group := sample_group 9%N in
  let w := with_docs [ScimApiGroup_to_dict db_group] group_store in
  let run := update_group (group_request [admins_entry]) (db_group, w) in
  get_member_group (MkGraphGroup "3" "Staff" []) (value_ admins_entry) = None
  /\ update_group_step (false, [], MkGraphGroup "3" "Staff" []) admins_entry
     = (true, [NoMember], MkGraphGroup "3" "Staff" [])
  /\ run.1
     = Ok (group_set_graph (Some (MkGraphGroup "3" "Staff" [None]))
             (group_set_last_modified 5000%Z (group_set_version 100%N db_group)))
  /\ graphdb run.2.2 !! "3" = Some (MkGraphGroup "3" "Staff" [None]).
Proof. split_and!; reflexivity. Qed.

(** C9.  Two invites without an external_id.  [to_dict] stores the absent
    external_id as an explicit null, and the sparse unique index holds an
    entry for a field that is present and null: the first invite is
    inserted, the insert of the second is refused by unique-external-id,
    and the collection is left with one document. *)
Theorem invites_without_external_id_collide :
  let run1 := ScimApiInviteDB_save (sample_invite 1%N "a" None 8%N, invite_store) in
  let run2 := ScimApiInviteDB_save (sample_invite 2%N "b" None 9%N, run1.2.2) in
  ScimApiInvite_to_dict (sample_invite 2%N "b" None 9%N) !! "external_id"
  = Some VNone
  /\ run1.1 = Ok true
  /\ run2.1
     = Raise (DuplicateKeyError
                "E11000 duplicate key error collection: eduid_scimapi.eduid_se__invites index: unique-external-id dup key: { external_id }")
  /\ length (docs (coll run2.2.2)) = 1.
Proof. split_and!; reflexivity. Qed.

From Stdlib Require Import Ascii.

(** * The read path, and more of the write path

    The functions of groupdb.py and db/invitedb.py that read (documents
    turned back into records, the lookups by [scim_id], the listings),
    the version field of schemas/scimbase.py, and further properties of
    [save], [create_group], [update_group] and [_save_user]. *)

(** ** Exceptions of the read path *)

(** The lookups can end in two exceptions that [save] and its callers never
    see; [Raised] carries the ones they share. *)
Inductive Failure :=
| Raised (e : Exn)
| MultipleDocumentsReturned
| AssertionError.

(** A computation of the read path: it returns or fails, and the state it
    leaves behind is there in both cases. *)
Definition Q (S A : Type) : Type := S -> (Failure + A) * S.

Definition returns {S A} (a : A) : Q S A := fun s => (inr a, s).
Definition fails {S A} (f : Failure) : Q S A := fun s => (inl f, s).
Definition and_then {S A B} (q : Q S A) (k : A -> Q S B) : Q S B :=
  fun s => match q s with
           | (inr a, s') => k a s'
           | (inl f, s') => (inl f, s')
           end.
(** A computation of the write path, run from the read path. *)
Definition run {S A} (m : M S A) : Q S A :=
  fun s => match m s with
           | (Ok a, s') => (inr a, s')
           | (Raise e, s') => (inl (Raised e), s')
           end.

Notation "'let?' x ':=' c 'in' k" := (and_then c (fun x => k))
  (at level 10, x pattern, c at level 100, k at level 200,
   format "'[v' 'let?'  x  ':='  c  'in' '/' k ']'").

(** A [for] loop that appends one result per element to a list. *)
Fixpoint for_each {S A B} (f : A -> Q S B) (l : list A) : Q S (list B) :=
  match l with
  | [] => returns []
  | x :: l' => let? y := f x in let? ys := for_each f l' in returns (y :: ys)
  end.

Section Reading.

Context {Data : Type} `{!EqDecision Data}.

Abbreviation Doc := (gmap string (@value Data)).
Abbreviation Spec := (gmap string (@cond Data)).

(** ** groupdb.py: documents back into groups *)

(** The value of [{}], the default of [GroupExtensions.data]. *)
Context (empty_dict : Data).

(** [GroupExtensions.from_mapping(data)]: [cls(data=data.get('data', {}))].
    The stored extensions are the one-key sub-document [to_dict] wrote.  A
    value that is no mapping (null, an ObjectId, a time, a string, a list)
    has no [get]; an opaque payload in the place of the mapping has no
    counterpart in [GroupExtensions] and is refused with [TypeError], as
    in [ScimApiInvite_from_dict]. *)
Definition GroupExtensions_from_mapping {S} (v : @value Data)
  : M S (@GroupExtensions Data) :=
  match v with
  | VSub k d =>
      (* data.get('data', {}) *)
      ret {| data := if bool_decide (k = "data") then d else empty_dict |}
  | VData _ => raise TypeError
  | _ => raise AttributeError
  end.

(** The keyword arguments [ScimApiGroup.from_dict] can end up passing:
    the fields of the dataclass, [_id] standing for [group_id]. *)
Definition group_fields : gset string :=
  list_to_set ["display_name"; "_id"; "group_id"; "scim_id"; "version";
               "created"; "last_modified"; "extensions"; "graph"].

(** [ScimApiGroup.from_dict(data)].  [display_name] is the one field
    without a default; the documents [to_dict] writes have no [graph], and
    the field is left at its default, [None]. *)
Definition ScimApiGroup_from_dict (d : Doc)
  : M (@World Data) (@ScimApiGroup Data) :=
  let! the_scim_id := required "scim_id" as_str d in
  let! the_id := required "_id" as_oid d in
  let! the_extensions :=
    match d !! "extensions" with
    | None => raise (KeyError "extensions")
    | Some v => GroupExtensions_from_mapping v
    end in
  (* the constructor call, with the fields as keyword arguments *)
  if bool_decide (dom d ⊆ group_fields) then
    match d !! "display_name" with
    | None => raise TypeError
    | Some v =>
        match as_str v with
        | None => raise TypeError
        | Some the_name =>
            let! the_version := with_default "version" as_oid ObjectId_new d in
            let! the_created := with_default "created" as_time utcnow d in
            let! the_last_modified :=
              with_default "last_modified" as_time utcnow d in
            let! the_graph :=
              with_default "graph"
                (fun v => match v with VNone => Some None | _ => None end)
                (ret None) d in
            ret {| group_display_name := the_name; group_id := the_id;
                   group_scim_id := the_scim_id; group_version := the_version;
                   group_created := the_created;
                   group_last_modified := the_last_modified;
                   group_extensions := the_extensions;
                   group_graph := the_graph |}
        end
    end
  else raise TypeError.

(** ** The stores, read *)

(** Modelled from the spec: the graph store client's [get_group(identifier)],
    "individually atomic": the group stored under the identifier, or
    [None].  The journal keeps the writes to the graph store; a read
    leaves the world as it is. *)
Definition graphdb_get_group (ident : string)
  : M (@World Data) (option GraphGroup) :=
  gets (fun w => graphdb w !! ident).

(** What the server keeps of a datetime.  BSON holds a datetime as whole
    milliseconds since the epoch, and the encoder drops the microseconds
    below the millisecond; [datetime] counts microseconds. *)
Definition bson_datetime (t : datetime) : datetime := (t - t mod 1000)%Z.

Definition bson_value (v : @value Data) : @value Data :=
  match v with
  | VTime t => VTime (bson_datetime t)
  | _ => v
  end.

(** A document as the server hands it back to a lookup.  The collection
    of this model holds a document as it was handed to the driver; the
    listings further down are stated of collections whose documents are
    given. *)
Definition bson (d : Doc) : Doc := bson_value <$> d.

(** Modelled from the spec: [BaseDB._get_document_by_attr(attr, value,
    raise_on_missing)] lives in eduid_userdb.  Its contract: the one
    document whose field [attr] is [value]; when there is none, [None] or,
    if the flag asks for it, DocumentDoesNotExist; when there are several,
    MultipleDocumentsReturned.  The callers here pass a [scim_id], a
    string.  The document it returns is the server's: its datetimes are
    cut to the millisecond, whatever precision they were written with. *)
Definition _get_document_by_attr (attr : string) (value : string)
    (raise_on_missing : bool) : Q (@World Data) (option Doc) :=
  fun w =>
    let spec : Spec := <[attr := CEq (VStr value)]> ∅ in
    let w' := record_call (EvFind spec) w in
    match List.filter (matches spec) (docs (coll w)) with
    | [] =>
        if raise_on_missing then (inl (Raised DocumentDoesNotExist), w')
        else (inr None, w')
    | [doc] => (inr (Some (bson doc)), w')
    | _ :: _ :: _ => (inl MultipleDocumentsReturned, w')
    end.

(** Modelled from the spec: [BaseDB.db_count(spec, limit)] of eduid_userdb
    with a limit: the server stops counting at [limit] documents. *)
Definition db_count_limit (spec : Spec) (limit : Z) : M (@World Data) Z :=
  let! n := db_count spec in
  ret (Z.min n limit).

(** ** groupdb.py: lookups and listings *)

(** [ScimApiGroupDB.get_groups()] *)
Definition get_groups : Q (@World Data) (list (@ScimApiGroup Data)) :=
  let? docs := run (_get_documents_by_filter ∅ None None None false) in
  for_each
    (fun doc =>
       let? group := run (ScimApiGroup_from_dict doc) in
       let? graph := run (graphdb_get_group (group_scim_id group)) in
       let group := group_set_graph graph group in
       (* logger.info; assert group.graph *)
       match graph with
       | Some _ => returns group
       | None => fails AssertionError
       end)
    docs.

(** [ScimApiGroupDB.get_group_by_scim_id(scim_id)] *)
Definition get_group_by_scim_id (scim_id : string)
  : Q (@World Data) (option (@ScimApiGroup Data)) :=
  let? doc := _get_document_by_attr "scim_id" scim_id false in
  if truthy doc then
    match doc with
    | Some doc =>
        let? group := run (ScimApiGroup_from_dict doc) in
        let? graph := run (graphdb_get_group scim_id) in
        returns (Some (group_set_graph graph group))
    | None => returns None
    end
  else returns None.

(** [ScimApiGroupDB.get_groups_by_property(key, value, skip=0, limit=100)] *)
Definition get_groups_by_property (key value : string) (skip limit : Z)
  : Q (@World Data) (list (@ScimApiGroup Data)) :=
  let? docs :=
    run (_get_documents_by_filter (<[key := CEq (VStr value)]> ∅) None
           (Some limit) (Some skip) false) in
  match docs with
  | [] => returns []
  | _ :: _ =>
      for_each
        (fun this =>
           let? group := run (ScimApiGroup_from_dict this) in
           let? graph := run (graphdb_get_group (group_scim_id group)) in
           returns (group_set_graph graph group))
        docs
  end.

(** ** db/invitedb.py: lookups *)

(** The value of [ScimApiName()], the default of the [name] field. *)
Context (ScimApiName_default : Data).

(** [ScimApiInviteDB.get_invite_by_scim_id(scim_id)] *)
Definition get_invite_by_scim_id (scim_id : string)
  : Q (@World Data) (option (@ScimApiInvite Data)) :=
  let? docs := _get_document_by_attr "scim_id" scim_id false in
  if truthy docs then
    match docs with
    | Some doc =>
        let? invite := run (ScimApiInvite_from_dict ScimApiName_default doc) in
        returns (Some invite)
    | None => returns None
    end
  else returns None.

(** [ScimApiInviteDB.invite_exists(scim_id)] *)
Definition invite_exists (scim_id : string) : M (@World Data) bool :=
  let! n := db_count_limit (<["scim_id" := CEq (VStr scim_id)]> ∅) 1 in
  ret (negb (n =? 0)%Z).

(** ** schemas/scimbase.py *)

(** [SubResource.is_user] and [SubResource.is_group], as truth values:
    [self.ref and '/Users/' in self.ref]. *)
Definition is_user (s : SubResource) : bool :=
  negb (bool_decide (ref s = "")) && contains "/Users/" (ref s).
Definition is_group (s : SubResource) : bool :=
  negb (bool_decide (ref s = "")) && contains "/Groups/" (ref s).

(** A desired entry that describes a stored member, its kind read as
    [SubResource] reads it: [is_user] for a user, [is_group] and not
    [is_user] for a group; identifier and label are the member's. *)
Definition describes (s : SubResource) (m : option Member) : Prop :=
  match m with
  | Some (inl u) =>
      is_user s = true
      /\ value_ s = user_identifier u /\ display s = user_display_name u
  | Some (inr g) =>
      is_group s = true /\ is_user s = false
      /\ value_ s = identifier g /\ display s = display_name g
  | None => False
  end.

(** The desired state is the stored state: the display name is that of the
    record and of its graph, the extension data is the stored one, and
    the desired entries describe the stored members, one for one, in any
    order. *)
Definition identical_state (scim_group : @SCIMGroup Data)
    (db_group : @ScimApiGroup Data) (graph : GraphGroup) : Prop :=
  group_graph db_group = Some graph
  /\ scim_display_name scim_group = group_display_name db_group
  /\ scim_display_name scim_group = display_name graph
  /\ scim_nutid_group_v1_data scim_group = data (group_extensions db_group)
  /\ NoDup (member_tag <$> members graph)
  /\ exists l, l ≡ₚ members graph /\ Forall2 describes (scim_members scim_group) l.

(** ** schemas/scimbase.py: the version field *)

(** The double quote, a string of one character. *)
Definition dquote : string := String (Ascii.ascii_of_nat 34) "".

(** [c in chars] for a character. *)
Fixpoint in_chars (c : Ascii.ascii) (chars : string) : bool :=
  match chars with
  | EmptyString => false
  | String a chars' => bool_decide (c = a) || in_chars c chars'
  end.

(** [s.lstrip(chars)] and [s.rstrip(chars)]: the leading, respectively
    trailing, characters that are among [chars] are dropped. *)
Fixpoint lstrip (chars s : string) : string :=
  match s with
  | EmptyString => EmptyString
  | String c s' => if in_chars c chars then lstrip chars s' else s
  end.
Fixpoint rstrip (chars s : string) : string :=
  match s with
  | EmptyString => EmptyString
  | String c s' =>
      match rstrip chars s' with
      | EmptyString => if in_chars c chars then EmptyString else String c EmptyString
      | rest => String c rest
      end
  end.

(** Hexadecimal digits by their character codes: [str] writes the digits
    0-9 (48 and up) and a-f (97 and up); [ObjectId] reads these and A-F
    (65 and up). *)
Definition hex_digit (n : N) : Ascii.ascii :=
  Ascii.ascii_of_N (if (n <? 10)%N then 48 + n else 87 + n)%N.
Definition hex_value (c : Ascii.ascii) : option N :=
  let code := Ascii.N_of_ascii c in
  if (48 <=? code)%N && (code <=? 57)%N then Some (code - 48)%N
  else if (97 <=? code)%N && (code <=? 102)%N then Some (code - 87)%N
  else if (65 <=? code)%N && (code <=? 70)%N then Some (code - 55)%N
  else None.

(** The last [digits] hexadecimal digits of [n], most significant first. *)
Fixpoint hex_of (digits : nat) (n : N) : string :=
  match digits with
  | O => EmptyString
  | S d => hex_of d (n / 16) +:+ String (hex_digit (n mod 16)) EmptyString
  end.
(** The number a string of hexadecimal digits writes, after [acc]. *)
Fixpoint unhex (acc : N) (s : string) : option N :=
  match s with
  | EmptyString => Some acc
  | String c s' =>
      match hex_value c with
      | Some v => unhex (acc * 16 + v) s'
      | None => None
      end
  end.

(** Modelled from the spec: [str(oid)] and [ObjectId(value)] of bson, for
    an ObjectId read as the 96-bit number it encodes: 24 hexadecimal
    digits; a string that is not 24 hexadecimal digits is an InvalidId. *)
Definition ObjectId_str (o : ObjectId) : string := hex_of 24 o.
Definition ObjectId_of_str (value : string) : option ObjectId :=
  if (String.length value =? 24)%nat then unhex 0 value else None.

(** Modelled from the spec: [make_etag(version)] lives in utils.py, not
    among the sources: the weak entity tag of the commented-out property
    in groupdb.py, W/ and the version between double quotes. *)
Definition make_etag (version : ObjectId) : string :=
  "W/" +:+ dquote +:+ ObjectId_str version +:+ dquote.

(** [VersionField._serialize(value)] for a value that is not [None]. *)
Definition VersionField_serialize (value : ObjectId) : string :=
  make_etag value.

(** [VersionField._deserialize(value)]: the ObjectId, or the message of
    the ValidationError. *)
Definition VersionField_deserialize (value : string) : string + ObjectId :=
  let value :=
    if startswith ("W/" +:+ dquote) value
    then rstrip dquote (lstrip ("W/" +:+ dquote) value)
    else value in
  match ObjectId_of_str value with
  | Some oid => inr oid
  | None => inl ("invalid version: " +:+ value)
  end.

(** ** Vocabulary of the statements below *)

(** An index whose key [save] leaves alone. *)
Definition stamp_free (ix : Index) : Prop :=
  ix_key ix <> "version" /\ ix_key ix <> "last_modified".

(** A unique index is respected by a list of documents when no two of them
    are filed under the same key. *)
Definition index_respected (ix : Index) (l : list Doc) : Prop :=
  forall i j d d' v,
    l !! i = Some d -> l !! j = Some d' ->
    index_entry ix d = Some v -> index_entry ix d' = Some v -> i = j.

(** The group [create_group] builds before it saves it, and the world in
    which it saves it: the ids and the UUID are minted, the graph is
    written. *)
Definition new_graph (scim_group : @SCIMGroup Data) (w : @World Data)
  : GraphGroup :=
  MkGraphGroup (pretty (next_uuid w)) (scim_display_name scim_group) [].
Definition new_group (scim_group : @SCIMGroup Data) (w : @World Data)
  : @ScimApiGroup Data :=
  {| group_display_name := scim_display_name scim_group;
     group_id := next_oid w; group_scim_id := pretty (next_uuid w);
     group_version := N.succ (next_oid w); group_created := clock w;
     group_last_modified := clock w;
     group_extensions := {| data := scim_nutid_group_v1_data scim_group |};
     group_graph := Some (new_graph scim_group w) |}.
Definition graph_written (scim_group : @SCIMGroup Data) (w : @World Data)
  : @World Data :=
  {| coll := coll w;
     graphdb := <[pretty (next_uuid w) := new_graph scim_group w]> (graphdb w);
     next_oid := N.succ (N.succ (next_oid w));
     next_uuid := N.succ (next_uuid w); clock := clock w;
     journal := journal w ++ [EvGraphSave (new_graph scim_group w)] |}.

(** [page] on the records the documents stand for. *)
Definition page_of {A} (skip limit : option Z) (l : list A) : list A :=
  let l := match skip with Some s => drop (Z.to_nat s) l | None => l end in
  match limit with
  | Some n => if (n =? 0)%Z then l else take (Z.to_nat (Z.abs n)) l
  | None => l
  end.

(** The total the find-and-count reports when the collection is the same
    for the count and for the fetch. *)
Definition quiet_total (limit skip : option Z) (n : nat) : Z :=
  if match limit with None => true | Some l => (0 <? l)%Z end
  then Z.max (Z.of_nat n) (or_zero skip)
  else Z.of_nat n.

(** A stored group with the graph the graph store has for it. *)
Definition with_graph (w : @World Data) (group : @ScimApiGroup Data)
  : @ScimApiGroup Data :=
  group_set_graph (graphdb w !! group_scim_id group) group.

(** A datetime that BSON keeps as it is. *)
Definition whole_milliseconds (t : datetime) : Prop := (t mod 1000 = 0)%Z.

(** A record as it is read back from its stored document: the datetimes
    are cut to the millisecond, every other field is as it was written. *)
Definition invite_read_back (i : @ScimApiInvite Data) : @ScimApiInvite Data :=
  {| invite_id := invite_id i; invite_scim_id := invite_scim_id i;
     invite_external_id := invite_external_id i; invite_name := invite_name i;
     invite_emails := invite_emails i;
     invite_phone_numbers := invite_phone_numbers i;
     invite_nin := invite_nin i;
     invite_preferred_language := invite_preferred_language i;
     invite_completed := bson_datetime <$> invite_completed i;
     invite_profiles := invite_profiles i; invite_version := invite_version i;
     invite_created := bson_datetime (invite_created i);
     invite_last_modified := bson_datetime (invite_last_modified i) |}.
Definition group_read_back (g : @ScimApiGroup Data) : @ScimApiGroup Data :=
  {| group_display_name := group_display_name g; group_id := group_id g;
     group_scim_id := group_scim_id g; group_version := group_version g;
     group_created := bson_datetime (group_created g);
     group_last_modified := bson_datetime (group_last_modified g);
     group_extensions := group_extensions g; group_graph := group_graph g |}.

(** A filter key that names a field of the document itself: MongoDB reads
    a key with a dot as a path into sub-documents and a key that starts
    with a dollar sign as an operator. *)
Definition field_name (key : string) : Prop :=
  contains "." key = false /\ startswith "$" key = false.

(** Kind and identifier of a desired entry, as the loop reads them. *)
Definition entry_tag (s : SubResource) : bool * string :=
  (contains "Users" (ref s), value_ s).

(** Kind and identifier of a desired entry, the kind as [SubResource]
    reads it. *)
Definition requested_tag (s : SubResource) : bool * string :=
  (is_user s, value_ s).

(** A desired entry that the loop reads as the kind it is, and can
    resolve: a user ([is_user]), or a group ([is_group], with 'Users'
    nowhere in its reference) that is a member already. *)
Definition well_read (g : GraphGroup) (s : SubResource) : Prop :=
  is_user s = true
  \/ (is_group s = true /\ contains "Users" (ref s) = false
      /\ is_Some (get_member_group g (value_ s))).

(** A desired entry the loop can resolve: a user, or a group that is a
    member already. *)
Definition resolvable (g : GraphGroup) (s : SubResource) : Prop :=
  contains "Users" (ref s) = true
  \/ (contains "Groups" (ref s) = true
      /\ is_Some (get_member_group g (value_ s))).

(** Strings all of whose characters satisfy [p]. *)
Fixpoint all_chars (p : Ascii.ascii -> bool) (s : string) : bool :=
  match s with
  | EmptyString => true
  | String c s' => p c && all_chars p s'
  end.

(** Hexadecimal digits, of either case. *)
Definition is_hex (c : Ascii.ascii) : bool :=
  match hex_value c with Some _ => true | None => false end.

(** ** Writers that hold the current version, and writers that do not *)

Lemma unique_ids_at (l : list Doc) (i j : nat) (d d' : Doc) (o : ObjectId) :
  unique_ids l -> l !! i = Some d -> l !! j = Some d' ->
  has_id o d -> has_id o d' -> i = j /\ d = d'.
Proof.
  intros Hu Hi Hj Hd Hd'. assert (i = j) as -> by (by eapply Hu).
  split; [done|congruence].
Qed.

(** The position of the one document with the record's key. *)
Lemma current_position {R : Type} {V : Versioned (Data := Data) R} (r : R) (w : World) (i j : nat)
    (d old : Doc) :
  unique_ids (docs (coll w)) ->
  docs (coll w) !! i = Some d -> has_id (rec_id r) d ->
  docs (coll w) !! j = Some old -> matches (test_doc_of r) old = true ->
  j = i /\ old = d.
Proof.
  intros Hu Hi Hd Hj [Hid _]%matches_id_version.
  by destruct (unique_ids_at _ j i old d _ Hu Hj Hi Hid Hd) as [-> ->].
Qed.

Lemma new_doc_version {R : Type} {V : Versioned (Data := Data) R} (r : R) (w : World) :
  new_doc r w !! "version" = Some (VOid (next_oid w)).
Proof.
  unfold new_doc. rewrite lookup_insert_ne by done. apply lookup_insert_eq.
Qed.

(** A writer whose record carries the stored version is not told to retry:
    the stored document is replaced where it stands, unless a unique index
    refuses the new document. *)
Lemma save_current {R : Type} {V : Versioned (Data := Data) R} (r : R) (w : World) (i : nat) (d : Doc) :
  unique_ids (docs (coll w)) ->
  docs (coll w) !! i = Some d -> has_id (rec_id r) d ->
  d !! "version" = Some (VOid (rec_version r)) ->
  (rec_version r < next_oid w)%N ->
  match violated_index (coll w) (delete i (docs (coll w))) (new_doc r w) with
  | None =>
      optimistic_save (r, w)
      = (Ok true,
         (stamped r w,
          after_save w (<[i := new_doc r w]> (docs (coll w)))
            [EvReplaceOne (new_doc r w) 1]))
  | Some ix =>
      optimistic_save (r, w)
      = (Raise (DuplicateKeyError (duplicate_key_errmsg (coll w) ix)),
         (r, after_save w (docs (coll w)) [EvRejected (new_doc r w) (ix_name ix)]))
  end.
Proof.
  intros Hu Hi Hid Hver Hfresh.
  assert (matches (test_doc_of r) d = true) as Hm
    by (by apply matches_id_version).
  assert (d <> new_doc r w) as Hne.
  { intros ->. rewrite new_doc_version in Hver. injection Hver. lia. }
  pose proof (optimistic_save_outcome r w) as Ho.
  remember (optimistic_save (r, w)) as res eqn:Hres. clear Hres.
  destruct Ho as [j old Hj Hold _ Hix|Hno _|d' _ _ Hall|j old ix Hj Hold Hix|ix Hno _].
  - destruct (current_position r w i j d old Hu Hi Hid Hj Hold) as [-> ->].
    by rewrite Hix.
  - rewrite Forall_forall in Hno.
    by destruct (Hno d); [eapply list_elem_of_lookup_2|].
  - destruct (list_find_elem_of (fun x => matches (test_doc_of r) x = true)
                (docs (coll w)) d) as [[j old] Hfind];
      [by eapply list_elem_of_lookup_2|done|].
    pose proof (Hall _ _ Hfind) as Hold_new.
    apply list_find_Some in Hfind as (Hj & Hold & _).
    destruct (current_position r w i j d old Hu Hi Hid Hj Hold) as [_ Heq].
    exfalso. apply Hne. by rewrite <- Heq.
  - destruct (current_position r w i j d old Hu Hi Hid Hj Hold) as [-> ->].
    by rewrite Hix.
  - rewrite Forall_forall in Hno.
    by destruct (Hno d); [eapply list_elem_of_lookup_2|].
Qed.

(** [save] keeps [_id] unique. *)
Lemma save_unique_ids {R : Type} {V : Versioned (Data := Data) R} {L : VersionedLaws R} (r : R) (w : World) :
  unique_ids (docs (coll w)) ->
  unique_ids (docs (coll (optimistic_save (r, w)).2.2)).
Proof.
  intros Hu. pose proof (new_doc_id r w) as Hnew.
  pose proof (optimistic_save_outcome r w) as Ho.
  remember (optimistic_save (r, w)) as res eqn:Hres. clear Hres.
  destruct Ho as [i old Hi Hold _ _|Hno _| | |];
    cbn [fst snd after_save coll docs set_docs]; [| |exact Hu..].
  - apply matches_id_version in Hold as [Hold _].
    assert (forall j d o, <[i := new_doc r w]> (docs (coll w)) !! j = Some d ->
                          has_id o d ->
                          exists d', docs (coll w) !! j = Some d' /\ has_id o d')
      as Hback.
    { intros j d o Hj Hd. destruct (decide (j = i)) as [->|Hne].
      - rewrite list_lookup_insert_eq in Hj by (by eapply lookup_lt_Some).
        injection Hj as <-. exists old. split; [done|].
        unfold has_id in *. congruence.
      - rewrite list_lookup_insert_ne in Hj by done. eauto. }
    intros j k d d' o Hj Hk Hd Hd'.
    destruct (Hback _ _ _ Hj Hd) as (e & He & Heo).
    destruct (Hback _ _ _ Hk Hd') as (e' & He' & Heo').
    by eapply Hu.
  - rewrite Forall_forall in Hno.
    intros j k d d' o Hj Hk Hd Hd'.
    apply lookup_app_Some in Hj as [Hj|[Hjl Hj]];
      apply lookup_app_Some in Hk as [Hk|[Hkl Hk]].
    + by eapply Hu.
    + apply list_lookup_singleton_Some in Hk as [_ <-].
      destruct (Hno d); [by eapply list_elem_of_lookup_2|].
      unfold has_id in *. congruence.
    + apply list_lookup_singleton_Some in Hj as [_ <-].
      destruct (Hno d'); [by eapply list_elem_of_lookup_2|].
      unfold has_id in *. congruence.
    + apply list_lookup_singleton_Some in Hj as [Hj _].
      apply list_lookup_singleton_Some in Hk as [Hk _]. lia.
Qed.

(** After a [save] that returned, the collection holds the document of
    the record the caller now has. *)
Lemma save_stores {R : Type} {V : Versioned (Data := Data) R} {L : VersionedLaws R} (r r' : R) (w w' : World) (b : bool) :
  optimistic_save (r, w) = (Ok b, (r', w')) ->
  r' = stamped r w /\ next_oid w' = N.succ (next_oid w) /\ clock w' = clock w
  /\ indexes (coll w') = indexes (coll w)
  /\ exists i, docs (coll w') !! i = Some (new_doc r w)
               /\ delete i (docs (coll w')) = delete i (docs (coll w))
               /\ length (docs (coll w')) = length (delete i (docs (coll w))) + 1
               /\ violated_index (coll w) (delete i (docs (coll w))) (new_doc r w)
                  = None.
Proof.
  intros Hrun.
  pose proof (optimistic_save_outcome r w) as Ho. rewrite Hrun in Ho.
  inversion Ho as [i old Hi _ _ Hix|Hno Hix| | |]; subst;
    cbn [after_save coll docs set_docs indexes next_oid clock].
  - split_and!; try done. exists i.
    assert (i < length (docs (coll w))) as Hlt by (by eapply lookup_lt_Some).
    split_and!; [by apply list_lookup_insert_eq| | |done].
    + clear -Hlt. revert i Hlt. induction (docs (coll w)) as [|x l IH];
        intros [|i] Hlt; simpl in *; try lia; [done|].
      f_equal. apply IH. lia.
    + rewrite length_insert, length_delete by (by rewrite Hi). lia.
  - split_and!; try done. exists (length (docs (coll w))).
    assert (delete (length (docs (coll w))) (docs (coll w)) = docs (coll w)) as E.
    { clear. induction (docs (coll w)) as [|x l IH]; simpl; [done|]. by rewrite IH. }
    split_and!.
    + rewrite lookup_app_r by lia. by rewrite Nat.sub_diag.
    + clear. induction (docs (coll w)) as [|x l IH]; simpl; [done|].
      by rewrite IH.
    + rewrite E, length_app. simpl. lia.
    + by rewrite E.
Qed.

Lemma others_lack_id (l : list Doc) (i : nat) (d : Doc) (o : ObjectId) :
  unique_ids l -> l !! i = Some d -> has_id o d ->
  Forall (fun d' => ~ has_id o d') (delete i l).
Proof.
  intros Hu Hi Hd. apply Forall_forall. intros d' Hin Hd'.
  apply list_elem_of_lookup_1 in Hin as [j Hj].
  destruct (decide (j < i)) as [Hlt|Hge].
  - rewrite list_lookup_delete_lt in Hj by done.
    assert (j = i) by (by eapply Hu). lia.
  - rewrite list_lookup_delete_ge in Hj by lia.
    assert (S j = i) by (by eapply Hu). lia.
Qed.

Lemma collides_entry (ix : Index) (d d' : Doc) (others : list Doc) :
  index_entry ix d = index_entry ix d' ->
  collides ix d others = collides ix d' others.
Proof. unfold collides. by intros ->. Qed.

Lemma violated_index_entries (c c' : Collection) (others : list Doc) (d d' : Doc) :
  indexes c = indexes c' ->
  (forall ix, stamp_free ix -> index_entry ix d = index_entry ix d') ->
  Forall stamp_free (indexes c) ->
  violated_index c others d = violated_index c' others d'.
Proof.
  intros Hc Hentry Hfree. unfold violated_index. rewrite <- Hc.
  assert (Forall stamp_free (id_index :: indexes c)) as Hall
    by (constructor; [by split|done]).
  induction Hall as [|ix ixs Hix _ IH]; simpl; [done|].
  rewrite (collides_entry ix d d' others) by (by apply Hentry).
  by rewrite IH.
Qed.

Lemma new_doc_entry {R : Type} {V : Versioned (Data := Data) R}
    (r : R) (w : World) (ix : Index) :
  stamp_free ix -> index_entry ix (new_doc r w) = index_entry ix (to_dict r).
Proof.
  intros [Hv Hl]. unfold index_entry, new_doc.
  by rewrite !lookup_insert_ne by done.
Qed.

(** A record that [save] has just written can be saved again: the document
    is replaced where it stands. *)
Lemma save_again {R : Type} {V : Versioned (Data := Data) R} {L : VersionedLaws R}
    (r r' : R) (w w' : World) (b : bool) :
  unique_ids (docs (coll w)) ->
  Forall stamp_free (indexes (coll w)) ->
  optimistic_save (r, w) = (Ok b, (r', w')) ->
  exists i,
    docs (coll w') !! i = Some (to_dict r')
    /\ optimistic_save (r', w')
       = (Ok true,
          (stamped r' w',
           after_save w' (<[i := new_doc r' w']> (docs (coll w')))
             [EvReplaceOne (new_doc r' w') 1])).
Proof.
  intros Hu Hfree Hrun.
  pose proof (save_unique_ids r w Hu) as Hu'. rewrite Hrun in Hu'.
  cbn [fst snd] in Hu'.
  destruct (save_stores r r' w w' b Hrun)
    as (-> & Hoid & _ & Hixs & i & Hi & Hdel & _ & Hviol).
  exists i. rewrite new_doc_stamped. split; [done|].
  assert (has_id (rec_id (stamped r w)) (new_doc r w)) as H1.
  { unfold has_id. rewrite <- new_doc_stamped. apply to_dict_id. }
  assert (new_doc r w !! "version" = Some (VOid (rec_version (stamped r w))))
    as H2.
  { rewrite new_doc_version. unfold stamped. by rewrite rec_version_stamp. }
  assert (rec_version (stamped r w) < next_oid w')%N as H3.
  { unfold stamped. rewrite rec_version_stamp, Hoid. lia. }
  pose proof (save_current (stamped r w) w' i (new_doc r w) Hu' Hi H1 H2 H3)
    as Hcur.
  rewrite Hdel in Hcur.
  rewrite (violated_index_entries (coll w') (coll w) _ _ (new_doc r w)) in Hcur.
  - by rewrite Hviol in Hcur.
  - done.
  - intros ix Hix. rewrite !new_doc_entry by done.
    unfold index_entry. rewrite new_doc_stamped.
    destruct Hix as [Hv Hl]. unfold new_doc.
    by rewrite !lookup_insert_ne by done.
  - by rewrite Hixs.
Qed.

(** A writer that holds the record as it was before somebody's [save] is
    told to retry. *)
Lemma save_stale {R : Type} {V : Versioned (Data := Data) R} {L : VersionedLaws R}
    (r r' : R) (w w' : World) (b : bool) :
  unique_ids (docs (coll w)) ->
  (rec_version r < next_oid w)%N ->
  optimistic_save (r, w) = (Ok b, (r', w')) ->
  optimistic_save (r, w')
  = (Raise (RuntimeError out_of_sync),
     (r, after_save w' (docs (coll w'))
           [EvReplaceOne (new_doc r w') 0; EvFindOne (id_spec_of r)])).
Proof.
  intros Hu Hfresh Hrun.
  pose proof (save_unique_ids r w Hu) as Hu'. rewrite Hrun in Hu'.
  cbn [fst snd] in Hu'.
  destruct (save_stores r r' w w' b Hrun) as (_ & _ & _ & _ & i & Hi & _).
  apply (save_conflict r w' (new_doc r w) Hu').
  - by eapply list_elem_of_lookup_2.
  - apply new_doc_id.
  - rewrite new_doc_version. intros [= Hv]. lia.
Qed.

(** X1.  A writer whose record carries the version of the stored document
    is never told to retry.  In the group collection (no index besides
    [_id]) the stored document is replaced where it stands; in a collection
    with unique indexes it is replaced unless an index refuses the new
    document, and then [save] raises DuplicateKeyError and the documents
    are as before. *)
Theorem current_writer_wins :
  (forall (group : ScimApiGroup) (w : World) (i : nat) (d : Doc),
      indexes (coll w) = [] ->
      unique_ids (docs (coll w)) ->
      docs (coll w) !! i = Some d -> has_id (group_id group) d ->
      d !! "version" = Some (VOid (group_version group)) ->
      (group_version group < next_oid w)%N ->
      ScimApiGroupDB_save (group, w)
      = (Ok true,
         (stamped group w,
          after_save w (<[i := new_doc group w]> (docs (coll w)))
            [EvReplaceOne (new_doc group w) 1])))
  /\ (forall (invite : ScimApiInvite) (w : World) (i : nat) (d : Doc),
      unique_ids (docs (coll w)) ->
      docs (coll w) !! i = Some d -> has_id (invite_id invite) d ->
      d !! "version" = Some (VOid (invite_version invite)) ->
      (invite_version invite < next_oid w)%N ->
      match violated_index (coll w) (delete i (docs (coll w)))
              (new_doc invite w) with
      | None =>
          ScimApiInviteDB_save (invite, w)
          = (Ok true,
             (stamped invite w,
              after_save w (<[i := new_doc invite w]> (docs (coll w)))
                [EvReplaceOne (new_doc invite w) 1]))
      | Some ix =>
          ScimApiInviteDB_save (invite, w)
          = (Raise (DuplicateKeyError (duplicate_key_errmsg (coll w) ix)),
             (invite,
              after_save w (docs (coll w))
                [EvRejected (new_doc invite w) (ix_name ix)]))
      end).
Proof.
  split.
  - intros group w i d Hix Hu Hi Hid Hver Hfresh.
    pose proof (save_current group w i d Hu Hi Hid Hver Hfresh) as Hrun.
    pose proof (new_doc_id group w) as Hnew.
    pose proof (others_lack_id _ i d _ Hu Hi Hid) as Hothers.
    by rewrite (violated_index_plain _ _ _ (group_id group) Hix Hnew Hothers)
      in Hrun.
  - intros invite w i d. exact (save_current invite w i d).
Qed.

(** X2.  After a [save] of a record has returned, a [save] from a copy of
    the record as it was before (same [_id], the old version) raises the
    out-of-sync RuntimeError and changes no document. *)
Theorem stale_writer_is_refused :
  (forall (group group' : ScimApiGroup) (w w' : @World Data) (b : bool),
      unique_ids (docs (coll w)) ->
      (group_version group < next_oid w)%N ->
      ScimApiGroupDB_save (group, w) = (Ok b, (group', w')) ->
      ScimApiGroupDB_save (group, w')
      = (Raise (RuntimeError "User out of sync, please retry"),
         (group,
          after_save w' (docs (coll w'))
            [EvReplaceOne (new_doc group w') 0; EvFindOne (id_spec_of group)])))
  /\ (forall (invite invite' : ScimApiInvite) (w w' : @World Data) (b : bool),
      unique_ids (docs (coll w)) ->
      (invite_version invite < next_oid w)%N ->
      ScimApiInviteDB_save (invite, w) = (Ok b, (invite', w')) ->
      ScimApiInviteDB_save (invite, w')
      = (Raise (RuntimeError "Invite out of sync, please retry"),
         (invite,
          after_save w' (docs (coll w'))
            [EvReplaceOne (new_doc invite w') 0; EvFindOne (id_spec_of invite)]))).
Proof.
  split.
  - intros group group' w w' b Hu Hfresh Hrun.
    rewrite ScimApiGroupDB_save_protocol in Hrun.
    exact (save_stale (V := group_versioned) group group' w w' b Hu Hfresh Hrun).
  - intros invite invite' w w' b Hu Hfresh Hrun.
    rewrite ScimApiInviteDB_save_protocol in Hrun.
    exact (save_stale (V := invite_versioned) invite invite' w w' b Hu Hfresh Hrun).
Qed.

(** X3.  The record that a [save] leaves in the caller's hands can be saved
    again at once: the second [save] returns, replaces the document where
    it stands (the collection keeps its length) and mints the next
    version.  The collection's unique indexes are on fields other than
    version and last_modified. *)
Theorem saved_record_saves_again :
  (forall (group group' : ScimApiGroup) (w w' : @World Data) (b : bool),
      unique_ids (docs (coll w)) ->
      Forall stamp_free (indexes (coll w)) ->
      ScimApiGroupDB_save (group, w) = (Ok b, (group', w')) ->
      exists i,
        docs (coll w') !! i = Some (ScimApiGroup_to_dict group')
        /\ ScimApiGroupDB_save (group', w')
           = (Ok true,
              (stamped group' w',
               after_save w' (<[i := new_doc group' w']> (docs (coll w')))
                 [EvReplaceOne (new_doc group' w') 1])))
  /\ (forall (invite invite' : ScimApiInvite) (w w' : @World Data) (b : bool),
      unique_ids (docs (coll w)) ->
      Forall stamp_free (indexes (coll w)) ->
      ScimApiInviteDB_save (invite, w) = (Ok b, (invite', w')) ->
      exists i,
        docs (coll w') !! i = Some (ScimApiInvite_to_dict invite')
        /\ ScimApiInviteDB_save (invite', w')
           = (Ok true,
              (stamped invite' w',
               after_save w' (<[i := new_doc invite' w']> (docs (coll w')))
                 [EvReplaceOne (new_doc invite' w') 1]))).
Proof.
  split.
  - intros group group' w w' b Hu Hfree Hrun.
    rewrite ScimApiGroupDB_save_protocol in Hrun.
    exact (save_again (V := group_versioned) group group' w w' b Hu Hfree Hrun).
  - intros invite invite' w w' b Hu Hfree Hrun.
    rewrite ScimApiInviteDB_save_protocol in Hrun.
    exact (save_again (V := invite_versioned) invite invite' w w' b Hu Hfree Hrun).
Qed.

(** X4.  [save] keeps [_id] unique: if no two stored documents share an
    [_id] before the call, none do after it, however the call ends. *)
Theorem save_keeps_ids_unique :
  (forall (group : ScimApiGroup) (w : @World Data),
      unique_ids (docs (coll w)) ->
      unique_ids (docs (coll (ScimApiGroupDB_save (group, w)).2.2)))
  /\ (forall (invite : ScimApiInvite) (w : @World Data),
      unique_ids (docs (coll w)) ->
      unique_ids (docs (coll (ScimApiInviteDB_save (invite, w)).2.2))).
Proof.
  split.
  - intros group w. exact (save_unique_ids (V := group_versioned) group w).
  - intros invite w. exact (save_unique_ids (V := invite_versioned) invite w).
Qed.

(** ** Documents and records *)

Lemma group_from_to_dict (group : @ScimApiGroup Data) (w : @World Data) :
  ScimApiGroup_from_dict (ScimApiGroup_to_dict group) w
  = (Ok (group_set_graph None group), w).
Proof. destruct group as [name gid sid ver cr lm [ext] gr]. reflexivity. Qed.

Lemma invite_from_to_dict (invite : @ScimApiInvite Data) (w : @World Data) :
  ScimApiInvite_from_dict ScimApiName_default (ScimApiInvite_to_dict invite) w
  = (Ok invite, w).
Proof.
  destruct invite as [iid sid ext name ems phs nin lang compl prof ver cr lm].
  destruct ext, name, nin, lang, compl; reflexivity.
Qed.

(** X5.  [ScimApiInvite.from_dict] undoes [to_dict]: the document of an
    invite is read back as that invite, every field as it was (an absent
    external_id, nin, language or completion time included), and reading
    it mints no ObjectId and leaves the world as it is. *)
Theorem invite_round_trip (invite : @ScimApiInvite Data) (w : @World Data) :
  ScimApiInvite_from_dict ScimApiName_default (ScimApiInvite_to_dict invite) w
  = (Ok invite, w).
Proof. apply invite_from_to_dict. Qed.

(** X6.  [ScimApiGroup.from_dict] undoes [to_dict] up to the graph: the
    document of a group is read back as that group without its graph,
    which [to_dict] leaves out; the document [save] writes is read back
    as the record [save] leaves in the caller's hands, graph apart.
    Reading leaves the world as it is. *)
Theorem group_round_trip (group : @ScimApiGroup Data) (w w0 : @World Data) :
  ScimApiGroup_from_dict (ScimApiGroup_to_dict group) w
  = (Ok (group_set_graph None group), w)
  /\ ScimApiGroup_from_dict (new_doc group w0) w
     = (Ok (group_set_graph None (stamped group w0)), w).
Proof.
  split; [apply group_from_to_dict|].
  rewrite <- (new_doc_stamped (H := group_versioned) group w0).
  apply group_from_to_dict.
Qed.

(** ** Lookups by [scim_id] *)

Lemma cond_holds_eq_str (s : string) (field : option (@value Data)) :
  cond_holds (CEq (VStr s)) field = true <-> field = Some (VStr s).
Proof.
  unfold cond_holds.
  rewrite (bool_decide_eq_false_2 (VStr s = VNone)) by discriminate.
  rewrite andb_false_l, orb_false_r. apply bool_decide_eq_true.
Qed.

Lemma matches_attr (k s : string) (d : Doc) :
  matches (<[k := CEq (VStr s)]> ∅) d = true <-> d !! k = Some (VStr s).
Proof.
  rewrite matches_spec. split.
  - intros Hm. apply cond_holds_eq_str, (Hm k). by rewrite lookup_insert_eq.
  - intros Hd k' c [[<- <-]|[_ Hk]]%lookup_insert_Some.
    + by apply cond_holds_eq_str.
    + by rewrite lookup_empty in Hk.
Qed.

Lemma filter_one (spec : Spec) (l : list Doc) (i : nat) (d : Doc) :
  l !! i = Some d -> matches spec d = true ->
  Forall (fun d' => matches spec d' <> true) (delete i l) ->
  List.filter (matches spec) l = [d].
Proof.
  revert i. induction l as [|x l IH]; intros [|i] Hi Hd Hrest;
    simpl in *; try done.
  - injection Hi as ->. rewrite Hd. f_equal. by apply filter_matches_nil.
  - inversion Hrest as [|? ? Hx Hl]; subst.
    destruct (matches spec x); [done|]. by apply (IH i).
Qed.

Lemma scim_id_free (c : Collection) (others : list Doc) (d : Doc) (s : string) :
  indexes c = invite_indexes -> d !! "scim_id" = Some (VStr s) ->
  violated_index c others d = None ->
  Forall (fun d' => d' !! "scim_id" <> Some (VStr s)) others.
Proof.
  intros Hc Hd Hfree. unfold violated_index in Hfree. rewrite Hc in Hfree.
  pose proof (List.find_none _ _ Hfree
                {| ix_name := "unique-scimid"; ix_key := "scim_id";
                   ix_unique := true; ix_sparse := false |}) as Hix.
  cbv beta in Hix. unfold collides, index_entry in Hix.
  cbn [ix_unique ix_key ix_sparse andb] in Hix. rewrite Hd in Hix.
  specialize (Hix ltac:(right; left; reflexivity)).
  apply Forall_forall. intros d' Hin Hd'.
  assert (existsb (fun d'0 : Doc =>
            bool_decide (match d'0 !! "scim_id" with
                         | Some v => Some v
                         | None => Some VNone
                         end = Some (VStr s))) others = true) as Hex.
  { apply existsb_exists. exists d'. split; [by apply list_elem_of_In|].
    rewrite Hd'. by apply bool_decide_eq_true_2. }
  congruence.
Qed.

Lemma count_one (spec : Spec) (l : list Doc) (d : Doc) :
  List.filter (matches spec) l = [d] ->
  Z.min (Z.of_nat (length (List.filter (matches spec) l))) 1 = 1%Z.
Proof. by intros ->. Qed.

(** After a [save] into the invite collection, the one document with the
    invite's [scim_id] is the one just written. *)
Lemma saved_invite_alone (invite invite' : @ScimApiInvite Data)
    (w w' : @World Data) (b : bool) :
  indexes (coll w) = invite_indexes ->
  ScimApiInviteDB_save (invite, w) = (Ok b, (invite', w')) ->
  List.filter
    (matches (<["scim_id" := CEq (VStr (invite_scim_id invite))]> ∅))
    (docs (coll w'))
  = [ScimApiInvite_to_dict invite'].
Proof.
  intros Hix Hrun. rewrite ScimApiInviteDB_save_protocol in Hrun.
  destruct (save_stores (V := invite_versioned) invite invite' w w' b Hrun)
    as (-> & _ & _ & _ & i & Hi & Hdel & _ & Hfree).
  assert (new_doc invite w !! "scim_id" = Some (VStr (invite_scim_id invite)))
    as Hsid by reflexivity.
  pose proof (scim_id_free _ _ _ _ Hix Hsid Hfree) as Hothers.
  rewrite <- Hdel in Hothers.
  change (ScimApiInvite_to_dict (stamped invite w))
    with (to_dict (stamped invite w)).
  rewrite (new_doc_stamped invite w).
  apply (filter_one _ _ i); [exact Hi|by apply matches_attr|].
  eapply Forall_impl; [exact Hothers|].
  intros d Hd Hm. by apply matches_attr in Hm.
Qed.

Lemma bson_datetime_whole (t : datetime) :
  bson_datetime t = t <-> whole_milliseconds t.
Proof. unfold bson_datetime, whole_milliseconds. lia. Qed.

Lemma truthy_bson (d : Doc) : truthy (Some (bson d)) = truthy (Some d).
Proof.
  unfold truthy, bson. f_equal. apply bool_decide_ext. apply fmap_empty_iff.
Qed.

(** The document the server hands back is the document of the record read
    back. *)
Lemma bson_invite (invite : @ScimApiInvite Data) :
  bson (ScimApiInvite_to_dict invite)
  = ScimApiInvite_to_dict (invite_read_back invite).
Proof.
  destruct invite as [iid sid ext name ems phs nin lang compl prof ver cr lm].
  unfold bson, ScimApiInvite_to_dict. rewrite !fmap_insert, fmap_empty.
  by destruct ext, name, nin, lang, compl.
Qed.

Lemma bson_group (group : @ScimApiGroup Data) :
  bson (ScimApiGroup_to_dict group)
  = ScimApiGroup_to_dict (group_read_back group).
Proof.
  unfold bson, ScimApiGroup_to_dict. by rewrite !fmap_insert, fmap_empty.
Qed.

Lemma invite_read_back_same (invite : @ScimApiInvite Data) :
  invite_read_back invite = invite
  <-> whole_milliseconds (invite_last_modified invite)
      /\ whole_milliseconds (invite_created invite)
      /\ forall t, invite_completed invite = Some t -> whole_milliseconds t.
Proof.
  destruct invite as [iid sid ext name ems phs nin lang compl prof ver cr lm].
  unfold invite_read_back. simpl. split.
  - intros [= Hc Hcr Hlm]. split_and!; [by apply bson_datetime_whole..|].
    intros t ->. apply bson_datetime_whole. simpl in Hc. by injection Hc.
  - intros (Hlm & Hcr & Hc). apply bson_datetime_whole in Hlm, Hcr.
    rewrite Hlm, Hcr. f_equal. destruct compl as [t|]; [|done].
    simpl. f_equal. by apply bson_datetime_whole, Hc.
Qed.

Lemma group_read_back_same (group : @ScimApiGroup Data) :
  group_read_back group = group
  <-> whole_milliseconds (group_created group)
      /\ whole_milliseconds (group_last_modified group).
Proof.
  destruct group as [name gid sid ver cr lm ext gr].
  unfold group_read_back. simpl. rewrite <- !bson_datetime_whole. split.
  - by intros [= Hcr Hlm].
  - by intros [-> ->].
Qed.

(** X7.  An invite that [save] has written is found again under its
    [scim_id]: in the collection as [ScimApiInviteDB.__init__] sets it up,
    [get_invite_by_scim_id] returns the record [save] left in the caller's
    hands as the server holds it, that is with its datetimes cut to the
    millisecond and every other field, the new version included, as it
    is; [invite_exists] says yes.  Each of the two makes one call on the
    store.  The record read back is the record in hand exactly when the
    time of the save, the time of creation and the time of completion,
    if there is one, are whole milliseconds. *)
Theorem saved_invite_is_found (invite invite' : @ScimApiInvite Data)
    (w w' : @World Data) (b : bool) :
  indexes (coll w) = invite_indexes ->
  ScimApiInviteDB_save (invite, w) = (Ok b, (invite', w')) ->
  get_invite_by_scim_id (invite_scim_id invite) w'
  = (inr (Some (invite_read_back invite')),
     record_call
       (EvFind (<["scim_id" := CEq (VStr (invite_scim_id invite))]> ∅)) w')
  /\ invite_exists (invite_scim_id invite) w'
     = (Ok true,
        record_call
          (EvCount (<["scim_id" := CEq (VStr (invite_scim_id invite))]> ∅)) w')
  /\ invite_last_modified (invite_read_back invite') = bson_datetime (clock w)
  /\ (invite_read_back invite' = invite'
      <-> whole_milliseconds (clock w)
          /\ whole_milliseconds (invite_created invite)
          /\ forall t, invite_completed invite = Some t -> whole_milliseconds t).
Proof.
  intros Hix Hrun. pose proof (saved_invite_alone _ _ _ _ _ Hix Hrun) as Hone.
  split_and!.
  - unfold get_invite_by_scim_id, and_then, _get_document_by_attr.
    rewrite Hone, truthy_bson.
    assert (truthy (Some (ScimApiInvite_to_dict invite')) = true) as ->.
    { apply (truthy_has_id (invite_id invite')).
      reflexivity. }
    unfold run. by rewrite bson_invite, invite_from_to_dict.
  - unfold invite_exists, db_count_limit, db_count, bind, ret.
    by rewrite (count_one _ _ _ Hone).
  - rewrite ScimApiInviteDB_save_protocol in Hrun.
    by apply (save_stores (V := invite_versioned)) in Hrun as (-> & _).
  - rewrite ScimApiInviteDB_save_protocol in Hrun.
    apply (save_stores (V := invite_versioned)) in Hrun as (-> & _).
    exact (invite_read_back_same (stamped invite w)).
Qed.

Lemma delete_last {A} (l : list A) (x : A) : delete (length l) (l ++ [x]) = l.
Proof. induction l as [|y l IH]; simpl; [done|]. by rewrite IH. Qed.

Lemma create_group_save (scim_group : @SCIMGroup Data) (w : @World Data) :
  create_group scim_group w
  = match ScimApiGroupDB_save (new_group scim_group w, graph_written scim_group w) with
    | (Ok _, s) => (Ok (fst s), snd s)
    | (Raise e, s) => (Raise e, snd s)
    end.
Proof.
  unfold create_group, bind, ObjectId_new, uuid4, utcnow, gets, graphdb_save,
    with_object, ret.
  cbn [next_oid next_uuid clock set_next_oid set_next_uuid record_call
       set_graphdb coll graphdb journal group_scim_id group_set_graph
       group_display_name group_id group_version group_created
       group_last_modified group_extensions group_graph identifier].
  fold (new_graph scim_group w).
  change (ScimApiGroupDB_save (?r, ?w0))
    with (ScimApiGroupDB_save (new_group scim_group w, graph_written scim_group w)).
  by destruct (ScimApiGroupDB_save _) as [[ok|e] [r' w']].
Qed.

(** X8.  A group that [create_group] has made is found again under its
    [scim_id]: when the ObjectId and the UUID it mints are not in use in
    the group collection (which has no index besides [_id]),
    [create_group] returns, and [get_group_by_scim_id] on the new
    [scim_id] returns the record [create_group] returned as the server
    holds it, that is with [created] and [last_modified] cut to the
    millisecond and every other field as it is, the graph it wrote
    attached.  The record read back is the record in hand exactly when
    the time of the call is a whole millisecond. *)
Theorem created_group_is_found (scim_group : @SCIMGroup Data) (w : @World Data) :
  indexes (coll w) = [] ->
  Forall (fun d => ~ has_id (next_oid w) d) (docs (coll w)) ->
  Forall (fun d => d !! "scim_id" <> Some (VStr (pretty (next_uuid w))))
    (docs (coll w)) ->
  exists (group : @ScimApiGroup Data) (w' : @World Data),
    create_group scim_group w = (Ok group, w')
    /\ group_scim_id group = pretty (next_uuid w)
    /\ group_graph group
       = Some (MkGraphGroup (pretty (next_uuid w))
                 (scim_display_name scim_group) [])
    /\ get_group_by_scim_id (group_scim_id group) w'
       = (inr (Some (group_read_back group)),
          record_call
            (EvFind (<["scim_id" := CEq (VStr (group_scim_id group))]> ∅)) w')
    /\ group_created (group_read_back group) = bson_datetime (clock w)
    /\ group_last_modified (group_read_back group) = bson_datetime (clock w)
    /\ (group_read_back group = group <-> whole_milliseconds (clock w)).
Proof.
  intros Hix Hid Hsid.
  set (group := new_group scim_group w). set (w0 := graph_written scim_group w).
  pose proof (save_absent (H := group_versioned) group w0 Hid) as Hrun.
  pose proof (new_doc_id (H := group_versioned) group w0) as Hnew.
  rewrite (violated_index_plain (coll w0) (docs (coll w0)) _ (group_id group)
             Hix Hnew Hid) in Hrun.
  rewrite <- ScimApiGroupDB_save_protocol in Hrun.
  eexists _, _. split; [|split; [|split; [|split; [|split; [|split]]]]].
  - rewrite create_group_save. fold group w0. rewrite Hrun. reflexivity.
  - reflexivity.
  - reflexivity.
  - cbn [fst snd]. unfold get_group_by_scim_id, and_then, _get_document_by_attr.
    change (group_scim_id (stamped group w0)) with (pretty (next_uuid w)).
    cbn [after_save coll docs set_docs].
    rewrite (filter_one _ _ (length (docs (coll w))) (new_doc group w0)).
    + rewrite truthy_bson.
      assert (truthy (Some (new_doc group w0)) = true) as ->
        by (by apply (truthy_has_id (group_id group))).
      unfold run. rewrite <- (new_doc_stamped (H := group_versioned) group w0).
      change (to_dict (stamped group w0))
        with (ScimApiGroup_to_dict (stamped group w0)).
      rewrite bson_group, group_from_to_dict. unfold graphdb_get_group, gets.
      cbn [graphdb after_save record_call]. unfold w0 at 1.
      cbn [graphdb graph_written]. rewrite lookup_insert_eq. reflexivity.
    + rewrite lookup_app_r by done. by rewrite Nat.sub_diag.
    + by apply matches_attr.
    + rewrite delete_last. eapply Forall_impl; [exact Hsid|].
      intros d Hd Hm. by apply matches_attr in Hm.
  - reflexivity.
  - reflexivity.
  - cbn [fst]. rewrite group_read_back_same. cbn. tauto.
Qed.

Lemma filter_attr_nil (k s : string) (l : list Doc) :
  List.filter (matches (<[k := CEq (VStr s)]> ∅)) l = []
  <-> Forall (fun d => d !! k <> Some (VStr s)) l.
Proof.
  induction l as [|d l IH]; simpl; [by split; [constructor|]|].
  destruct (matches _ d) eqn:Hd.
  - split; [done|]. intros Hall. inversion Hall as [|? ? Hne _]; subst.
    by apply matches_attr in Hd.
  - rewrite IH. split.
    + intros Hl. constructor; [|done]. intros Hk.
      apply matches_attr in Hk. congruence.
    + intros Hall. by inversion Hall.
Qed.

Lemma filter_attr_truthy (k s : string) (l rest : list Doc) (d : Doc) :
  List.filter (matches (<[k := CEq (VStr s)]> ∅)) l = d :: rest ->
  truthy (Some d) = true.
Proof.
  intros Hf. assert (List.In d (List.filter (matches (<[k := CEq (VStr s)]> ∅)) l))
    as Hin by (rewrite Hf; by left).
  apply List.filter_In in Hin as [_ Hd]. apply matches_attr in Hd.
  unfold truthy. rewrite bool_decide_eq_false_2; [done|].
  intros ->. by rewrite lookup_empty in Hd.
Qed.

(** X9.  The lookups by [scim_id] agree on what is absent:
    [invite_exists] never raises and says no exactly when no stored
    document has the [scim_id]; [get_invite_by_scim_id] and
    [get_group_by_scim_id] return [None] exactly then, and otherwise a
    record or an exception, never [None]. *)
Theorem absent_scim_id (scim_id : string) (w : @World Data) :
  (exists b,
      (invite_exists scim_id w).1 = Ok b
      /\ (b = false
          <-> Forall (fun d : Doc => d !! "scim_id" <> Some (VStr scim_id))
                (docs (coll w))))
  /\ ((get_invite_by_scim_id scim_id w).1 = inr None
      <-> Forall (fun d : Doc => d !! "scim_id" <> Some (VStr scim_id))
            (docs (coll w)))
  /\ ((get_group_by_scim_id scim_id w).1 = inr None
      <-> Forall (fun d : Doc => d !! "scim_id" <> Some (VStr scim_id))
            (docs (coll w))).
Proof.
  pose proof (filter_attr_nil "scim_id" scim_id (docs (coll w))) as Hnil.
  split_and!; [|rewrite <- Hnil; clear Hnil..].
  - unfold invite_exists, db_count_limit, db_count, bind, ret. cbn [fst].
    eexists. split; [reflexivity|]. rewrite <- Hnil. clear Hnil.
    destruct (List.filter _ _) as [|d l]; [split; [done|reflexivity]|].
    cbn [length]. split; [|done].
    rewrite negb_false_iff, Z.eqb_eq. lia.
  - unfold get_invite_by_scim_id, and_then, _get_document_by_attr.
    destruct (List.filter _ _) as [|d [|d' l]] eqn:Hf; [done| |done].
    rewrite truthy_bson, (filter_attr_truthy _ _ _ _ _ Hf). unfold run.
    by destruct (ScimApiInvite_from_dict _ _ _) as [[invite|e] w1].
  - unfold get_group_by_scim_id, and_then, _get_document_by_attr.
    destruct (List.filter _ _) as [|d [|d' l]] eqn:Hf; [done| |done].
    rewrite truthy_bson, (filter_attr_truthy _ _ _ _ _ Hf). unfold run.
    by destruct (ScimApiGroup_from_dict _ _) as [[group|e] w1].
Qed.

(** ** Unique indexes *)

Lemma not_violated (c : @Collection Data) (others : list Doc) (d d' : Doc)
    (ix : Index) (v : @value Data) :
  violated_index c others d = None ->
  ix ∈ indexes c -> ix_unique ix = true ->
  d' ∈ others -> index_entry ix d = Some v -> index_entry ix d' <> Some v.
Proof.
  unfold violated_index. intros Hfree Hix Hu Hin Hd Hd'.
  pose proof (List.find_none _ _ Hfree ix) as Hno. cbv beta in Hno.
  unfold collides in Hno. rewrite Hu, Hd in Hno. cbn [andb] in Hno.
  assert (existsb (fun d'0 : Doc => bool_decide (index_entry ix d'0 = Some v))
            others = true) as Hex.
  { apply existsb_exists. exists d'. split; [by apply list_elem_of_In|].
    by apply bool_decide_eq_true_2. }
  rewrite Hno in Hex; [done|]. right. by apply list_elem_of_In.
Qed.

Lemma elem_of_delete {A} (l : list A) (i k : nat) (x : A) :
  l !! k = Some x -> k <> i -> x ∈ delete i l.
Proof.
  intros Hk Hne. destruct (decide (k < i)) as [Hlt|Hge].
  - apply list_elem_of_lookup_2 with k. by rewrite list_lookup_delete_lt.
  - destruct k as [|k]; [lia|]. apply list_elem_of_lookup_2 with k.
    rewrite list_lookup_delete_ge by lia. done.
Qed.

(** [save] keeps every unique index of the collection respected. *)
Lemma save_index_respected {R : Type} {V : Versioned (Data := Data) R}
    (r : R) (w : World) (ix : Index) :
  ix ∈ indexes (coll w) -> ix_unique ix = true ->
  index_respected ix (docs (coll w)) ->
  index_respected ix (docs (coll (optimistic_save (r, w)).2.2)).
Proof.
  intros Hix Hu Hinv.
  pose proof (optimistic_save_outcome r w) as Ho.
  remember (optimistic_save (r, w)) as res eqn:Hres. clear Hres.
  destruct Ho as [i old Hi _ _ Hfree|_ Hfree| | |];
    cbn [fst snd after_save coll docs set_docs]; [| |exact Hinv..].
  - assert (i < length (docs (coll w))) as Hlt by (by eapply lookup_lt_Some).
    intros j k d d' v Hj Hk Hd Hd'.
    destruct (decide (j = i)) as [->|Hji], (decide (k = i)) as [->|Hki];
      [done| | |].
    + rewrite list_lookup_insert_eq in Hj by done. injection Hj as <-.
      rewrite list_lookup_insert_ne in Hk by done.
      destruct (not_violated _ _ _ d' ix v Hfree Hix Hu); [|done..].
      by eapply elem_of_delete.
    + rewrite list_lookup_insert_eq in Hk by done. injection Hk as <-.
      rewrite list_lookup_insert_ne in Hj by done.
      destruct (not_violated _ _ _ d ix v Hfree Hix Hu); [|done..].
      by eapply elem_of_delete.
    + rewrite list_lookup_insert_ne in Hj, Hk by done. by eapply Hinv.
  - intros j k d d' v Hj Hk Hd Hd'.
    apply lookup_app_Some in Hj as [Hj|[Hjl Hj]];
      apply lookup_app_Some in Hk as [Hk|[Hkl Hk]].
    + by eapply Hinv.
    + apply list_lookup_singleton_Some in Hk as [_ <-].
      destruct (not_violated _ _ _ d ix v Hfree Hix Hu); [|done..].
      by eapply list_elem_of_lookup_2.
    + apply list_lookup_singleton_Some in Hj as [_ <-].
      destruct (not_violated _ _ _ d' ix v Hfree Hix Hu); [|done..].
      by eapply list_elem_of_lookup_2.
    + apply list_lookup_singleton_Some in Hj as [Hj _].
      apply list_lookup_singleton_Some in Hk as [Hk _]. lia.
Qed.

Lemma filter_two (p : Doc -> bool) (l rest : list Doc) (d d' : Doc) :
  List.filter p l = d :: d' :: rest ->
  exists i j, i <> j /\ l !! i = Some d /\ l !! j = Some d'
              /\ p d = true /\ p d' = true.
Proof.
  revert d d' rest. induction l as [|x l IH]; intros d d' rest; [done|].
  cbn [List.filter]. destruct (p x) eqn:Hx.
  - intros [= -> Hl].
    assert (List.In d' (List.filter p l)) as Hin by (rewrite Hl; by left).
    apply List.filter_In in Hin as [Hin Hd'].
    apply list_elem_of_In, list_elem_of_lookup_1 in Hin as [j Hj].
    exists 0, (S j). by split_and!.
  - intros Hl. destruct (IH _ _ _ Hl) as (i & j & Hne & Hi & Hj & Hd & Hd').
    exists (S i), (S j). split_and!; try done. lia.
Qed.

(** X10.  [save] keeps the unique indexes of the invite collection: when
    no two stored documents are filed under the same key of a unique
    index before the call, none are after it, however the call ends.
    With the index on [scim_id] respected, the lookup by [scim_id] never
    ends in MultipleDocumentsReturned. *)
Theorem save_keeps_unique_indexes :
  (forall (invite : @ScimApiInvite Data) (w : @World Data) (ix : Index),
      ix ∈ indexes (coll w) -> ix_unique ix = true ->
      index_respected ix (docs (coll w)) ->
      index_respected ix (docs (coll (ScimApiInviteDB_save (invite, w)).2.2)))
  /\ (forall (scim_id : string) (w : @World Data) (ix : Index),
        ix_key ix = "scim_id" ->
        index_respected ix (docs (coll w)) ->
        (get_invite_by_scim_id scim_id w).1 <> inl MultipleDocumentsReturned).
Proof.
  split.
  - intros invite w ix. rewrite ScimApiInviteDB_save_protocol.
    exact (save_index_respected (V := invite_versioned) invite w ix).
  - intros scim_id w ix Hkey Hinv.
    unfold get_invite_by_scim_id, and_then, _get_document_by_attr.
    destruct (List.filter _ _) as [|d [|d' rest]] eqn:Hf; [done| |].
    + destruct (truthy (Some (bson d))); [|done]. unfold run.
      by destruct (ScimApiInvite_from_dict _ _ _) as [[invite|e] w1].
    + exfalso. apply filter_two in Hf as (i & j & Hne & Hi & Hj & Hd & Hd').
      apply matches_attr in Hd, Hd'. apply Hne.
      apply (Hinv i j d d' (VStr scim_id)); try done;
        unfold index_entry; by rewrite Hkey, ?Hd, ?Hd'.
Qed.

(** ** Pages and totals *)

Lemma page_fmap {A} (f : A -> Doc) (skip limit : option Z) (l : list A) :
  page skip limit (f <$> l) = f <$> page_of skip limit l.
Proof.
  unfold page, page_of.
  destruct skip as [s|], limit as [n|]; try destruct (n =? 0)%Z;
    by rewrite ?fmap_take, ?fmap_drop.
Qed.

Lemma page_of_length {A} (skip limit : option Z) (l : list A) :
  (0 <= or_zero skip)%Z ->
  Z.of_nat (length (page_of skip limit l))
  = (let rest := Z.max 0 (Z.of_nat (length l) - or_zero skip) in
     match limit with
     | Some n => if (n =? 0)%Z then rest else Z.min (Z.abs n) rest
     | None => rest
     end).
Proof.
  intros Hs. unfold page_of.
  assert (Z.of_nat (length (match skip with
                            | Some s => drop (Z.to_nat s) l
                            | None => l
                            end))
          = Z.max 0 (Z.of_nat (length l) - or_zero skip)) as Hrest.
  { destruct skip as [s|]; simpl in *; [rewrite length_drop|]; lia. }
  destruct limit as [n|]; [|exact Hrest].
  destruct (n =? 0)%Z; [exact Hrest|].
  rewrite length_take. lia.
Qed.

Lemma find_and_count_quiet (spec : Spec) (fields : option (list string))
    (limit skip : option Z) (raise_on_missing : bool) (w : @World Data) :
  List.filter (matches spec) (docs (coll w)) <> [] ->
  (0 <= or_zero skip)%Z ->
  _get_documents_and_count_by_filter spec fields limit skip raise_on_missing w
  = (Ok (page skip limit
           (project fields <$> List.filter (matches spec) (docs (coll w))),
         quiet_total limit skip
           (length (List.filter (matches spec) (docs (coll w))))),
     record_call (EvFind spec) (record_call (EvCount spec) w)).
Proof.
  intros Hne Hs.
  unfold _get_documents_and_count_by_filter, bind, ret, db_count,
    _get_documents_by_filter.
  cbn [coll record_call].
  destruct (List.filter (matches spec) (docs (coll w))) as [|d found] eqn:Hf;
    [done|]. clear Hne.
  assert ((match skip with
           | Some s =>
               if (s <? 0)%Z
               then (Raise (ValueError "skip must be >= 0"),
                     record_call (EvFind spec) (record_call (EvCount spec) w))
               else (Ok (page skip limit (project fields <$> d :: found)),
                     record_call (EvFind spec) (record_call (EvCount spec) w))
           | None => (Ok (page skip limit (project fields <$> d :: found)),
                      record_call (EvFind spec) (record_call (EvCount spec) w))
           end)
          = (Ok (page skip limit (project fields <$> d :: found)),
             record_call (EvFind spec) (record_call (EvCount spec) w))) as ->.
  { destruct skip as [s|]; [|done]. simpl in Hs.
    by rewrite (proj2 (Z.ltb_ge s 0) Hs). }
  f_equal. f_equal. f_equal.
  pose proof (page_of_length skip limit (project fields <$> d :: found) Hs)
    as Hlen.
  change (page_of skip limit (project fields <$> d :: found))
    with (page skip limit (project fields <$> d :: found)) in Hlen.
  rewrite length_fmap in Hlen. rewrite Hlen. clear Hlen.
  unfold quiet_total. set (n := length (d :: found)).
  assert (0 < Z.of_nat n)%Z as Hn by (subst n; simpl; lia).
  clearbody n.
  destruct limit as [l|], skip as [s|]; cbn [or_zero] in *.
  - destruct (l =? 0)%Z eqn:E0.
    + apply Z.eqb_eq in E0 as ->. simpl.
      rewrite (proj2 (Z.ltb_ge _ _)) by lia. done.
    + apply Z.eqb_neq in E0.
      destruct (0 <? l)%Z eqn:Epos;
        [apply Z.ltb_lt in Epos|apply Z.ltb_ge in Epos];
        destruct (_ <? l)%Z eqn:El;
        try apply Z.ltb_lt in El; try apply Z.ltb_ge in El; lia.
  - destruct (l =? 0)%Z eqn:E0.
    + apply Z.eqb_eq in E0 as ->. simpl.
      rewrite (proj2 (Z.ltb_ge _ _)) by lia. done.
    + apply Z.eqb_neq in E0.
      destruct (0 <? l)%Z eqn:Epos;
        [apply Z.ltb_lt in Epos|apply Z.ltb_ge in Epos];
        destruct (_ <? l)%Z eqn:El;
        try apply Z.ltb_lt in El; try apply Z.ltb_ge in El; lia.
  - lia.
  - lia.
Qed.

(** X11.  The find-and-count in a collection nobody writes to between the
    count and the fetch, when at least one document matches and the skip
    is not negative: it returns the page, having made the two calls, and
    the total is the number of matching documents as long as the skip
    does not exceed it; with a larger skip, and a limit that is absent or
    positive, the total is the skip. *)
Theorem total_without_writers (spec : Spec) (fields : option (list string))
    (limit skip : option Z) (raise_on_missing : bool) (w : @World Data) :
  let found := List.filter (matches spec) (docs (coll w)) in
  found <> [] ->
  (0 <= or_zero skip)%Z ->
  exists total,
    _get_documents_and_count_by_filter spec fields limit skip raise_on_missing w
    = (Ok (page skip limit (project fields <$> found), total),
       record_call (EvFind spec) (record_call (EvCount spec) w))
    /\ ((or_zero skip <= Z.of_nat (length found))%Z ->
        total = Z.of_nat (length found))
    /\ ((Z.of_nat (length found) < or_zero skip)%Z ->
        (limit = None \/ exists l, limit = Some l /\ (0 < l)%Z) ->
        total = or_zero skip
        /\ page skip limit (project fields <$> found) = []).
Proof.
  intros found Hne Hs. subst found. eexists. split_and!.
  - by apply find_and_count_quiet.
  - intros Hle. unfold quiet_total.
    destruct limit as [l|]; [destruct (0 <? l)%Z|]; lia.
  - intros Hlt Hlim. split.
    + unfold quiet_total.
      assert (match limit with None => true | Some l => (0 <? l)%Z end = true)
        as ->; [|lia].
      destruct Hlim as [->|(l & -> & Hl)]; [done|by apply Z.ltb_lt].
    + apply length_zero_iff_nil, Nat2Z.inj.
      match goal with
      | |- context [page skip limit ?l] =>
          change (page skip limit l) with (page_of skip limit l)
      end.
      rewrite page_of_length by done. rewrite length_fmap. cbv zeta.
      change (Z.of_nat 0) with 0%Z.
      destruct Hlim as [->|(l & -> & Hl)]; [lia|].
      rewrite (proj2 (Z.eqb_neq l 0)) by lia. lia.
Qed.

(** ** Listings of stored records *)

Lemma filter_fmap {A} (f : A -> Doc) (p : Doc -> bool) (l : list A) :
  List.filter p (f <$> l) = f <$> List.filter (fun a => p (f a)) l.
Proof.
  induction l as [|a l IH]; [done|].
  rewrite fmap_cons. cbn [List.filter].
  destruct (p (f a)); [rewrite fmap_cons|]; by rewrite IH.
Qed.

Lemma filter_stored {A} (f : A -> Doc) (spec : Spec) (p : A -> bool)
    (l : list A) (ds : list Doc) :
  ds = f <$> l -> (forall a, matches spec (f a) = p a) ->
  List.filter (matches spec) ds = f <$> List.filter p l.
Proof.
  intros -> Hp. rewrite filter_fmap. f_equal. by apply List.filter_ext.
Qed.


Lemma project_all (l : list Doc) : project None <$> l = l.
Proof. induction l as [|d l IH]; [done|]. rewrite fmap_cons. by rewrite IH. Qed.



Lemma matches_all (d : Doc) : matches (∅ : Spec) d = true.
Proof. apply matches_spec. intros k c Hk. by rewrite lookup_empty in Hk. Qed.

Lemma filter_all (l : list Doc) : List.filter (matches (∅ : Spec)) l = l.
Proof.
  induction l as [|d l IH]; [done|].
  cbn [List.filter]. by rewrite matches_all, IH.
Qed.

Lemma page_all {A} (l : list A) : page_of None None l = l.
Proof. done. Qed.

Lemma page_of_nil {A} (skip limit : option Z) : page_of skip limit (@nil A) = [].
Proof.
  unfold page_of. destruct skip as [s|], limit as [n|];
    try destruct (n =? 0)%Z; by rewrite ?drop_nil, ?take_nil.
Qed.

(** A loop over stored documents whose body leaves the world alone. *)
Lemma for_each_stored {A B} (f : Doc -> Q (@World Data) B) (enc : A -> Doc)
    (ok : A -> bool) (g : A -> B) (e : Failure) (l : list A) (w : @World Data) :
  (forall a, f (enc a) w = (if ok a then inr (g a) else inl e, w)) ->
  for_each f (enc <$> l) w
  = (if forallb ok l then inr (g <$> l) else inl e, w).
Proof.
  intros Hf. induction l as [|a l IH]; [done|].
  rewrite !fmap_cons. cbn [for_each forallb]. unfold and_then at 1.
  rewrite Hf. destruct (ok a); [|done]. cbn [andb].
  unfold and_then at 1. rewrite IH. by destruct (forallb ok l).
Qed.

Lemma load_groups (groups : list (@ScimApiGroup Data)) (w : @World Data) :
  for_each
    (fun this =>
       let? group := run (ScimApiGroup_from_dict this) in
       let? graph := run (graphdb_get_group (group_scim_id group)) in
       returns (group_set_graph graph group))
    (ScimApiGroup_to_dict <$> groups) w
  = (inr (with_graph w <$> groups), w).
Proof.
  rewrite (for_each_stored _ ScimApiGroup_to_dict (fun _ => true)
             (with_graph w) AssertionError).
  - by rewrite (proj2 (forallb_forall _ _)).
  - intros g. unfold and_then, run. by rewrite group_from_to_dict.
Qed.

Lemma load_groups_checked (groups : list (@ScimApiGroup Data)) (w : @World Data) :
  for_each
    (fun doc =>
       let? group := run (ScimApiGroup_from_dict doc) in
       let? graph := run (graphdb_get_group (group_scim_id group)) in
       let group := group_set_graph graph group in
       match graph with
       | Some _ => returns group
       | None => fails AssertionError
       end)
    (ScimApiGroup_to_dict <$> groups) w
  = (if forallb (fun g => bool_decide (is_Some (graphdb w !! group_scim_id g)))
          groups
     then inr (with_graph w <$> groups)
     else inl AssertionError, w).
Proof.
  apply (for_each_stored _ ScimApiGroup_to_dict
           (fun g => bool_decide (is_Some (graphdb w !! group_scim_id g)))
           (with_graph w) AssertionError).
  intros g. unfold and_then, run. rewrite group_from_to_dict.
  unfold graphdb_get_group, gets, with_graph.
  change (group_scim_id (group_set_graph None g)) with (group_scim_id g).
  unfold UUID.
  destruct (@lookup string _ _ _ (group_scim_id g) (graphdb w)) as [graph|].
  - by rewrite bool_decide_eq_true_2 by eauto.
  - by rewrite bool_decide_eq_false_2 by (by intros [? ?]).
Qed.

(** X13.  [get_groups] on a collection that holds the documents of
    [groups]: when the graph store has a group under every [scim_id], it
    returns all of them, in stored order, each with its graph attached;
    when it has none for one of them, the assertion fails.  No document
    and no graph is changed. *)
Theorem get_groups_loads_all (groups : list (@ScimApiGroup Data))
    (w : @World Data) :
  docs (coll w) = ScimApiGroup_to_dict <$> groups ->
  (Forall (fun g => is_Some (graphdb w !! group_scim_id g)) groups ->
   (get_groups w).1 = inr (with_graph w <$> groups))
  /\ (Exists (fun g => graphdb w !! group_scim_id g = None) groups ->
      (get_groups w).1 = inl AssertionError)
  /\ coll (get_groups w).2 = coll w
  /\ graphdb (get_groups w).2 = graphdb w.
Proof.
  intros Hdocs.
  assert (get_groups w
          = (if forallb (fun g => bool_decide
                                    (is_Some (graphdb w !! group_scim_id g)))
                  groups
             then inr (with_graph w <$> groups)
             else inl AssertionError,
             record_call (EvFind ∅) w)) as Hrun.
  { unfold get_groups, and_then at 1, run at 1, _get_documents_by_filter.
    rewrite filter_all, Hdocs.
    destruct groups as [|g groups]; [done|].
    rewrite project_all.
    change (page None None (ScimApiGroup_to_dict <$> g :: groups))
      with (ScimApiGroup_to_dict <$> g :: groups).
    apply (load_groups_checked (g :: groups) (record_call (EvFind ∅) w)). }
  rewrite Hrun. cbn [fst snd coll graphdb record_call]. split_and!; try done.
  - intros Hall.
    assert (forallb (fun g => bool_decide
                                (is_Some (graphdb w !! group_scim_id g)))
              groups = true) as ->; [|done].
    apply forallb_forall. intros g Hg. apply bool_decide_eq_true_2.
    rewrite Forall_forall in Hall. by apply Hall, list_elem_of_In.
  - intros Hex.
    assert (forallb (fun g => bool_decide
                                (is_Some (graphdb w !! group_scim_id g)))
              groups = false) as ->; [|done].
    apply not_true_is_false. intros Hall.
    rewrite forallb_forall in Hall. apply Exists_exists in Hex as (g & Hg & Hnone).
    apply list_elem_of_In, Hall, bool_decide_eq_true_1 in Hg as [? ?]. congruence.
Qed.

(** X14.  [get_groups_by_property] for a key that names a field of the
    document itself (no dot in it, which MongoDB would read as a path into
    a sub-document, and no leading dollar sign), on a collection that
    holds the documents of [groups], with a skip that is not negative: it
    returns the page of the groups whose document has [value] under
    [key], in stored order, each with what the graph store has under its
    [scim_id]; a group the graph store does not know comes back with the
    graph [None], without complaint.  It returns the empty list when no
    group has the property. *)
Theorem groups_by_property (groups : list (@ScimApiGroup Data))
    (key value : string) (skip limit : Z) (w : @World Data) :
  field_name key ->
  docs (coll w) = ScimApiGroup_to_dict <$> groups ->
  (0 <= skip)%Z ->
  get_groups_by_property key value skip limit w
  = (inr (with_graph w
            <$> page_of (Some skip) (Some limit)
                  (List.filter
                     (fun g => bool_decide
                                 (ScimApiGroup_to_dict g !! key = Some (VStr value)))
                     groups)),
     record_call (EvFind (<[key := CEq (VStr value)]> ∅)) w).
Proof.
  intros _ Hdocs Hs.
  unfold get_groups_by_property, and_then at 1, run at 1,
    _get_documents_by_filter.
  rewrite (filter_stored ScimApiGroup_to_dict _
             (fun g => bool_decide
                         (ScimApiGroup_to_dict g !! key = Some (VStr value)))
             groups _ Hdocs).
  2:{ intros g. apply eq_true_iff_eq.
      by rewrite matches_attr, bool_decide_eq_true. }
  destruct (List.filter _ groups) as [|g found] eqn:Hf.
  - by rewrite page_of_nil.
  - rewrite fmap_cons, (proj2 (Z.ltb_ge skip 0) Hs). rewrite <- fmap_cons.
    rewrite project_all, page_fmap.
    destruct (page_of (Some skip) (Some limit) (g :: found)) as [|g' page_] eqn:Hp;
      [done|].
    rewrite fmap_cons. rewrite <- fmap_cons.
    apply (load_groups (g' :: page_)
             (record_call (EvFind (<[key := CEq (VStr value)]> ∅)) w)).
Qed.

(** ** resources/users.py: what [_save_user] lets out *)

Lemma violated_index_known (c : @Collection Data) (others : list Doc)
    (d : Doc) (ix : Index) :
  violated_index c others d = Some ix -> ix ∈ id_index :: indexes c.
Proof.
  unfold violated_index. intros [Hin _]%List.find_some.
  by apply list_elem_of_In.
Qed.

(** X15.  [_save_user] never lets a DuplicateKeyError out.  It returns,
    and the user carries the new version and time; or it raises the
    out-of-sync RuntimeError of [save]; or it raises BadRequest for a write
    that an index of the collection refused, with the detail 'externalID
    must be unique' when the server's message contains 'external-id', and
    'Duplicated key error' otherwise.  Whenever it raises, the user in the
    caller's hands and the stored documents are what they were. *)
Theorem _save_user_outcomes (user : @ScimApiUser Data) (w : @World Data) :
  let run := _save_user (user, w) in
  (run.1 = Ok tt /\ run.2.1 = stamped user w)
  \/ (run.1 = Raise (RuntimeError "User out of sync, please retry")
      /\ run.2.1 = user /\ docs (coll run.2.2) = docs (coll w))
  \/ (exists ix,
         ix ∈ id_index :: indexes (coll w)
         /\ run.1
            = Raise (BadRequest
                       (if contains "external-id"
                             (duplicate_key_errmsg (coll w) ix)
                        then "externalID must be unique"
                        else "Duplicated key error"))
         /\ run.2.1 = user /\ docs (coll run.2.2) = docs (coll w)).
Proof.
  intros run. subst run. unfold _save_user, try_except, bind.
  rewrite ScimApiUserDB_save_protocol.
  pose proof (optimistic_save_outcome (H := user_versioned) user w) as Ho.
  remember (optimistic_save (user, w)) as res eqn:Hres. clear Hres.
  destruct Ho as [i old _ _ _ _|_ _|d _ _ _|i old ix _ _ Hix|ix _ Hix].
  - left. done.
  - left. done.
  - right. left. done.
  - right. right. exists ix. apply violated_index_known in Hix.
    split; [done|]. by destruct (contains _ _).
  - right. right. exists ix. apply violated_index_known in Hix.
    split; [done|]. by destruct (contains _ _).
Qed.

(** ** References and their kind *)

Lemma startswith_prefix (p q s : string) :
  startswith (p +:+ q) s = true -> startswith p s = true.
Proof.
  revert s. induction p as [|a p IH]; intros s; [done|].
  destruct s as [|b s]; simpl; [done|].
  intros [Hab Hp]%andb_true_iff. rewrite Hab. by apply IH.
Qed.

Lemma contains_prefix (p q s : string) :
  contains (p +:+ q) s = true -> contains p s = true.
Proof.
  induction s as [|b s IH]; simpl.
  - rewrite !orb_false_r. apply startswith_prefix.
  - intros [Hp|Hs]%orb_true_iff.
    + by rewrite (startswith_prefix _ _ _ Hp).
    + rewrite (IH Hs). apply orb_true_r.
Qed.

Lemma contains_tail (c : Ascii.ascii) (sub s : string) :
  contains (String c sub) s = true -> contains sub s = true.
Proof.
  induction s as [|b s IH]; [by destruct sub|].
  cbn [contains]. intros [Hp|Hs]%orb_true_iff.
  - cbn [startswith] in Hp. apply andb_true_iff in Hp as [_ Hp].
    rewrite (contains_startswith _ _ Hp). apply orb_true_r.
  - rewrite (IH Hs). apply orb_true_r.
Qed.

Lemma is_user_contains (s : SubResource) :
  is_user s = true -> contains "Users" (ref s) = true.
Proof.
  intros [_ Hs]%andb_true_iff.
  apply (contains_prefix "Users" "/"). eapply contains_tail. exact Hs.
Qed.

Lemma is_group_contains (s : SubResource) :
  is_group s = true -> contains "Groups" (ref s) = true.
Proof.
  intros [_ Hs]%andb_true_iff.
  apply (contains_prefix "Groups" "/"). eapply contains_tail. exact Hs.
Qed.

(** An entry that is well read is read by the loop as the kind it is. *)
Lemma well_read_loop (g : GraphGroup) (s : SubResource) :
  well_read g s -> resolvable g s /\ entry_tag s = requested_tag s.
Proof.
  unfold resolvable, entry_tag, requested_tag.
  intros [Hu|(Hg & Hno & Hm)].
  - rewrite Hu, (is_user_contains s Hu). split; [by left|done].
  - assert (is_user s = false) as Hnu.
    { destruct (is_user s) eqn:Hu; [|done].
      apply is_user_contains in Hu. congruence. }
    rewrite Hno, Hnu. split; [|done].
    right. split; [by apply is_group_contains|done].
Qed.

Lemma well_read_describes (g : GraphGroup) (s : SubResource)
    (m : option Member) :
  well_read g s -> same_member s m -> describes s m.
Proof.
  intros Hw. destruct m as [[u|gg]|]; simpl; [| |done].
  - intros (Hu & Hv & Hd). split_and!; try done.
    destruct Hw as [?|(_ & Hno & _)]; [done|congruence].
  - intros (Hu & Hg & Hv & Hd). destruct Hw as [Hw|(? & ? & _)].
    + apply is_user_contains in Hw. congruence.
    + split_and!; try done. destruct (is_user s) eqn:E; [|done].
      apply is_user_contains in E. congruence.
Qed.

(** ** groupdb.py: what [update_group] arrives at *)

Lemma same_member_tag (s : SubResource) (m : option Member) :
  same_member s m -> member_tag m = Some (entry_tag s).
Proof.
  unfold entry_tag. destruct m as [[u|g]|]; simpl; [| |done].
  - by intros (-> & -> & _).
  - by intros (-> & _ & -> & _).
Qed.

Lemma is_member_user_tag (v : string) (m : option Member) :
  is_member_user v m = true <-> member_tag m = Some (true, v).
Proof.
  destruct m as [[u|g]|]; simpl; try (split; [done|by intros [=]]).
  rewrite bool_decide_eq_true. split; [by intros ->|by intros [= ->]].
Qed.

Lemma is_member_group_tag (v : string) (m : option Member) :
  is_member_group v m = true <-> member_tag m = Some (false, v).
Proof.
  destruct m as [[u|g]|]; simpl; try (split; [done|by intros [=]]).
  rewrite bool_decide_eq_true. split; [by intros ->|by intros [= ->]].
Qed.

Lemma lookup_member_spec (p : option Member -> bool) (t : bool * string)
    (g : GraphGroup) :
  (forall m, p m = true <-> member_tag m = Some t) ->
  match lookup_member p g with
  | Some (i, m) => members g !! i = Some (Some m) /\ member_tag (Some m) = Some t
  | None => Some t ∉ member_tag <$> members g
  end.
Proof.
  intros Hp. unfold lookup_member.
  destruct (list_find _ _) as [[i [m|]]|] eqn:Hfind.
  - apply list_find_Some in Hfind as (Hi & Hm & _). split; [done|by apply Hp].
  - apply list_find_Some in Hfind as (_ & Hm & _). by apply Hp in Hm.
  - apply list_find_None in Hfind. intros Hin.
    apply list_elem_of_fmap in Hin as (m & Ht & Hin).
    rewrite Forall_forall in Hfind. apply (Hfind m Hin). by apply Hp.
Qed.

Lemma tags_insert (l : list (option Member)) (i : nat) (m m' : option Member) :
  l !! i = Some m -> member_tag m' = member_tag m ->
  member_tag <$> <[i := m']> l = member_tag <$> l.
Proof.
  intros Hi Ht. rewrite list_fmap_insert, Ht. apply list_insert_id.
  by rewrite list_lookup_fmap, Hi.
Qed.

(** One turn of the loop on an entry it can resolve. *)
Lemma update_group_step_resolves (g : GraphGroup) (s : SubResource)
    (member_changed : bool) (acc : list MemberRef) :
  contains "Users" (ref s) = true
  \/ (contains "Groups" (ref s) = true
      /\ Some (false, value_ s) ∈ member_tag <$> members g) ->
  exists member_changed' r g',
    update_group_step (member_changed, acc, g) s
    = (member_changed', acc ++ [r], g')
    /\ member_tag <$> members g' = member_tag <$> members g
    /\ identifier g' = identifier g /\ display_name g' = display_name g
    /\ same_member s (deref g' r)
    /\ (forall j, member_tag (mjoin (members g !! j)) <> Some (entry_tag s) ->
                  members g' !! j = members g !! j)
    /\ (member_changed' = false ->
        member_changed = false /\ g' = g /\ exists i, r = Stored i).
Proof.
  intros Hres. unfold update_group_step, entry_tag.
  destruct (contains "Users" (ref s)) eqn:Hu.
  - (* a user *)
    unfold get_member_user.
    pose proof (lookup_member_spec _ (true, value_ s) g
                  (is_member_user_tag (value_ s))) as Hl.
    destruct (lookup_member _ g) as [[i m]|].
    + destruct Hl as [Hi Ht]. destruct m as [u|gg]; [|done].
      injection Ht as Hv.
      assert (i < length (members g)) as Hlt by (by eapply lookup_lt_Some).
      destruct (bool_decide _) eqn:Hd.
      * eexists _, _, _. split; [reflexivity|]. split_and!; try done.
        -- cbn [members set_members]. by eapply tags_insert.
        -- cbn [deref members set_members]. rewrite list_lookup_insert_eq by done.
           simpl. by rewrite Hu.
        -- intros j Hj. cbn [members set_members].
           rewrite list_lookup_insert_ne; [done|]. intros <-.
           rewrite Hi in Hj. simpl in Hj. by rewrite Hv in Hj.
      * apply bool_decide_eq_false_1 in Hd. apply dec_stable in Hd.
        eexists _, _, _. split; [reflexivity|]. split_and!; try done.
        -- cbn [deref]. rewrite Hi. simpl. by rewrite Hu.
        -- intros ->. eauto.
    + eexists _, _, _. split; [reflexivity|]. by split_and!.
  - (* a group that is a member *)
    destruct Hres as [?|[Hg Hin]]; [done|]. rewrite Hg.
    unfold get_member_group.
    pose proof (lookup_member_spec _ (false, value_ s) g
                  (is_member_group_tag (value_ s))) as Hl.
    destruct (lookup_member _ g) as [[i m]|]; [|done].
    destruct Hl as [Hi Ht]. destruct m as [u|gg]; [done|].
    injection Ht as Hv.
    assert (i < length (members g)) as Hlt by (by eapply lookup_lt_Some).
    destruct (bool_decide _) eqn:Hd.
    + eexists _, _, _. split; [reflexivity|]. split_and!; try done.
      * cbn [members set_members]. by eapply tags_insert.
      * cbn [deref members set_members]. rewrite list_lookup_insert_eq by done.
        simpl. by rewrite Hu, Hg.
      * intros j Hj. cbn [members set_members].
        rewrite list_lookup_insert_ne; [done|]. intros <-.
        rewrite Hi in Hj. simpl in Hj. by rewrite Hv in Hj.
    + apply bool_decide_eq_false_1 in Hd. apply dec_stable in Hd.
      eexists _, _, _. split; [reflexivity|]. split_and!; try done.
      * cbn [deref]. rewrite Hi. simpl. by rewrite Hu, Hg.
      * intros ->. eauto.
Qed.

(** The loop on entries it can resolve, no two of the same kind and
    identifier: every entry ends up with a member that is as desired. *)
Lemma update_group_loop_resolves (g0 : GraphGroup) (ss : list SubResource) :
  forall (seen : list SubResource) (member_changed : bool)
         (acc : list MemberRef) (g : GraphGroup),
  NoDup (entry_tag <$> seen ++ ss) ->
  Forall (fun s => contains "Users" (ref s) = true
                   \/ (contains "Groups" (ref s) = true
                       /\ Some (false, value_ s) ∈ member_tag <$> members g0))
    ss ->
  member_tag <$> members g = member_tag <$> members g0 ->
  identifier g = identifier g0 -> display_name g = display_name g0 ->
  Forall2 (fun s r => same_member s (deref g r)) seen acc ->
  (member_changed = false ->
   g = g0 /\ Forall (fun r => exists i, r = Stored i) acc) ->
  exists member_changed' acc' g',
    foldl update_group_step (member_changed, acc, g) ss
    = (member_changed', acc', g')
    /\ identifier g' = identifier g0 /\ display_name g' = display_name g0
    /\ Forall2 (fun s r => same_member s (deref g' r)) (seen ++ ss) acc'
    /\ (member_changed' = false ->
        g' = g0 /\ Forall (fun r => exists i, r = Stored i) acc').
Proof.
  induction ss as [|s ss IH]; intros seen mc acc g Hnd Hres Htags Hid Hname Hseen Hquiet.
  - exists mc, acc, g. rewrite app_nil_r. by split_and!.
  - inversion Hres as [|? ? Hs Hss]; subst.
    rewrite <- Htags in Hs.
    destruct (update_group_step_resolves g s mc acc Hs)
      as (mc1 & r & g1 & Hstep & Htags1 & Hid1 & Hname1 & Hsame & Hkeep & Hquiet1).
    cbn [foldl]. rewrite Hstep.
    replace (seen ++ s :: ss) with ((seen ++ [s]) ++ ss) in *
      by (by rewrite <- app_assoc).
    apply (IH (seen ++ [s])); try done; try congruence.
    + apply Forall2_app; [|by repeat constructor].
      assert (Forall (fun s' => entry_tag s' <> entry_tag s) seen) as Hother.
      { rewrite !fmap_app in Hnd. apply NoDup_app in Hnd as [Hnd _].
        apply NoDup_app in Hnd as (_ & Hnd & _).
        apply Forall_forall. intros s' Hin Heq. apply (Hnd (entry_tag s')).
        - apply list_elem_of_fmap. eauto.
        - rewrite Heq. simpl. apply list_elem_of_here. }
      clear -Hseen Hother Hkeep.
      induction Hseen as [|s' r' seen acc Hs' _ IH']; [constructor|].
      inversion Hother as [|? ? Hne Hrest]; subst.
      constructor; [|by apply IH'].
      destruct r' as [j|m|]; [|done|done].
      pose proof (same_member_tag _ _ Hs') as Ht.
      cbn [deref] in *. rewrite Hkeep; [done|].
      rewrite Ht. intros Heq. apply Hne. congruence.
    + intros ->. destruct (Hquiet1 eq_refl) as (-> & -> & i & ->).
      destruct (Hquiet eq_refl) as [-> Hacc]. split; [done|].
      apply Forall_app. split; [done|]. repeat constructor. eauto.
Qed.

(** What [update_group] returns, read off the state its loop ends in. *)
Lemma update_group_result (scim_group : @SCIMGroup Data)
    (db_group r r' : @ScimApiGroup Data) (graph0 g : GraphGroup)
    (member_changed : bool) (acc : list MemberRef) (w w' : @World Data) :
  group_graph db_group = Some graph0 ->
  foldl update_group_step (false, [], graph0) (scim_members scim_group)
  = (member_changed, acc, g) ->
  update_group scim_group (db_group, w) = (Ok r, (r', w')) ->
  r' = r
  /\ group_id r = group_id db_group
  /\ group_scim_id r = group_scim_id db_group
  /\ data (group_extensions r) = scim_nutid_group_v1_data scim_group
  /\ group_graph r
     = Some (MkGraphGroup (identifier g) (scim_display_name scim_group)
               (if member_changed
                   || member_sets_differ (members g) (deref g <$> acc)
                then deref g <$> acc else members g)).
Proof.
  intros Hgraph Hfold. unfold update_group, bind, self, gets; simpl.
  rewrite Hgraph, Hfold.
  assert (forall d, deref (set_display_name d g) <$> acc = deref g <$> acc)
    as Hderef by (intros d; apply list_fmap_ext; by intros ? []).
  destruct (bool_decide (display_name g <> _)) eqn:Hname;
    [|apply bool_decide_eq_false_1, dec_stable in Hname];
    cbn [members set_display_name]; rewrite ?Hderef;
    destruct (member_changed || _);
    destruct (bool_decide (group_extensions db_group <> _)) eqn:Hext;
    try (apply bool_decide_eq_false_1, dec_stable in Hext);
    cbn [fst snd].
  8:{ unfold assign, modify, ret; simpl. intros [= <- <- <-].
      rewrite Hext. destruct g; simpl in *. by rewrite Hname. }
  all: match goal with
       | |- context [ScimApiGroupDB_save (?r0, ?w0)] =>
           rewrite ScimApiGroupDB_save_protocol;
           destruct (optimistic_save (r0, w0)) as [[b|e] [r1 w1]] eqn:Hsave;
           [apply (save_commits (H := group_versioned)) in Hsave
              as (-> & -> & _ & _)
           |cbn [fst snd]; discriminate]
       end.
  all: unfold assign, modify, ret, lift, graphdb_save; simpl.
  all: intros [= <- <- <-]; simpl; rewrite ?Hext.
  all: destruct g; simpl in *; by rewrite ?Hname.
Qed.

Lemma NoDup_fmap_inj_on {A B} (f : A -> B) (l : list A) (x y : A) :
  NoDup (f <$> l) -> x ∈ l -> y ∈ l -> f x = f y -> x = y.
Proof.
  intros Hnd [i Hi]%list_elem_of_lookup_1 [j Hj]%list_elem_of_lookup_1 Heq.
  assert (i = j) as ->.
  { apply (NoDup_lookup (f <$> l) i j (f x)); [done| |].
    - by rewrite list_lookup_fmap, Hi.
    - by rewrite list_lookup_fmap, Hj, Heq. }
  congruence.
Qed.

Lemma resolvable_tag (g : GraphGroup) (s : SubResource) :
  resolvable g s ->
  contains "Users" (ref s) = true
  \/ (contains "Groups" (ref s) = true
      /\ Some (false, value_ s) ∈ member_tag <$> members g).
Proof.
  intros [Hu|[Hg Hsome]]; [by left|right]. split; [done|].
  unfold get_member_group in Hsome.
  pose proof (lookup_member_spec _ (false, value_ s) g
                (is_member_group_tag (value_ s))) as Hl.
  destruct (lookup_member _ g) as [[i m]|]; [|by destruct Hsome].
  destruct Hl as [Hi Ht]. apply list_elem_of_fmap. exists (Some m).
  split; [symmetry; exact Ht|]. by eapply list_elem_of_lookup_2.
Qed.

(** The members the loop arrives at are the desired ones. *)
Lemma desired_members (g : GraphGroup) (ss : list SubResource)
    (acc : list MemberRef) :
  NoDup (entry_tag <$> ss) ->
  Forall2 (fun s r => same_member s (deref g r)) ss acc ->
  Forall2 same_member ss (deref g <$> acc)
  /\ NoDup (member_tag <$> (deref g <$> acc)).
Proof.
  intros Hnd Hsame.
  assert (Forall2 same_member ss (deref g <$> acc)) as Hall
    by (by apply Forall2_fmap_r).
  split; [done|].
  assert (member_tag <$> (deref g <$> acc) = Some <$> (entry_tag <$> ss)) as ->.
  { clear -Hall. induction Hall as [|s m ss ms Hs _ IH]; [done|].
    rewrite !fmap_cons, IH. f_equal. by apply same_member_tag. }
  apply NoDup_fmap_2; [|done]. by intros ? ? [=].
Qed.

(** When the loop saw nothing to change and the identifiers are the
    stored ones, the members it arrived at are the stored members. *)
Lemma stored_members (g : GraphGroup) (ss : list SubResource)
    (acc : list MemberRef) :
  NoDup (member_key <$> members g) ->
  NoDup (entry_tag <$> ss) ->
  Forall2 (fun s r => same_member s (deref g r)) ss acc ->
  Forall (fun r => exists i, r = Stored i) acc ->
  member_sets_differ (members g) (deref g <$> acc) = false ->
  deref g <$> acc ≡ₚ members g.
Proof.
  intros Hkeys Hnd Hsame Hstored Hsets.
  destruct (desired_members g ss acc Hnd Hsame) as [Hall Htags].
  apply bool_decide_eq_false_1, dec_stable in Hsets.
  assert (forall x, x ∈ deref g <$> acc -> x ∈ members g) as Hsub.
  { intros x (r & -> & Hr)%list_elem_of_fmap.
    assert (exists s, same_member s (deref g r)) as [s Hs].
    { clear -Hsame Hr. induction Hsame as [|s r' ss acc Hs _ IH].
      - by apply elem_of_nil in Hr.
      - apply elem_of_cons in Hr as [->|Hr]; [by eauto|by apply IH]. }
    rewrite Forall_forall in Hstored.
    destruct (Hstored r Hr) as [i ->]. cbn [deref] in *.
    destruct (members g !! i) as [x|] eqn:Hi; [|done].
    by eapply list_elem_of_lookup_2. }
  apply NoDup_Permutation.
  - by eapply NoDup_fmap_1.
  - by eapply NoDup_fmap_1.
  - intros x. split; [by apply Hsub|]. intros Hx.
    assert (member_key x ∈ (list_to_set (member_key <$> members g)
                             : gset (option string))) as Hk.
    { apply elem_of_list_to_set, list_elem_of_fmap. eauto. }
    rewrite Hsets in Hk.
    apply elem_of_list_to_set, list_elem_of_fmap in Hk as (y & Hky & Hy).
    assert (x = y) as ->; [|done].
    apply (NoDup_fmap_inj_on member_key (members g)); auto.
Qed.

Lemma tags_of_keys (l : list (option Member)) :
  NoDup (member_key <$> l) -> NoDup (member_tag <$> l).
Proof.
  intros Hnd.
  assert (member_key <$> l
          = (fun t : option (bool * string) => snd <$> t) <$> (member_tag <$> l))
    as Heq.
  { rewrite <- list_fmap_compose. apply list_fmap_ext.
    by intros ? [[u|g]|]. }
  rewrite Heq in Hnd. by eapply NoDup_fmap_1.
Qed.

(** [update_group] on a request it can resolve arrives at the desired
    state. *)
Lemma update_group_desired (scim_group : @SCIMGroup Data)
    (db_group r r' : @ScimApiGroup Data) (graph0 : GraphGroup)
    (w w' : @World Data) :
  group_graph db_group = Some graph0 ->
  NoDup (member_key <$> members graph0) ->
  NoDup (entry_tag <$> scim_members scim_group) ->
  Forall (resolvable graph0) (scim_members scim_group) ->
  update_group scim_group (db_group, w) = (Ok r, (r', w')) ->
  r' = r
  /\ group_id r = group_id db_group
  /\ group_scim_id r = group_scim_id db_group
  /\ exists graph,
       same_state scim_group r graph /\ identifier graph = identifier graph0.
Proof.
  intros Hgraph Hkeys Hnd Hres Hrun.
  assert (Forall (fun s => contains "Users" (ref s) = true
                           \/ (contains "Groups" (ref s) = true
                               /\ Some (false, value_ s)
                                  ∈ member_tag <$> members graph0))
            (scim_members scim_group)) as Hres'.
  { eapply Forall_impl; [exact Hres|]. intros s. apply resolvable_tag. }
  destruct (update_group_loop_resolves graph0 (scim_members scim_group)
              [] false [] graph0 Hnd Hres' eq_refl eq_refl eq_refl
              ltac:(constructor) ltac:(by split; [|constructor]))
    as (mc & acc & g & Hfold & Hid & _ & Hsame & Hquiet).
  cbn [app] in Hsame.
  destruct (update_group_result _ _ _ _ _ _ _ _ _ _ Hgraph Hfold Hrun)
    as (-> & Hrid & Hrsid & Hdata & Hrgraph).
  split_and!; try done.
  destruct (desired_members g _ acc Hnd Hsame) as [Hall Htags].
  exists (MkGraphGroup (identifier g) (scim_display_name scim_group)
            (if mc || member_sets_differ (members g) (deref g <$> acc)
             then deref g <$> acc else members g)).
  split; [|exact Hid].
  split_and!; [exact Hrgraph|reflexivity|by rewrite Hdata| |]; cbn [members].
  - destruct (mc || _) eqn:Hch; [done|].
    apply orb_false_iff in Hch as [-> Hsets].
    destruct (Hquiet eq_refl) as [-> _]. by apply tags_of_keys.
  - destruct (mc || _) eqn:Hch; [by eexists|].
    apply orb_false_iff in Hch as [-> Hsets].
    destruct (Hquiet eq_refl) as [-> Hstored].
    exists (deref graph0 <$> acc). split; [|done].
    by eapply stored_members.
Qed.

(** [save] leaves the display name of a group record alone. *)
Lemma save_keeps_display_name (group : @ScimApiGroup Data) (w : @World Data) :
  group_display_name (optimistic_save (H := group_versioned) (group, w)).2.1
  = group_display_name group.
Proof.
  pose proof (optimistic_save_outcome (H := group_versioned) group w) as Ho.
  remember (optimistic_save (group, w)) as res eqn:Hres. clear Hres.
  by destruct Ho.
Qed.

(** [update_group] never assigns the record's own [display_name], the
    field [to_dict] writes to the document: the name of the request goes
    to the graph only.  However the call ends, the record in the caller's
    hands has the display name it had. *)
Lemma update_group_display_name (scim_group : @SCIMGroup Data)
    (db_group : @ScimApiGroup Data) (w : @World Data) :
  group_display_name (update_group scim_group (db_group, w)).2.1
  = group_display_name db_group.
Proof.
  unfold update_group, bind, self, gets; simpl.
  destruct (group_graph db_group) as [graph|]; [|done].
  destruct (foldl _ _ _) as [[member_changed members_] graph1].
  destruct (bool_decide (display_name graph1 <> _));
    destruct (member_changed || _);
    destruct (bool_decide (group_extensions db_group <> _)); simpl.
  8: done.
  all: match goal with
       | |- context [ScimApiGroupDB_save (?r, ?w0)] =>
           change (ScimApiGroupDB_save (r, w0))
             with (optimistic_save (H := group_versioned) (r, w0));
           pose proof (save_keeps_display_name r w0) as Hn;
           destruct (optimistic_save (r, w0)) as [[[|]|e] [r' w']]
       end.
  all: exact Hn.
Qed.

(** An update to the stored state is a no-op where the loop reads every
    desired entry as the kind it is. *)
Lemma update_group_identical (scim_group : @SCIMGroup Data)
    (db_group : @ScimApiGroup Data) (graph : GraphGroup) (w : @World Data) :
  identical_state scim_group db_group graph ->
  Forall (fun s => contains "Users" (ref s) = is_user s)
    (scim_members scim_group) ->
  update_group scim_group (db_group, w) = (Ok db_group, (db_group, w)).
Proof.
  intros (Hg & _ & Hname & Hdata & Hnd & l & Hperm & Hl) Hread.
  apply (update_group_same _ _ graph). split_and!; try done.
  exists l. split; [done|].
  clear -Hl Hread. induction Hl as [|s m ss ms Hs _ IH]; [constructor|].
  inversion Hread as [|? ? Hr Hrs]; subst. constructor; [|by apply IH].
  destruct m as [[u|g]|]; simpl in *; [| |done].
  - destruct Hs as (Hu & ? & ?). split_and!; try done. by rewrite Hr.
  - destruct Hs as (Hg & Hu & ? & ?).
    split_and!; try done; [by rewrite Hr|by apply is_group_contains].
Qed.

(** X16.  [update_group] brings the graph and the extension data to the
    desired state, and leaves the record's own [display_name] as it was.
    For a request whose entries are users ([is_user]), or groups
    ([is_group], with 'Users' nowhere else in the reference) that are
    members already, no two of the same kind and identifier, and a stored
    graph whose members have distinct identifiers: when [update_group]
    returns, the graph of the record it returns (the caller's [db_group])
    has the desired display name and as members exactly the desired ones,
    each of the desired kind with the desired identifier and label, and
    the record has the desired extension data; key, [scim_id] and the
    graph's identifier are what they were.  The field [display_name] of
    the record, which [to_dict] writes to the document, is never
    assigned: it still holds the name the record had. *)
Theorem update_group_reaches_desired_graph (scim_group : @SCIMGroup Data)
    (db_group r r' : @ScimApiGroup Data) (graph0 : GraphGroup)
    (w w' : @World Data) :
  group_graph db_group = Some graph0 ->
  NoDup (member_key <$> members graph0) ->
  NoDup (requested_tag <$> scim_members scim_group) ->
  Forall (well_read graph0) (scim_members scim_group) ->
  update_group scim_group (db_group, w) = (Ok r, (r', w')) ->
  r' = r
  /\ group_id r = group_id db_group
  /\ group_scim_id r = group_scim_id db_group
  /\ group_display_name r = group_display_name db_group
  /\ data (group_extensions r) = scim_nutid_group_v1_data scim_group
  /\ exists graph,
       group_graph r = Some graph
       /\ identifier graph = identifier graph0
       /\ display_name graph = scim_display_name scim_group
       /\ length (members graph) = length (scim_members scim_group)
       /\ exists l, l ≡ₚ members graph
                    /\ Forall2 describes (scim_members scim_group) l.
Proof.
  intros Hgraph Hkeys Hnd Hread Hrun.
  assert (Forall (resolvable graph0) (scim_members scim_group)) as Hres.
  { eapply Forall_impl; [exact Hread|]. intros s Hs.
    by destruct (well_read_loop _ _ Hs). }
  assert (entry_tag <$> scim_members scim_group
          = requested_tag <$> scim_members scim_group) as Htags.
  { apply Forall_fmap_ext. eapply Forall_impl; [exact Hread|]. intros s Hs.
    by destruct (well_read_loop _ _ Hs). }
  rewrite <- Htags in Hnd.
  pose proof (update_group_display_name scim_group db_group w) as Hkeep.
  rewrite Hrun in Hkeep. cbn [fst snd] in Hkeep.
  destruct (update_group_desired _ _ _ _ _ _ _ Hgraph Hkeys Hnd Hres Hrun)
    as (-> & Hid & Hsid & graph & (Hg & Hname & Hdata & _ & l & Hperm & Hl) & Hgid).
  split_and!; try done. exists graph. split_and!; try done.
  - rewrite <- Hperm. symmetry. by eapply Forall2_length.
  - exists l. split; [done|].
    clear -Hl Hread. induction Hl as [|s m ss ms Hs _ IH]; [constructor|].
    inversion Hread as [|? ? Hr Hrs]; subst. constructor; [|by apply IH].
    by eapply well_read_describes.
Qed.

(** X17.  [update_group] is idempotent.  For a request whose entries the
    loop reads as users, or as groups that are members already, no two
    read as the same kind with the same identifier, and a stored graph
    whose members have distinct identifiers: when it has returned, the
    same request on the record it returned is a no-op; it returns the
    record as it is and makes no call on either store. *)
Theorem update_group_idempotent (scim_group : @SCIMGroup Data)
    (db_group r r' : @ScimApiGroup Data) (graph0 : GraphGroup)
    (w w' : @World Data) :
  group_graph db_group = Some graph0 ->
  NoDup (member_key <$> members graph0) ->
  NoDup (entry_tag <$> scim_members scim_group) ->
  Forall (resolvable graph0) (scim_members scim_group) ->
  update_group scim_group (db_group, w) = (Ok r, (r', w')) ->
  update_group scim_group (r, w') = (Ok r, (r, w')).
Proof.
  intros Hgraph Hkeys Hnd Hres Hrun.
  destruct (update_group_desired _ _ _ _ _ _ _ Hgraph Hkeys Hnd Hres Hrun)
    as (_ & _ & _ & graph & Hsame & _).
  by eapply update_group_same.
Qed.

(** ** schemas/scimbase.py and the loop's reading of a reference *)

(** X18.  What [SubResource.is_user] calls a user, the loop of
    [update_group] reads as a user, and what [is_group] calls a group has
    the loop's mark of a group: a member that [is_user] and that the graph
    does not have is added as a user with its identifier and label.  The
    converse fails: the loop reads a reference as a user's as soon as it
    mentions 'Users' anywhere, so there are members that [is_group], and
    not [is_user], which the loop reads as users. *)
Theorem is_user_is_read_as_user :
  (forall s : SubResource, is_user s = true -> contains "Users" (ref s) = true)
  /\ (forall s : SubResource,
        is_group s = true -> contains "Groups" (ref s) = true)
  /\ (forall (s : SubResource) (g : GraphGroup) (member_changed : bool)
             (acc : list MemberRef),
        is_user s = true -> get_member_user g (value_ s) = None ->
        update_group_step (member_changed, acc, g) s
        = (true,
           acc ++ [Fresh (inl {| user_identifier := value_ s;
                                 user_display_name := display s |})],
           g))
  /\ (exists s : SubResource,
        is_group s = true /\ is_user s = false
        /\ contains "Users" (ref s) = true).
Proof.
  assert (forall s, is_user s = true -> contains "Users" (ref s) = true) as Hu.
  { intros s [_ Hs]%andb_true_iff.
    apply (contains_prefix "Users" "/"). eapply contains_tail. exact Hs. }
  split_and!.
  - exact Hu.
  - intros s [_ Hs]%andb_true_iff.
    apply (contains_prefix "Groups" "/"). eapply contains_tail. exact Hs.
  - intros s g mc acc Hs Hl. apply update_group_step_new_user; [by apply Hu|done].
  - exists {| value_ := "12"; ref := "http://Users.example.org/Groups/12";
              display := "Admins" |}.
    by split_and!.
Qed.

(** ** What a failed write leaves behind *)

(** A [save] that raises leaves the record, the documents and the graph
    store as they were. *)
Lemma save_raises {R : Type} {V : Versioned (Data := Data) R}
    (r r' : R) (w w' : World) (e : Exn) :
  optimistic_save (r, w) = (Raise e, (r', w')) ->
  r' = r /\ docs (coll w') = docs (coll w) /\ graphdb w' = graphdb w
  /\ (e = RuntimeError out_of_sync \/ exists msg, e = DuplicateKeyError msg).
Proof.
  intros Hrun. pose proof (optimistic_save_outcome r w) as Ho.
  rewrite Hrun in Ho. inversion Ho; subst; split_and!; by eauto.
Qed.

(** X19.  [create_group] is not atomic.  It writes the graph store before it
    saves the document: when the save raises (the out-of-sync
    RuntimeError, if the new ObjectId is taken, or DuplicateKeyError),
    [create_group] raises the same, no document was added, and the graph
    store holds the new group's graph all the same. *)
Theorem create_group_fails_after_graph_write (scim_group : @SCIMGroup Data)
    (w w' : @World Data) (e : Exn) :
  create_group scim_group w = (Raise e, w') ->
  docs (coll w') = docs (coll w)
  /\ graphdb w'
     = <[pretty (next_uuid w)
         := MkGraphGroup (pretty (next_uuid w)) (scim_display_name scim_group) []]>
         (graphdb w)
  /\ (e = RuntimeError "User out of sync, please retry"
      \/ exists msg, e = DuplicateKeyError msg).
Proof.
  rewrite create_group_save, ScimApiGroupDB_save_protocol.
  destruct (optimistic_save _) as [[ok|e0] [r1 w1]] eqn:Hsave; [done|].
  apply (save_raises (V := group_versioned)) in Hsave as (_ & Hdocs & Hg & He).
  cbn [fst snd]. intros [= <- <-]. by split_and!.
Qed.

(** What an [update_group] that raises leaves behind. *)
Lemma update_group_raised (scim_group : @SCIMGroup Data)
    (db_group r' : @ScimApiGroup Data) (graph0 : GraphGroup)
    (w w' : @World Data) (e : Exn) :
  group_graph db_group = Some graph0 ->
  update_group scim_group (db_group, w) = (Raise e, (r', w')) ->
  docs (coll w') = docs (coll w) /\ graphdb w' = graphdb w
  /\ group_version r' = group_version db_group
  /\ group_last_modified r' = group_last_modified db_group
  /\ data (group_extensions r') = scim_nutid_group_v1_data scim_group
  /\ (exists graph,
         group_graph r' = Some graph
         /\ identifier graph = identifier graph0
         /\ display_name graph = scim_display_name scim_group)
  /\ (e = RuntimeError "User out of sync, please retry"
      \/ exists msg, e = DuplicateKeyError msg).
Proof.
  intros Hgraph. unfold update_group, bind, self, gets; simpl.
  rewrite Hgraph.
  assert (exists mc acc g,
             foldl update_group_step (false, [], graph0) (scim_members scim_group)
             = (mc, acc, g) /\ identifier g = identifier graph0)
    as (mc & acc & g & -> & Hid).
  { generalize (@nil MemberRef) false.
    assert (forall ss (g : GraphGroup) (acc : list MemberRef) (mc : bool),
               exists mc' acc' g',
                 foldl update_group_step (mc, acc, g) ss = (mc', acc', g')
                 /\ identifier g' = identifier g) as Hloop.
    { induction ss as [|s ss IH]; intros g acc mc; [by eauto|].
      cbn [foldl].
      assert (exists mc1 acc1 g1,
                 update_group_step (mc, acc, g) s = (mc1, acc1, g1)
                 /\ identifier g1 = identifier g) as (mc1 & acc1 & g1 & -> & Hg1).
      { unfold update_group_step.
        destruct (if contains "Users" (ref s) then _ else _)
          as [[uu gu] [[i m]|]];
          [destruct (bool_decide _)|]; by eauto. }
      destruct (IH g1 acc1 mc1) as (mc' & acc' & g' & -> & Hg').
      eexists _, _, _. split; [done|congruence]. }
    intros acc mc. apply Hloop. }
  destruct (bool_decide (display_name g <> _)) eqn:Hname;
    [|apply bool_decide_eq_false_1, dec_stable in Hname];
    destruct (mc || _);
    destruct (bool_decide (group_extensions db_group <> _)) eqn:Hext;
    try (apply bool_decide_eq_false_1, dec_stable in Hext);
    cbn [fst snd].
  8:{ unfold assign, modify, ret; simpl. discriminate. }
  all: match goal with
       | |- context [ScimApiGroupDB_save (?r0, ?w0)] =>
           rewrite ScimApiGroupDB_save_protocol;
           destruct (optimistic_save (r0, w0)) as [[b|e0] [r1 w1]] eqn:Hsave;
           [destruct b; unfold lift, graphdb_save, assign, modify, ret;
            cbn [fst snd]; discriminate
           |apply (save_raises (V := group_versioned)) in Hsave
              as (-> & Hdocs & Hg & He)]
       end.
  all: cbn [fst snd]; intros [= <- <- <-]; simpl; rewrite ?Hext.
  all: split_and!; try done; eexists; split_and!; try reflexivity; done.
Qed.

(** X20.  [update_group] changes the caller's record before it saves it.
    When the save raises, nothing was stored (the documents and the graph
    store are as before, and the record keeps its version and time), but
    the record in the caller's hands already has the desired extension
    data, and its graph already has the desired display name.  The
    record's own [display_name] is not touched: it is the name the record
    had. *)
Theorem update_group_fails_after_assignment (scim_group : @SCIMGroup Data)
    (db_group r' : @ScimApiGroup Data) (graph0 : GraphGroup)
    (w w' : @World Data) (e : Exn) :
  group_graph db_group = Some graph0 ->
  update_group scim_group (db_group, w) = (Raise e, (r', w')) ->
  docs (coll w') = docs (coll w) /\ graphdb w' = graphdb w
  /\ group_version r' = group_version db_group
  /\ group_last_modified r' = group_last_modified db_group
  /\ group_display_name r' = group_display_name db_group
  /\ data (group_extensions r') = scim_nutid_group_v1_data scim_group
  /\ (exists graph,
         group_graph r' = Some graph
         /\ identifier graph = identifier graph0
         /\ display_name graph = scim_display_name scim_group)
  /\ (e = RuntimeError "User out of sync, please retry"
      \/ exists msg, e = DuplicateKeyError msg).
Proof.
  intros Hgraph Hrun.
  pose proof (update_group_display_name scim_group db_group w) as Hkeep.
  rewrite Hrun in Hkeep. cbn [fst snd] in Hkeep.
  destruct (update_group_raised _ _ _ _ _ _ _ Hgraph Hrun)
    as (Hdocs & Hg & Hver & Hlm & Hdata & Hname & He).
  by split_and!.
Qed.

(** ** The version field, there and back *)

Lemma all_chars_app (p : Ascii.ascii -> bool) (s t : string) :
  all_chars p (s +:+ t) = all_chars p s && all_chars p t.
Proof. induction s as [|c s IH]; simpl; [done|]. by rewrite IH, andb_assoc. Qed.

Lemma hex_value_digit (n : N) : (n < 16)%N -> hex_value (hex_digit n) = Some n.
Proof.
  intros Hn. unfold hex_value, hex_digit.
  rewrite Ascii.N_ascii_embedding by (destruct (n <? 10)%N; lia).
  destruct (n <? 10)%N eqn:Hten;
    [apply N.ltb_lt in Hten|apply N.ltb_ge in Hten].
  - rewrite (proj2 (N.leb_le 48 (48 + n))) by lia.
    rewrite (proj2 (N.leb_le (48 + n) 57)) by lia.
    cbn [andb]. f_equal. lia.
  - rewrite (proj2 (N.leb_gt (87 + n) 57)) by lia. rewrite andb_false_r.
    rewrite (proj2 (N.leb_le 97 (87 + n))) by lia.
    rewrite (proj2 (N.leb_le (87 + n) 102)) by lia.
    cbn [andb]. f_equal. lia.
Qed.

Lemma hex_of_is_hex (d : nat) (n : N) : all_chars is_hex (hex_of d n) = true.
Proof.
  revert n. induction d as [|d IH]; intros n; [done|].
  cbn [hex_of]. rewrite all_chars_app, IH. cbn [all_chars andb].
  unfold is_hex. rewrite hex_value_digit; [done|].
  apply N.mod_lt. done.
Qed.

Lemma length_append (s t : string) :
  String.length (s +:+ t) = String.length s + String.length t.
Proof.
  induction s as [|c s IH]; [done|].
  change (String c s +:+ t) with (String c (s +:+ t)). simpl. by rewrite IH.
Qed.

Lemma append_assoc (s t u : string) : (s +:+ t) +:+ u = s +:+ (t +:+ u).
Proof.
  induction s as [|c s IH]; [done|].
  change ((String c s +:+ t) +:+ u) with (String c ((s +:+ t) +:+ u)).
  by rewrite IH.
Qed.

Lemma hex_of_length (d : nat) (n : N) : String.length (hex_of d n) = d.
Proof.
  revert n. induction d as [|d IH]; intros n; [done|].
  cbn [hex_of]. rewrite length_append, IH. simpl. lia.
Qed.

Lemma unhex_app (acc : N) (s t : string) :
  unhex acc (s +:+ t) = unhex acc s ≫= fun a => unhex a t.
Proof.
  revert acc. induction s as [|c s IH]; intros acc; simpl; [done|].
  destruct (hex_value c); [apply IH|done].
Qed.

Lemma unhex_hex_of (d : nat) (n acc : N) :
  unhex acc (hex_of d n) = Some (acc * 16 ^ N.of_nat d + n mod 16 ^ N.of_nat d)%N.
Proof.
  revert n acc. induction d as [|d IH]; intros n acc.
  - simpl. f_equal. rewrite N.mod_1_r. lia.
  - cbn [hex_of]. rewrite unhex_app, IH. cbn [mbind option_bind unhex].
    rewrite hex_value_digit by (by apply N.mod_lt). f_equal.
    rewrite Nat2N.inj_succ, N.pow_succ_r'.
    rewrite (N.Div0.mod_mul_r n 16 (16 ^ N.of_nat d)). lia.
Qed.

Lemma ObjectId_of_str_str (o : ObjectId) :
  (o < 2 ^ 96)%N -> ObjectId_of_str (ObjectId_str o) = Some o.
Proof.
  intros Ho. unfold ObjectId_of_str, ObjectId_str.
  rewrite hex_of_length, Nat.eqb_refl, unhex_hex_of. f_equal.
  change (16 ^ N.of_nat 24)%N with (2 ^ 96)%N.
  rewrite N.mod_small by done. lia.
Qed.

Lemma all_chars_impl (p q : Ascii.ascii -> bool) (s : string) :
  (forall c, p c = true -> q c = true) ->
  all_chars p s = true -> all_chars q s = true.
Proof.
  intros Hpq. induction s as [|c s IH]; simpl; [done|].
  intros [Hc Hs]%andb_true_iff. by rewrite (Hpq c Hc), IH.
Qed.

Lemma hex_not_etag (c : Ascii.ascii) :
  is_hex c = true -> negb (in_chars c ("W/" +:+ dquote)) = true.
Proof.
  intros Hc. apply negb_true_iff. apply not_true_is_false. intros Hin.
  simpl in Hin. rewrite orb_false_r in Hin.
  apply orb_true_iff in Hin as [Hin|Hin];
    [|apply orb_true_iff in Hin as [Hin|Hin]];
    apply bool_decide_eq_true_1 in Hin; subst c; vm_compute in Hc;
    discriminate.
Qed.

Lemma hex_not_quote (c : Ascii.ascii) :
  is_hex c = true -> negb (in_chars c dquote) = true.
Proof.
  intros Hc. apply negb_true_iff. apply not_true_is_false. intros Hin.
  simpl in Hin. rewrite orb_false_r in Hin.
  apply bool_decide_eq_true_1 in Hin; subst c; vm_compute in Hc;
    discriminate.
Qed.

Lemma lstrip_junk (chars junk s : string) :
  all_chars (fun c => in_chars c chars) junk = true ->
  lstrip chars (junk +:+ s) = lstrip chars s.
Proof.
  intros Hj. induction junk as [|c junk IH]; [done|].
  change (String c junk +:+ s) with (String c (junk +:+ s)).
  simpl in *. apply andb_true_iff in Hj as [-> Hj]. by apply IH.
Qed.

Lemma lstrip_hex (d : nat) (n : N) (rest : string) :
  lstrip ("W/" +:+ dquote) (hex_of (S d) n +:+ rest) = hex_of (S d) n +:+ rest.
Proof.
  pose proof (hex_of_is_hex (S d) n) as Hhex.
  destruct (hex_of (S d) n) as [|c s] eqn:Hs.
  - pose proof (hex_of_length (S d) n) as Hlen. by rewrite Hs in Hlen.
  - change (String c s +:+ rest) with (String c (s +:+ rest)).
    simpl in Hhex. apply andb_true_iff in Hhex as [Hc _].
    cbn [lstrip]. apply hex_not_etag, negb_true_iff in Hc. by rewrite Hc.
Qed.

Lemma rstrip_all (chars junk : string) :
  all_chars (fun c => in_chars c chars) junk = true -> rstrip chars junk = "".
Proof.
  induction junk as [|c junk IH]; simpl; [done|].
  intros [-> Hj]%andb_true_iff. by rewrite IH.
Qed.

Lemma rstrip_junk (chars s junk : string) :
  all_chars (fun c => negb (in_chars c chars)) s = true ->
  all_chars (fun c => in_chars c chars) junk = true ->
  rstrip chars (s +:+ junk) = s.
Proof.
  intros Hs Hj. induction s as [|c s IH]; simpl in *.
  - by apply rstrip_all.
  - apply andb_true_iff in Hs as [Hc Hs]. apply negb_true_iff in Hc.
    rewrite IH by done. rewrite Hc. by destruct s.
Qed.

(** X21.  The version field reads back what it writes: for every ObjectId
    (a 96-bit number), [_deserialize] of the entity tag [_serialize]
    makes is that ObjectId, and so is [_deserialize] of the bare 24
    hexadecimal digits.  It is lenient about the wrapping: after the
    opening W/ and double quote, any run of the characters W, / and
    double quote before the digits, and any run of double quotes after
    them, is stripped as well. *)
Theorem version_field_round_trip (o : ObjectId) :
  (o < 2 ^ 96)%N ->
  VersionField_deserialize (VersionField_serialize o) = inr o
  /\ VersionField_deserialize (ObjectId_str o) = inr o
  /\ (forall junk quotes : string,
        all_chars (fun c => in_chars c ("W/" +:+ dquote)) junk = true ->
        all_chars (fun c => in_chars c dquote) quotes = true ->
        VersionField_deserialize
          ("W/" +:+ dquote +:+ junk +:+ ObjectId_str o +:+ quotes)
        = inr o).
Proof.
  intros Ho.
  assert (forall junk quotes : string,
            all_chars (fun c => in_chars c ("W/" +:+ dquote)) junk = true ->
            all_chars (fun c => in_chars c dquote) quotes = true ->
            VersionField_deserialize
              ("W/" +:+ dquote +:+ junk +:+ ObjectId_str o +:+ quotes)
            = inr o) as Hlenient.
  { intros junk quotes Hj Hq. unfold VersionField_deserialize.
    change ("W/" +:+ dquote +:+ junk +:+ ObjectId_str o +:+ quotes)
      with (("W/" +:+ dquote) +:+ (junk +:+ ObjectId_str o +:+ quotes)).
    rewrite startswith_app.
    assert (("W/" +:+ dquote) +:+ (junk +:+ ObjectId_str o +:+ quotes)
            = (("W/" +:+ dquote) +:+ junk) +:+ (ObjectId_str o +:+ quotes)) as ->.
    { by rewrite !append_assoc. }
    rewrite lstrip_junk by (rewrite all_chars_app, Hj; reflexivity).
    unfold ObjectId_str. rewrite lstrip_hex.
    rewrite rstrip_junk; [fold (ObjectId_str o); by rewrite ObjectId_of_str_str| |done].
    eapply all_chars_impl; [apply hex_not_quote|apply hex_of_is_hex]. }
  split_and!; [|..].
  - apply (Hlenient "" dquote); reflexivity.
  - unfold VersionField_deserialize.
    assert (startswith ("W/" +:+ dquote) (ObjectId_str o) = false) as ->.
    { pose proof (hex_of_is_hex 24 o) as Hhex. unfold ObjectId_str.
      destruct (hex_of 24 o) as [|c s]; [done|]. simpl in *.
      apply andb_true_iff in Hhex as [Hc _].
      rewrite bool_decide_eq_false_2; [done|]. intros <-. discriminate. }
    by rewrite ObjectId_of_str_str.
  - exact Hlenient.
Qed.

End Reading.

(** * The reconciler on a request that describes the stored state *)

(** C4.  A desired state that is the stored state, and is written all the
    same.  The stored group Staff has one member, the group Admins with
    identifier 12.  The request has the stored display name and extension
    data and one entry, with that identifier and label, whose reference
    http://Users.example.org/Groups/12 is that of a group: [is_group]
    holds of it and [is_user] does not.  The loop of [update_group] tests
    for 'Users' anywhere in the reference, reads the entry as a user, finds
    no user 12 among the members and marks the membership as changed: the
    document is replaced under a new version, and the graph store is
    handed the group with the user 12 in the place of the group 12. *)
Theorem identical_state_is_rewritten :
  let entry :=
    {| value_ := "12"; ref := "http://Users.example.org/Groups/12";
       display := "Admins" |} in
  let graph := MkGraphGroup "3" "Staff" [Some (inr admins)] in
  let db_group := group_set_graph (Some graph) (sample_group 9%N) in
  let w :=
    set_graphdb (<["3" := graph]> ∅)
      (with_docs [ScimApiGroup_to_dict db_group] group_store) in
  let as_user :=
    MkGraphGroup "3" "Staff"
      [Some (inl {| user_identifier := "12"; user_display_name := "Admins" |})] in
  let written :=
    group_set_graph (Some as_user)
      (group_set_last_modified 5000%Z (group_set_version 100%N db_group)) in
  is_group entry = true /\ is_user entry = false
  /\ identical_state (group_request [entry]) db_group graph
  /\ update_group (group_request [entry]) (db_group, w)
     = (Ok written,
        (written,
         {| coll := set_docs [ScimApiGroup_to_dict written] (coll w);
            graphdb := <["3" := as_user]> ∅;
            next_oid := 101%N; next_uuid := 7%N; clock := 5000%Z;
            journal := [EvReplaceOne (ScimApiGroup_to_dict written) 1;
                        EvGraphSave as_user] |})).
Proof.
  split_and!; try reflexivity.
  split_and!; try reflexivity.
  - apply NoDup_singleton.
  - exists [Some (inr admins)]. split; [done|]. by repeat constructor.
Qed.

(** * The further properties on concrete stores *)

(** X1 on a stored group saved from the version it is stored under, and on
    a stored invite likewise. *)
Lemma current_writer_wins_witness :
  let w := with_docs [ScimApiGroup_to_dict (sample_group 9%N)] group_store in
  let wi :=
    with_docs [ScimApiInvite_to_dict (sample_invite 1%N "a" (Some "x") 9%N)]
      invite_store in
  (ScimApiGroupDB_save (sample_group 9%N, w)).1 = Ok true
  /\ length (docs (coll (ScimApiGroupDB_save (sample_group 9%N, w)).2.2)) = 1
  /\ (ScimApiInviteDB_save (sample_invite 1%N "a" (Some "x") 9%N, wi)).1
     = Ok true.
Proof.
  intros w wi. destruct (@current_writer_wins string _) as [Hg Hi].
  pose proof (Hg (sample_group 9%N) w 0 (ScimApiGroup_to_dict (sample_group 9%N))
                eq_refl (unique_ids_singleton _) eq_refl eq_refl eq_refl eq_refl)
    as Hrun.
  specialize (Hi (sample_invite 1%N "a" (Some "x") 9%N) wi 0
                (ScimApiInvite_to_dict (sample_invite 1%N "a" (Some "x") 9%N))
                (unique_ids_singleton _) eq_refl eq_refl eq_refl eq_refl).
  assert (violated_index (coll wi) (delete 0 (docs (coll wi)))
            (new_doc (sample_invite 1%N "a" (Some "x") 9%N) wi) = None) as E
    by reflexivity.
  rewrite E in Hi. rewrite Hrun, Hi. split_and!; reflexivity.
Defined.

(** The first save of a group: what it returns and the store it leaves. *)
Definition staff_saved : @ScimApiGroup string :=
  group_set_last_modified 5000%Z (group_set_version 100%N (sample_group 9%N)).
Definition staff_stored : @World string :=
  {| coll := set_docs [ScimApiGroup_to_dict staff_saved] (coll group_store);
     graphdb := ∅; next_oid := 101%N; next_uuid := 7%N; clock := 5000%Z;
     journal := [EvReplaceOne (ScimApiGroup_to_dict staff_saved) 0;
                 EvFindOne (<["_id" := CEq (VOid 1%N)]> ∅);
                 EvInsertOne (ScimApiGroup_to_dict staff_saved)] |}.

Lemma staff_is_saved :
  ScimApiGroupDB_save (sample_group 9%N, group_store)
  = (Ok true, (staff_saved, staff_stored)).
Proof. reflexivity. Qed.

Lemma no_ids_yet : unique_ids (docs (coll group_store)).
Proof. by intros [|?] [|?]. Qed.

(** X2 on a group saved twice from the same copy. *)
Lemma stale_writer_is_refused_witness :
  (ScimApiGroupDB_save (sample_group 9%N, staff_stored)).1
  = Raise (RuntimeError "User out of sync, please retry").
Proof.
  by rewrite (proj1 (@stale_writer_is_refused string _)
                (sample_group 9%N) staff_saved group_store staff_stored true
                no_ids_yet eq_refl staff_is_saved).
Defined.

(** X3 on a group saved, and saved again from the record the first save
    left. *)
Lemma saved_record_saves_again_witness :
  (ScimApiGroupDB_save (staff_saved, staff_stored)).1 = Ok true.
Proof.
  destruct (proj1 (@saved_record_saves_again string _)
              (sample_group 9%N) staff_saved group_store staff_stored true
              no_ids_yet ltac:(constructor) staff_is_saved)
    as (i & _ & Hrun2).
  by rewrite Hrun2.
Defined.

(** Documents with distinct keys. *)
Lemma distinct_ids (l : list (gmap string (@value string))) :
  NoDup ((fun d => d !! "_id") <$> l) -> unique_ids l.
Proof.
  intros Hnd i j d d' o Hi Hj Hd Hd'.
  unfold has_id in Hd, Hd'.
  apply (NoDup_lookup _ i j (Some (VOid o)) Hnd); rewrite list_lookup_fmap.
  - rewrite Hi. simpl. by rewrite Hd.
  - rewrite Hj. simpl. by rewrite Hd'.
Qed.

(** A second stored group, and the group collection with the two. *)
Definition admins_group : @ScimApiGroup string :=
  {| group_display_name := "Admins"; group_id := 2%N; group_scim_id := "12";
     group_version := 9%N; group_created := 4000%Z;
     group_last_modified := 4000%Z; group_extensions := {| data := "{}" |};
     group_graph := Some admins |}.
Definition two_groups : @World string :=
  with_docs [ScimApiGroup_to_dict (sample_group 9%N);
             ScimApiGroup_to_dict admins_group] group_store.

(** X4 on collections of several documents: a replace among two groups,
    an insert next to them, a save from a stale copy; an insert next to
    three invites, and one that an index refuses. *)
Lemma save_keeps_ids_unique_witness :
  let third :=
    {| group_display_name := "Guests"; group_id := 3%N; group_scim_id := "13";
       group_version := 9%N; group_created := 4000%Z;
       group_last_modified := 4000%Z; group_extensions := {| data := "{}" |};
       group_graph := None |} in
  let replaced := ScimApiGroupDB_save (admins_group, two_groups) in
  let inserted := ScimApiGroupDB_save (third, two_groups) in
  let stale := ScimApiGroupDB_save (sample_group 8%N, two_groups) in
  let fourth :=
    ScimApiInviteDB_save (sample_invite 4%N "d" (Some "z") 9%N, three_invites) in
  let refused :=
    ScimApiInviteDB_save (sample_invite 5%N "e" (Some "x") 9%N, three_invites) in
  unique_ids (docs (coll two_groups))
  /\ (replaced.1 = Ok true /\ length (docs (coll replaced.2.2)) = 2
      /\ unique_ids (docs (coll replaced.2.2)))
  /\ (inserted.1 = Ok true /\ length (docs (coll inserted.2.2)) = 3
      /\ unique_ids (docs (coll inserted.2.2)))
  /\ (stale.1 = Raise (RuntimeError "User out of sync, please retry")
      /\ unique_ids (docs (coll stale.2.2)))
  /\ (fourth.1 = Ok true /\ length (docs (coll fourth.2.2)) = 4
      /\ unique_ids (docs (coll fourth.2.2)))
  /\ (length (docs (coll refused.2.2)) = 3
      /\ unique_ids (docs (coll refused.2.2))).
Proof.
  intros third replaced inserted stale fourth refused.
  assert (unique_ids (docs (coll two_groups))) as Hgroups.
  { apply distinct_ids. apply (bool_decide_unpack _). vm_compute. exact I. }
  assert (unique_ids (docs (coll three_invites))) as Hinvites.
  { apply distinct_ids. apply (bool_decide_unpack _). vm_compute. exact I. }
  destruct (@save_keeps_ids_unique string _) as [Hg Hi].
  split_and!; try reflexivity.
  - exact Hgroups.
  - exact (Hg admins_group two_groups Hgroups).
  - exact (Hg third two_groups Hgroups).
  - exact (Hg (sample_group 8%N) two_groups Hgroups).
  - exact (Hi (sample_invite 4%N "d" (Some "z") 9%N) three_invites Hinvites).
  - exact (Hi (sample_invite 5%N "e" (Some "x") 9%N) three_invites Hinvites).
Defined.

(** The invite collection and the group collection at a time between two
    milliseconds. *)
Definition invite_store_250 : @World string :=
  {| coll := coll invite_store; graphdb := ∅; next_oid := 100%N;
     next_uuid := 7%N; clock := 5250%Z; journal := journal invite_store |}.
Definition group_store_250 : @World string :=
  {| coll := coll group_store; graphdb := ∅; next_oid := 100%N;
     next_uuid := 7%N; clock := 5250%Z; journal := [] |}.

(** X7 on the first save of an invite, at 5250 microseconds (read back
    with 5000) and at 5000 (read back as it is). *)
Lemma saved_invite_is_found_witness :
  let invite := sample_invite 1%N "a" (Some "x") 9%N in
  let run := ScimApiInviteDB_save (invite, invite_store_250) in
  let run' := ScimApiInviteDB_save (invite, invite_store) in
  run.1 = Ok true
  /\ invite_last_modified run.2.1 = 5250%Z
  /\ (get_invite_by_scim_id "" "a" run.2.2).1
     = inr (Some (invite_set_last_modified 5000%Z run.2.1))
  /\ (invite_exists "a" run.2.2).1 = Ok true
  /\ (get_invite_by_scim_id "" "a" run'.2.2).1 = inr (Some run'.2.1).
Proof.
  intros invite run run'.
  pose proof (save_absent (H := invite_versioned) invite invite_store_250
                ltac:(constructor)) as Hrun.
  assert (violated_index (coll invite_store_250) (docs (coll invite_store_250))
            (new_doc invite invite_store_250) = None) as E by reflexivity.
  rewrite E in Hrun. rewrite <- ScimApiInviteDB_save_protocol in Hrun.
  destruct (saved_invite_is_found "" invite _ invite_store_250 _ true
              eq_refl Hrun) as (Hget & Hex & _ & _).
  pose proof (save_absent (H := invite_versioned) invite invite_store
                ltac:(constructor)) as Hrun'.
  assert (violated_index (coll invite_store) (docs (coll invite_store))
            (new_doc invite invite_store) = None) as E' by reflexivity.
  rewrite E' in Hrun'. rewrite <- ScimApiInviteDB_save_protocol in Hrun'.
  destruct (saved_invite_is_found "" invite _ invite_store _ true
              eq_refl Hrun') as (Hget' & _ & _ & Hsame).
  rewrite (proj2 Hsame) in Hget' by (split_and!; [reflexivity..|by intros ? [=]]).
  subst run run'. rewrite Hrun, Hrun'. cbn [fst snd].
  split_and!; [reflexivity|reflexivity|exact (f_equal fst Hget)
              |exact (f_equal fst Hex)|exact (f_equal fst Hget')].
Defined.

(** X8 on the first group of a data owner, created at 5250 microseconds
    (read back with 5000) and at 5000 (read back as it is). *)
Lemma created_group_is_found_witness :
  (exists group w' found,
      create_group (group_request []) group_store_250 = (Ok group, w')
      /\ group_scim_id group = "7"
      /\ (get_group_by_scim_id "{}" "7" w').1 = inr (Some found)
      /\ group_created found = 5000%Z /\ group_last_modified found = 5000%Z
      /\ group_version found = group_version group
      /\ group_graph found = group_graph group
      /\ found <> group)
  /\ (exists group w',
        create_group (group_request []) group_store = (Ok group, w')
        /\ (get_group_by_scim_id "{}" "7" w').1 = inr (Some group)).
Proof.
  split.
  - destruct (created_group_is_found "{}" (group_request []) group_store_250
                eq_refl ltac:(constructor) ltac:(constructor))
      as (group & w' & Hrun & Hsid & _ & Hget & Hcr & Hlm & Hsame).
    exists group, w', (group_read_back group).
    change (pretty (next_uuid group_store_250)) with "7" in Hsid.
    rewrite Hsid in Hget. rewrite Hget.
    split_and!; [exact Hrun|exact Hsid|reflexivity|exact Hcr|exact Hlm
                |reflexivity|reflexivity|].
    intros Heq. apply Hsame in Heq. vm_compute in Heq. discriminate.
  - destruct (created_group_is_found "{}" (group_request []) group_store
                eq_refl ltac:(constructor) ltac:(constructor))
      as (group & w' & Hrun & Hsid & _ & Hget & _ & _ & Hsame).
    exists group, w'. split; [exact Hrun|].
    change (pretty (next_uuid group_store)) with "7" in Hsid.
    rewrite Hsid in Hget. rewrite Hget. cbn [fst].
    by rewrite (proj2 Hsame).
Defined.

(** Documents filed under distinct keys of an index. *)
Lemma distinct_entries (ix : Index) (l : list (gmap string (@value string))) :
  NoDup (index_entry ix <$> l) -> index_respected ix l.
Proof.
  intros Hnd i j d d' v Hi Hj Hd Hd'.
  apply (NoDup_lookup _ i j (Some v) Hnd); rewrite list_lookup_fmap.
  - rewrite Hi. simpl. by rewrite Hd.
  - rewrite Hj. simpl. by rewrite Hd'.
Qed.

Definition unique_scimid : Index :=
  {| ix_name := "unique-scimid"; ix_key := "scim_id";
     ix_unique := true; ix_sparse := false |}.

(** X10 on the collection of three invites: a fourth invite is inserted
    next to them, a fifth with the [scim_id] of the first is refused, and
    the index on [scim_id] is respected after both; the lookup by
    [scim_id] in the collection of four finds the one invite. *)
Lemma save_keeps_unique_indexes_witness :
  let fourth :=
    ScimApiInviteDB_save (sample_invite 4%N "d" (Some "z") 9%N, three_invites) in
  let refused :=
    ScimApiInviteDB_save (sample_invite 5%N "a" (Some "w") 9%N, three_invites) in
  index_respected unique_scimid (docs (coll three_invites))
  /\ (fourth.1 = Ok true /\ length (docs (coll fourth.2.2)) = 4
      /\ index_respected unique_scimid (docs (coll fourth.2.2)))
  /\ (refused.1
      = Raise (DuplicateKeyError
                 (duplicate_key_errmsg (coll three_invites) unique_scimid))
      /\ length (docs (coll refused.2.2)) = 3
      /\ index_respected unique_scimid (docs (coll refused.2.2)))
  /\ (get_invite_by_scim_id "" "b" fourth.2.2).1
     <> inl MultipleDocumentsReturned
  /\ (get_invite_by_scim_id "" "b" fourth.2.2).1
     = inr (Some (sample_invite 2%N "b" (Some "x") 8%N)).
Proof.
  intros fourth refused.
  assert (unique_scimid ∈ indexes (coll three_invites)) as Hix
    by apply list_elem_of_here.
  assert (index_respected unique_scimid (docs (coll three_invites))) as Hinv.
  { apply distinct_entries. apply (bool_decide_unpack _). vm_compute. exact I. }
  destruct (@save_keeps_unique_indexes string _ "") as [Hsave Hfind].
  pose proof (Hsave (sample_invite 4%N "d" (Some "z") 9%N) three_invites
                unique_scimid Hix eq_refl Hinv) as Hfourth.
  split_and!; try reflexivity.
  - exact Hinv.
  - exact Hfourth.
  - exact (Hsave (sample_invite 5%N "a" (Some "w") 9%N) three_invites
             unique_scimid Hix eq_refl Hinv).
  - exact (Hfind "b" fourth.2.2 unique_scimid eq_refl Hfourth).
Defined.

(** X11 on the second page of three invites, and on a skip past them. *)
Lemma total_without_writers_witness :
  (_get_documents_and_count_by_filter (modified_after 10%Z) None
     (Some 10%Z) (Some 1%Z) true three_invites).1
  = Ok ([ScimApiInvite_to_dict (sample_invite 2%N "b" (Some "x") 8%N);
         ScimApiInvite_to_dict (sample_invite 3%N "c" (Some "y") 8%N)],
        3%Z)
  /\ (_get_documents_and_count_by_filter (modified_after 10%Z) None
        (Some 10%Z) (Some 5%Z) true three_invites).1
     = Ok ([], 5%Z).
Proof.
  assert (List.filter (matches (modified_after 10%Z)) (docs (coll three_invites))
          = docs (coll three_invites)) as Hf by reflexivity.
  assert (List.filter (matches (modified_after 10%Z)) (docs (coll three_invites))
          <> []) as Hne by (rewrite Hf; discriminate).
  split.
  - destruct (total_without_writers (modified_after 10%Z) None (Some 10%Z)
                (Some 1%Z) true three_invites Hne ltac:(simpl; lia))
      as (total & Hrun & Hexact & _).
    rewrite Hrun. cbn [fst]. rewrite Hexact; [reflexivity|].
    rewrite Hf. simpl. lia.
  - destruct (total_without_writers (modified_after 10%Z) None (Some 10%Z)
                (Some 5%Z) true three_invites Hne ltac:(simpl; lia))
      as (total & Hrun & _ & Hpast).
    destruct Hpast as [-> Hpage].
    + rewrite Hf. simpl. lia.
    + right. exists 10%Z. split; [reflexivity|lia].
    + rewrite Hrun. cbn [fst]. by rewrite Hpage.
Defined.


(** The store after the first group of a data owner was created, and the
    group. *)
Definition one_group : @World string :=
  (create_group (group_request []) group_store).2.
Definition first_group : @ScimApiGroup string :=
  {| group_display_name := "Staff"; group_id := 100%N; group_scim_id := "7";
     group_version := 102%N; group_created := 5000%Z;
     group_last_modified := 5000%Z; group_extensions := {| data := "{}" |};
     group_graph := Some (MkGraphGroup "7" "Staff" []) |}.

(** X13 on that store, and on the same documents with an empty graph
    store. *)
Lemma get_groups_loads_all_witness :
  (get_groups "{}" one_group).1 = inr [first_group]
  /\ (get_groups "{}" (set_graphdb ∅ one_group)).1 = inl AssertionError.
Proof.
  destruct (get_groups_loads_all "{}" [first_group] one_group eq_refl)
    as (Hall & _).
  destruct (get_groups_loads_all "{}" [first_group] (set_graphdb ∅ one_group)
              eq_refl) as (_ & Hnone & _).
  split.
  - rewrite Hall; [reflexivity|]. repeat constructor. by eexists.
  - apply Hnone. by left.
Defined.

(** X14 on that store: the groups called Staff. *)
Lemma groups_by_property_witness :
  (get_groups_by_property "{}" "display_name" "Staff" 0 100 one_group).1
  = inr [first_group]
  /\ (get_groups_by_property "{}" "display_name" "Admins" 0 100 one_group).1
     = inr [].
Proof.
  split.
  - by rewrite (groups_by_property "{}" [first_group] "display_name" "Staff"
                  0 100 one_group ltac:(by split) eq_refl ltac:(lia)).
  - by rewrite (groups_by_property "{}" [first_group] "display_name" "Admins"
                  0 100 one_group ltac:(by split) eq_refl ltac:(lia)).
Defined.

(** A stored group without members, the request to have Alice as its
    member, and what [update_group] makes of it: the document replaced,
    then the graph written. *)
Definition empty_staff : @World string :=
  with_docs [ScimApiGroup_to_dict (sample_group 9%N)] group_store.
Definition staff_with_alice : @ScimApiGroup string :=
  group_set_graph (Some (MkGraphGroup "3" "Staff" [Some (inl alice)]))
    (group_set_last_modified 5000%Z (group_set_version 100%N (sample_group 9%N))).
Definition alice_added : @World string :=
  {| coll := set_docs [ScimApiGroup_to_dict staff_with_alice] (coll group_store);
     graphdb := <["3" := MkGraphGroup "3" "Staff" [Some (inl alice)]]> ∅;
     next_oid := 101%N; next_uuid := 7%N; clock := 5000%Z;
     journal := [EvReplaceOne (ScimApiGroup_to_dict staff_with_alice) 1;
                 EvGraphSave (MkGraphGroup "3" "Staff" [Some (inl alice)])] |}.

Lemma alice_is_added :
  update_group (group_request [alice_entry]) (sample_group 9%N, empty_staff)
  = (Ok staff_with_alice, (staff_with_alice, alice_added)).
Proof. reflexivity. Qed.

Lemma alice_request_resolvable :
  NoDup (entry_tag <$> scim_members (group_request [alice_entry]))
  /\ Forall (resolvable (MkGraphGroup "3" "Staff" []))
       (scim_members (group_request [alice_entry])).
Proof.
  split.
  - apply NoDup_singleton.
  - repeat constructor.
Qed.

(** A request that renames the stored group of Alice and the Admins, gives
    it new extension data, keeps the Admins, changes Alice's label and
    adds Bob; and what [update_group] makes of it. *)
Definition alice_b : GraphUser :=
  {| user_identifier := "11"; user_display_name := "Alice B" |}.
Definition bob : GraphUser :=
  {| user_identifier := "13"; user_display_name := "Bob" |}.
Definition team_request : @SCIMGroup string :=
  {| scim_display_name := "Team";
     scim_members :=
       [admins_entry;
        {| value_ := "11"; ref := "http://localhost:8000/Users/11";
           display := "Alice B" |};
        {| value_ := "13"; ref := "http://localhost:8000/Users/13";
           display := "Bob" |}];
     scim_nutid_group_v1_data := "{org}" |}.
Definition team_graph : GraphGroup :=
  MkGraphGroup "3" "Team" [Some (inr admins); Some (inl alice_b); Some (inl bob)].
Definition team : @ScimApiGroup string :=
  {| group_display_name := "Staff"; group_id := 1%N; group_scim_id := "3";
     group_version := 100%N; group_created := 4000%Z;
     group_last_modified := 5000%Z; group_extensions := {| data := "{org}" |};
     group_graph := Some team_graph |}.
Definition team_written : @World string :=
  {| coll := set_docs [ScimApiGroup_to_dict team] (coll group_store);
     graphdb := <["3" := team_graph]> ∅;
     next_oid := 101%N; next_uuid := 7%N; clock := 5000%Z;
     journal := [EvReplaceOne (ScimApiGroup_to_dict team) 1;
                 EvGraphSave team_graph] |}.

Lemma team_is_written :
  update_group team_request (staff_group, empty_staff)
  = (Ok team, (team, team_written)).
Proof. reflexivity. Qed.

(** X16 on that request: the graph is called Team and has the three
    members; the record and its document are still called Staff. *)
Lemma update_group_reaches_desired_graph_witness :
  group_display_name team = "Staff"
  /\ ScimApiGroup_to_dict team !! "display_name" = Some (VStr "Staff")
  /\ data (group_extensions team) = "{org}"
  /\ exists graph,
       group_graph team = Some graph
       /\ display_name graph = "Team"
       /\ length (members graph) = 3
       /\ exists l, l ≡ₚ members graph
                    /\ Forall2 describes (scim_members team_request) l.
Proof.
  assert (NoDup (member_key <$> members staff_graph)) as Hkeys.
  { apply (bool_decide_unpack _). vm_compute. exact I. }
  assert (NoDup (requested_tag <$> scim_members team_request)) as Hnd.
  { apply (bool_decide_unpack _). vm_compute. exact I. }
  assert (Forall (well_read staff_graph) (scim_members team_request)) as Hread.
  { constructor; [right; split_and!; [reflexivity..|by eexists]|].
    constructor; [by left|]. constructor; [by left|]. constructor. }
  destruct (update_group_reaches_desired_graph team_request
              staff_group _ _ staff_graph _ _ eq_refl Hkeys Hnd Hread
              team_is_written)
    as (_ & _ & _ & Hkeep & Hdata & graph & Hg & _ & Hname & Hlen & Hl).
  split_and!; [exact Hkeep|reflexivity|exact Hdata|].
  exists graph. split_and!; [exact Hg|exact Hname|exact Hlen|exact Hl].
Defined.

(** X17 on that request, made twice. *)
Lemma update_group_idempotent_witness :
  update_group (group_request [alice_entry]) (staff_with_alice, alice_added)
  = (Ok staff_with_alice, (staff_with_alice, alice_added)).
Proof.
  destruct alice_request_resolvable as [Hnd Hres].
  exact (update_group_idempotent (group_request [alice_entry])
           (sample_group 9%N) _ _ (MkGraphGroup "3" "Staff" []) _ _ eq_refl
           ltac:(constructor) Hnd Hres alice_is_added).
Defined.

(** X18 on Alice's entry. *)
Lemma is_user_is_read_as_user_witness :
  is_user alice_entry = true
  /\ update_group_step (false, [], MkGraphGroup "3" "Staff" []) alice_entry
     = (true, [Fresh (inl alice)], MkGraphGroup "3" "Staff" []).
Proof.
  split; [reflexivity|].
  exact (proj1 (proj2 (proj2 is_user_is_read_as_user)) alice_entry
           (MkGraphGroup "3" "Staff" []) false [] eq_refl eq_refl).
Defined.

(** A group store in which the next ObjectId is taken, and what a failed
    [create_group] leaves of it: the graph written, and the journal of the
    save that was refused. *)
Definition taken_id : @World string :=
  set_next_oid 1%N (with_docs [ScimApiGroup_to_dict (sample_group 9%N)] group_store).
Definition graph_left : @World string :=
  {| coll := coll taken_id;
     graphdb := <["7" := MkGraphGroup "7" "Staff" []]> ∅;
     next_oid := 4%N; next_uuid := 8%N; clock := 5000%Z;
     journal :=
       [EvGraphSave (MkGraphGroup "7" "Staff" []);
        EvReplaceOne
          (<["last_modified" := VTime 5000%Z]>
             (<["version" := VOid 3%N]>
                (ScimApiGroup_to_dict
                   {| group_display_name := "Staff"; group_id := 1%N;
                      group_scim_id := "7"; group_version := 2%N;
                      group_created := 5000%Z; group_last_modified := 5000%Z;
                      group_extensions := {| data := "{}" |};
                      group_graph := Some (MkGraphGroup "7" "Staff" []) |}))) 0;
        EvFindOne (<["_id" := CEq (VOid 1%N)]> ∅)] |}.

Lemma create_group_conflicts :
  create_group (group_request []) taken_id
  = (Raise (RuntimeError "User out of sync, please retry"), graph_left).
Proof. reflexivity. Qed.

(** X19 on that store. *)
Lemma create_group_fails_after_graph_write_witness :
  docs (coll graph_left) = docs (coll taken_id)
  /\ graphdb graph_left !! "7" = Some (MkGraphGroup "7" "Staff" []).
Proof.
  destruct (create_group_fails_after_graph_write (group_request []) taken_id
              graph_left _ create_group_conflicts) as (Hdocs & Hg & _).
  split; [exact Hdocs|]. rewrite Hg. reflexivity.
Defined.

(** The store after an update from a stale copy of the stored group was
    refused, and the copy as the caller is left with it. *)
Definition stale_team : @ScimApiGroup string :=
  {| group_display_name := "Staff"; group_id := 1%N; group_scim_id := "3";
     group_version := 8%N; group_created := 4000%Z;
     group_last_modified := 4000%Z; group_extensions := {| data := "{org}" |};
     group_graph := Some team_graph |}.
Definition stale_refused : @World string :=
  after_save empty_staff (docs (coll empty_staff))
    [EvReplaceOne (new_doc (H := group_versioned) stale_team empty_staff) 0;
     EvFindOne (<["_id" := CEq (VOid 1%N)]> ∅)].

Lemma stale_update_conflicts :
  update_group team_request (group_set_version 8%N staff_group, empty_staff)
  = (Raise (RuntimeError "User out of sync, please retry"),
     (stale_team, stale_refused)).
Proof. reflexivity. Qed.

(** X20 on the request that renames the group, made from a stale copy:
    nothing is stored, and the copy has the new extension data and a
    graph called Team next to its own name, Staff. *)
Lemma update_group_fails_after_assignment_witness :
  docs (coll stale_refused) = docs (coll empty_staff)
  /\ graphdb stale_refused = graphdb empty_staff
  /\ group_display_name stale_team = "Staff"
  /\ data (group_extensions stale_team) = "{org}"
  /\ data (group_extensions (group_set_version 8%N staff_group)) = "{}"
  /\ exists graph,
       group_graph stale_team = Some graph /\ display_name graph = "Team".
Proof.
  destruct (update_group_fails_after_assignment team_request
              (group_set_version 8%N staff_group) _ staff_graph empty_staff
              stale_refused _ eq_refl stale_update_conflicts)
    as (Hdocs & Hg & _ & _ & Hkeep & Hdata & (graph & Hgraph & _ & Hname) & _).
  split_and!; [exact Hdocs|exact Hg|exact Hkeep|exact Hdata|reflexivity|].
  exists graph. split; [exact Hgraph|exact Hname].
Defined.

(** X21 on the version 100. *)
Lemma version_field_round_trip_witness :
  VersionField_deserialize (VersionField_serialize 100%N) = inr 100%N
  /\ VersionField_serialize 100%N
     = "W/" +:+ dquote +:+ "000000000000000000000064" +:+ dquote.
Proof.
  split; [|reflexivity].
  exact (proj1 (version_field_round_trip 100%N eq_refl)).
Defined.
